(** * M3U8-Downloader-Pro: the download manager of [src/main.py]

    A shallow embedding of class [DownloadManager] (manifest parsing,
    per-segment retry loop, the thread-pool driven [start_download],
    [stop_download] and [merge_files]) and the properties of its
    specification.

    Conventions of the model:
    - Python [str] is [string]; its characters are the code points below 256.
    - Python [bytes] is [list byte].
    - An exception is represented by its text [str(e)]; only instances of
      [Exception] are modelled (what [except Exception] catches).
    - The network, the [urllib] resolver and the [ffmpeg] executable are
      oracles collected in the record [Env].
    - The temporary directory is a finite map from file names to contents,
      [None] when the directory does not exist. *)

From Stdlib Require Import Ascii String Arith Lia List Permutation.
From Stdlib.Strings Require Import Byte.
From stdpp Require Import gmap strings list sorting fin_maps.

Local Open Scope nat_scope.

(* ===================================================================== *)
(** * Part I: the model                                                   *)
(* ===================================================================== *)

Abbreviation bytes := (list byte).

(** ** Python string helpers *)

(** [str(n)] for a non-negative [int]: decimal digits, most significant
    first. [digits_aux fuel n acc] pushes the digits of [n] in front of
    [acc]. *)
Fixpoint digits_aux (fuel n : nat) (acc : list nat) : list nat :=
  match fuel with
  | 0 => acc
  | S fuel' =>
      if n <? 10 then n :: acc
      else digits_aux fuel' (n / 10) (n mod 10 :: acc)
  end.

Definition digits (n : nat) : list nat := digits_aux (S n) n [].

Definition digit_char (d : nat) : ascii := ascii_of_nat (48 + d).

Fixpoint string_of_digits (ds : list nat) : string :=
  match ds with
  | [] => EmptyString
  | d :: ds' => String (digit_char d) (string_of_digits ds')
  end.

(** The format specification [05d]: zero padding on the left up to a
    minimum width of five; longer numbers are not truncated. *)
Definition zero_pad (width : nat) (ds : list nat) : list nat :=
  repeat 0 (width - length ds) ++ ds.

Definition format_05d (idx : nat) : string :=
  string_of_digits (zero_pad 5 (digits idx)).

(** [f"segment_{idx:05d}.ts"] (line 69). *)
Definition segment_name (idx : nat) : string :=
  "segment_" +:+ format_05d idx +:+ ".ts".

(** [s.endswith(suffix)]: some tail of [s] is [suffix]. *)
Fixpoint ends_with (suffix s : string) : bool :=
  String.eqb s suffix ||
  match s with
  | EmptyString => false
  | String _ s' => ends_with suffix s'
  end.

(** [s.startswith(prefix)]. *)
Definition starts_with (prefix s : string) : bool := String.prefix prefix s.

(** Characters for which [str.isspace] holds, among code points < 256. *)
Definition is_space (c : ascii) : bool :=
  let n := nat_of_ascii c in
  ((9 <=? n) && (n <=? 13)) || ((28 <=? n) && (n <=? 32))
  || (n =? 133) || (n =? 160).

(** Line boundaries of [str.splitlines], among code points < 256. *)
Definition is_linebreak (c : ascii) : bool :=
  let n := nat_of_ascii c in
  ((10 <=? n) && (n <=? 13)) || ((28 <=? n) && (n <=? 30)) || (n =? 133).

Definition LF : ascii := ascii_of_nat 10.
Definition CR : ascii := ascii_of_nat 13.

Fixpoint lstrip (s : string) : string :=
  match s with
  | EmptyString => EmptyString
  | String c s' => if is_space c then lstrip s' else s
  end.

Fixpoint rstrip (s : string) : string :=
  match s with
  | EmptyString => EmptyString
  | String c s' =>
      match rstrip s' with
      | EmptyString => if is_space c then EmptyString else String c EmptyString
      | r => String c r
      end
  end.

(** [s.strip()]. *)
Definition strip (s : string) : string := rstrip (lstrip s).

(** [s.splitlines()]. [cur] is the current line, reversed; [after_cr] is
    set when the previous character was a carriage return, so that a line
    feed that follows belongs to the same boundary. *)
Fixpoint splitlines_aux (cur : string) (after_cr : bool) (s : string)
  : list string :=
  match s with
  | EmptyString =>
      match cur with EmptyString => [] | _ => [String.rev cur] end
  | String c s' =>
      if after_cr && Ascii.eqb c LF then splitlines_aux cur false s'
      else if is_linebreak c then
        String.rev cur :: splitlines_aux EmptyString (Ascii.eqb c CR) s'
      else splitlines_aux (String c cur) false s'
  end.

Definition splitlines (s : string) : list string :=
  splitlines_aux EmptyString false s.

(** [re.sub(r'#EXT-X-BYTERANGE.*\n?', '', content)] (line 48): every
    occurrence of the marker is deleted together with the rest of its line
    and the line feed that ends it. [skipping] is set inside a match. *)
Definition byterange_marker : string := "#EXT-X-BYTERANGE".

Fixpoint re_sub_byterange (skipping : bool) (s : string) : string :=
  match s with
  | EmptyString => EmptyString
  | String c s' =>
      if skipping then
        if Ascii.eqb c LF then re_sub_byterange false s'
        else re_sub_byterange true s'
      else if String.prefix byterange_marker s then re_sub_byterange true s'
      else String c (re_sub_byterange false s')
  end.

(** [posixpath.dirname]: everything before the last slash, with trailing
    slashes removed unless the head consists of slashes only. *)
Definition slash : ascii := ascii_of_nat 47.

Fixpoint head_upto_last_slash (s : string) : string :=
  match s with
  | EmptyString => EmptyString
  | String c s' =>
      match head_upto_last_slash s' with
      | EmptyString =>
          if Ascii.eqb c slash then String c EmptyString else EmptyString
      | h => String c h
      end
  end.

Fixpoint all_slashes (s : string) : bool :=
  match s with
  | EmptyString => true
  | String c s' => Ascii.eqb c slash && all_slashes s'
  end.

Fixpoint rstrip_slash (s : string) : string :=
  match s with
  | EmptyString => EmptyString
  | String c s' =>
      match rstrip_slash s' with
      | EmptyString =>
          if Ascii.eqb c slash then EmptyString else String c EmptyString
      | r => String c r
      end
  end.

Definition dirname (p : string) : string :=
  let head := head_upto_last_slash p in
  if all_slashes head then head else rstrip_slash head.

(** [os.path.join(directory, name)] for a directory path that does not end
    in a slash and a relative [name]. *)
Definition path_join (directory name : string) : string :=
  directory +:+ "/" +:+ name.

(** ** Exceptions, results and the environment *)

Definition exn := string.

Inductive outcome (A : Type) : Type :=
| Normal (a : A)
| Raise (e : exn).
Arguments Normal {A} a.
Arguments Raise {A} e.

(** The second component of the triple returned by [download_segment]. *)
Inductive seg_error :=
| Cancelled                  (* "下载已取消" *)
| DownloadFailed (e : exn)   (* f"下载失败: {str(e)}" *)
| UnknownError.              (* "未知错误" *)

(** The triple [(idx, error, success)]. *)
Definition seg_result : Type := nat * option seg_error * bool.

(** What one [requests.get] of a segment does (lines 76-82). *)
Inductive fetch_result :=
| FetchRaise (e : exn)
    (* [requests.get] or [raise_for_status] raises *)
| FetchBody (chunks : list bytes) (broken : option exn).
    (* a 2xx response whose [iter_content] yields [chunks] and then, when
       [broken] is [Some e], raises [e] *)

(** What the [ffmpeg] subprocess does: its exit status, and the content it
    left in [output.mp4] ([None]: the file was not touched). *)
Inductive ffmpeg_result :=
| FfmpegExit (status_ok : bool) (written : option bytes).

Record Env := {
  (** line 40-43: the text of the manifest, or the exception raised by
      [requests.get] / [raise_for_status] *)
  http_manifest : string -> outcome string;
  (** the fetch of segment [idx] at [url], attempt number [retry] *)
  http_segment : nat -> string -> nat -> fetch_result;
  (** [urllib.parse.urljoin(base, ref)]; it raises [ValueError] on some
      malformed references *)
  urljoin : string -> string -> outcome string;
  (** [shutil.which("ffmpeg")] *)
  ffmpeg_installed : bool;
  (** the [ffmpeg -f concat] run on the listed files, in list order *)
  ffmpeg_concat : list (string * bytes) -> ffmpeg_result;
  (** whether [open(output_file, 'wb')] succeeds *)
  output_writable : bool;
}.

(** ** Progress callback and the observable world *)

Inductive message :=
| MsgCancelled          (* "下载已取消" *)
| MsgDownloading        (* f"下载中: {completed}/{total} ({progress}%)" *)
| MsgManualMerge.       (* "未找到FFmpeg，进行手动合并..." *)

Inductive error_message :=
| ErrParse (e : exn)        (* f"解析M3U8文件失败: {str(e)}" *)
| ErrFailedCount (n : nat)  (* f"失败片段: {len(self.failed_segments)}" *)
| ErrPartial (n : nat)      (* f"部分片段下载失败 ({n}个)" *)
| ErrMerge (e : exn).       (* f"合并文件失败: {str(e)}" *)

(** One call [progress_callback(current, total, message, error)]. *)
Record progress := {
  p_current : nat;
  p_total : nat;
  p_message : option message;
  p_error : option error_message;
}.

Inductive request :=
| ReqManifest (url : string)
| ReqSegment (idx : nat) (url : string) (retry : nat).

(** Everything outside the manager object. Both logs have their latest
    entry first. *)
Record World := {
  temp_files : option (gmap string bytes);
  output_file : option bytes;
  http_log : list request;
  progress_log : list progress;
}.

Definition set_temp_files (t : option (gmap string bytes)) (w : World) : World :=
  {| temp_files := t; output_file := output_file w;
     http_log := http_log w; progress_log := progress_log w |}.

Definition set_output_file (o : option bytes) (w : World) : World :=
  {| temp_files := temp_files w; output_file := o;
     http_log := http_log w; progress_log := progress_log w |}.

Definition log_request (r : request) (w : World) : World :=
  {| temp_files := temp_files w; output_file := output_file w;
     http_log := r :: http_log w; progress_log := progress_log w |}.

Definition progress_callback (current total : nat) (msg : option message)
    (err : option error_message) (w : World) : World :=
  {| temp_files := temp_files w; output_file := output_file w;
     http_log := http_log w;
     progress_log :=
       {| p_current := current; p_total := total;
          p_message := msg; p_error := err |} :: progress_log w |}.

(** ** The manager object *)

Record DownloadManager := {
  m3u8_url : string;
  save_path : string;
  ts_urls : list string;
  failed_segments : list (nat * option seg_error);
  completed : nat;
  total : nat;
  stop_requested : bool;
  (** [None]: no executor yet; [Some b]: a thread pool, shut down iff [b] *)
  executor : option bool;
}.

Definition set_ts_urls (us : list string) (m : DownloadManager) :=
  {| m3u8_url := m3u8_url m; save_path := save_path m; ts_urls := us;
     failed_segments := failed_segments m; completed := completed m;
     total := total m; stop_requested := stop_requested m;
     executor := executor m |}.

Definition set_total (n : nat) (m : DownloadManager) :=
  {| m3u8_url := m3u8_url m; save_path := save_path m; ts_urls := ts_urls m;
     failed_segments := failed_segments m; completed := completed m;
     total := n; stop_requested := stop_requested m;
     executor := executor m |}.

Definition set_completed (n : nat) (m : DownloadManager) :=
  {| m3u8_url := m3u8_url m; save_path := save_path m; ts_urls := ts_urls m;
     failed_segments := failed_segments m; completed := n;
     total := total m; stop_requested := stop_requested m;
     executor := executor m |}.

Definition set_failed_segments (l : list (nat * option seg_error))
    (m : DownloadManager) :=
  {| m3u8_url := m3u8_url m; save_path := save_path m; ts_urls := ts_urls m;
     failed_segments := l; completed := completed m;
     total := total m; stop_requested := stop_requested m;
     executor := executor m |}.

Definition set_stop_requested (b : bool) (m : DownloadManager) :=
  {| m3u8_url := m3u8_url m; save_path := save_path m; ts_urls := ts_urls m;
     failed_segments := failed_segments m; completed := completed m;
     total := total m; stop_requested := b;
     executor := executor m |}.

Definition set_executor (e : option bool) (m : DownloadManager) :=
  {| m3u8_url := m3u8_url m; save_path := save_path m; ts_urls := ts_urls m;
     failed_segments := failed_segments m; completed := completed m;
     total := total m; stop_requested := stop_requested m;
     executor := e |}.

(** [self.temp_dir] (line 28). *)
Definition temp_dir (m : DownloadManager) : string :=
  path_join (save_path m) "temp_ts_files".

(** [__init__] (lines 15-36): the fields, and a fresh empty temporary
    directory ([rmtree] then [makedirs]). *)
Definition new_manager (url path : string) : DownloadManager :=
  {| m3u8_url := url; save_path := path; ts_urls := [];
     failed_segments := []; completed := 0; total := 0;
     stop_requested := false; executor := None |}.

Definition init_world (w : World) : World := set_temp_files (Some ∅) w.

(** ** [parse_m3u8] (lines 38-63) *)

(** A list comprehension whose element expression may raise. *)
Fixpoint map_outcome {A B} (f : A -> outcome B) (l : list A)
  : outcome (list B) :=
  match l with
  | [] => Normal []
  | x :: l' =>
      match f x with
      | Raise e => Raise e
      | Normal y =>
          match map_outcome f l' with
          | Raise e => Raise e
          | Normal ys => Normal (y :: ys)
          end
      end
  end.

Definition nonempty (s : string) : bool :=
  match s with EmptyString => false | _ => true end.

(** Line 49: [[line.strip() for line in content.splitlines() if line.strip()]]. *)
Definition stripped_lines (content : string) : list string :=
  flat_map (fun line => if nonempty (strip line) then [strip line] else [])
           (splitlines content).

(** Lines 48-53 up to the resolution: the references of the manifest. *)
Definition manifest_refs (content : string) : list string :=
  List.filter (fun line => negb (starts_with "#" line))
         (stripped_lines (re_sub_byterange false content)).

(** Line 52. *)
Definition base_url (url : string) : string := dirname url +:+ "/".

(** The body of the [try] block. *)
Definition parse_m3u8_try (env : Env) (m : DownloadManager) (w : World)
  : outcome unit * DownloadManager * World :=
  let w := log_request (ReqManifest (m3u8_url m)) w in
  match http_manifest env (m3u8_url m) with
  | Raise e => (Raise e, m, w)
  | Normal content =>
      if nonempty content then
        match map_outcome (urljoin env (base_url (m3u8_url m)))
                          (manifest_refs content) with
        | Raise e => (Raise e, m, w)
        | Normal urls =>
            let m := set_ts_urls urls m in
            match urls with
            | [] => (Raise "No TS files found in M3U8", m, w)
            | _ => (Normal (), set_total (length urls) m, w)
            end
        end
      else (Raise "Empty M3U8 file", m, w)
  end.

Definition parse_m3u8 (env : Env) (m : DownloadManager) (w : World)
  : bool * DownloadManager * World :=
  match parse_m3u8_try env m w with
  | (Normal _, m', w') => (true, m', w')
  | (Raise e, m', w') =>
      (false, m', progress_callback 0 0 None (Some (ErrParse e)) w')
  end.

(** ** [download_segment] (lines 65-90) *)

(** Lines 80-82: what the chunk loop writes ([if chunk] skips the empty
    keep-alive chunks). *)
Definition nonempty_chunks (chunks : list bytes) : bytes :=
  concat (List.filter (fun c => negb (length c =? 0)) chunks).

(** Lines 76-82: one attempt. The file is opened for writing (truncated)
    only after the response passed [raise_for_status]; the non-empty chunks
    received before a failure stay in the file. *)
Definition fetch_attempt (env : Env) (idx : nat) (url : string) (retry : nat)
    (w : World) : outcome unit * World :=
  let w := log_request (ReqSegment idx url retry) w in
  match http_segment env idx url retry with
  | FetchRaise e => (Raise e, w)
  | FetchBody chunks broken =>
      match temp_files w with
      | None => (Raise "FileNotFoundError", w)
      | Some fs =>
          let w' :=
            set_temp_files
              (Some (<[segment_name idx := nonempty_chunks chunks]> fs)) w in
          match broken with
          | Some e => (Raise e, w')
          | None => (Normal (), w')
          end
      end
  end.

(** The [except Exception] clause of lines 85-88: [None] stands for
    [continue]. *)
Definition on_exception (idx max_retries retry : nat) (e : exn)
  : option seg_result :=
  if retry <? max_retries - 1 then None
  else Some (idx, Some (DownloadFailed e), false).

(** One iteration of the [for] loop; [stop] is the value of
    [self.stop_requested] read at line 72. *)
Definition loop_body (env : Env) (stop : bool) (idx : nat) (url : string)
    (max_retries retry : nat) (w : World)
  : outcome (option seg_result) * World :=
  if stop then (Normal (Some (idx, Some Cancelled, false)), w)
  else
    match fetch_attempt env idx url retry w with
    | (Normal _, w') => (Normal (Some (idx, None, true)), w')
    | (Raise e, w') => (Normal (on_exception idx max_retries retry e), w')
    end.

(** [for retry in range(...)]: stops at the first iteration that returns
    or raises. [flag k] is the value of [self.stop_requested] at the [k]-th
    time this call reads it (the read of line 66 is number 0, the read of
    line 72 in iteration [retry] is number [retry + 1]). *)
Fixpoint for_retries (env : Env) (flag : nat -> bool) (idx : nat)
    (url : string) (max_retries : nat) (range : list nat) (w : World)
  : outcome (option seg_result) * World :=
  match range with
  | [] => (Normal None, w)
  | retry :: range' =>
      match loop_body env (flag (S retry)) idx url max_retries retry w with
      | (Normal None, w') =>
          for_retries env flag idx url max_retries range' w'
      | other => other
      end
  end.

Definition download_segment (env : Env) (flag : nat -> bool) (idx : nat)
    (url : string) (max_retries : nat) (w : World)
  : outcome seg_result * World :=
  if flag 0 then (Normal (idx, Some Cancelled, false), w)
  else
    match for_retries env flag idx url max_retries (seq 0 max_retries) w with
    | (Normal (Some r), w') => (Normal r, w')
    | (Normal None, w') => (Normal (idx, Some UnknownError, false), w')
    | (Raise e, w') => (Raise e, w')
    end.

(** ** [merge_files] (lines 134-176) *)

(** [os.listdir]: the names in the directory, in no particular order. *)
Definition listdir (fs : gmap string bytes) : list string :=
  (map_to_list fs).*1.

(** Lines 137-141: the sorted paths of the [.ts] files. [sorted] compares
    [str] values code point by code point, which is [String.le]. *)
Definition ts_file_paths (dir : string) (fs : gmap string bytes)
  : list string :=
  merge_sort String.le
    (map (path_join dir) (List.filter (fun f => ends_with ".ts" f) (listdir fs))).

Fixpoint strip_prefix (p s : string) : option string :=
  match p with
  | EmptyString => Some s
  | String c p' =>
      match s with
      | EmptyString => None
      | String d s' => if Ascii.eqb c d then strip_prefix p' s' else None
      end
  end.

(** [open(path, 'rb').read()] for a path inside the directory [dir]. *)
Definition read_path (dir : string) (fs : gmap string bytes) (path : string)
  : option bytes :=
  match strip_prefix (dir +:+ "/") path with
  | Some name => fs !! name
  | None => None
  end.

(** Lines 148-150: the text of [file_list.txt]. *)
Definition list_file_text (paths : list string) : string :=
  fold_right
    (fun ts acc => "file '" +:+ ts +:+ "'" +:+ String LF acc)
    EmptyString paths.

(** Lines 168-170: append every file to the output, in list order. *)
Fixpoint copy_files (dir : string) (fs : gmap string bytes)
    (paths : list string) (out : bytes) : outcome unit * bytes :=
  match paths with
  | [] => (Normal (), out)
  | p :: rest =>
      match read_path dir fs p with
      | Some data => copy_files dir fs rest (out ++ data)
      | None => (Raise "FileNotFoundError", out)
      end
  end.

Definition ffmpeg_inputs (dir : string) (fs : gmap string bytes)
    (paths : list string) : list (string * bytes) :=
  map (fun p => (p, default [] (read_path dir fs p))) paths.

(** The body of the [try] block. *)
Definition merge_files_try (env : Env) (m : DownloadManager) (w : World)
  : outcome unit * World :=
  match temp_files w with
  | None => (Raise "FileNotFoundError", w)
  | Some fs =>
      let ts_files := ts_file_paths (temp_dir m) fs in
      match ts_files with
      | [] => (Raise "未找到分片文件", w)
      | _ =>
          let fs1 :=
            <["file_list.txt" :=
                String.list_byte_of_string (list_file_text ts_files)]> fs in
          let w1 := set_temp_files (Some fs1) w in
          if ffmpeg_installed env then
            match ffmpeg_concat env (ffmpeg_inputs (temp_dir m) fs1 ts_files) with
            | FfmpegExit status_ok written =>
                let w2 :=
                  match written with
                  | Some out => set_output_file (Some out) w1
                  | None => w1
                  end in
                if status_ok then (Normal (), set_temp_files None w2)
                else (Raise "CalledProcessError", w2)
            end
          else
            let w2 := progress_callback 0 0 (Some MsgManualMerge) None w1 in
            if output_writable env then
              match copy_files (temp_dir m) fs1 ts_files [] with
              | (Normal _, out) =>
                  (Normal (), set_temp_files None (set_output_file (Some out) w2))
              | (Raise e, out) => (Raise e, set_output_file (Some out) w2)
              end
            else (Raise "PermissionError", w2)
      end
  end.

Definition merge_files (env : Env) (m : DownloadManager) (w : World)
  : bool * World :=
  match merge_files_try env m w with
  | (Normal _, w') => (true, w')
  | (Raise e, w') =>
      (false, progress_callback 0 0 None (Some (ErrMerge e)) w')
  end.

(** ** [start_download], [stop_download] and the pool threads *)

(** Where a submitted call of [download_segment] stands. The flag read and
    the request that follows it are separate steps: [stop_download] may run
    between them. *)
Inductive wstate :=
| WPending                  (* queued in the pool, not started *)
| WLoop (retry : nat)       (* at the head of the [for] loop *)
| WFetch (retry : nat)      (* past line 72, about to call [requests.get] *)
| WDone (r : seg_result).   (* returned *)

(** Where the thread that called [start_download] stands. *)
Inductive main_pc :=
| MStart                    (* before line 93 *)
| MParse                    (* line 97 *)
| MSubmit (k : nat)         (* line 103, [k] calls submitted *)
| MCollect                  (* the loop of line 105 *)
| MJoin (r : outcome bool)  (* leaving the [with] block early: the pool's
                               [shutdown(wait=True)], then [r] *)
| MDone (r : outcome bool). (* returned, or raised *)

Record System := {
  mgr : DownloadManager;
  world : World;
  pc : main_pc;
  (** the futures of line 103, by segment index *)
  futures : list wstate;
  (** the futures [as_completed] has handed out, latest first *)
  yielded : list nat;
}.

Definition default_max_retries : nat := 3.

Definition is_pending (ws : wstate) : bool :=
  match ws with WPending => true | _ => false end.

Definition is_done (ws : wstate) : bool :=
  match ws with WDone _ => true | _ => false end.

Definition is_active (ws : wstate) : bool :=
  match ws with WLoop _ | WFetch _ => true | _ => false end.

Definition in_flight (ws : wstate) : bool :=
  match ws with WFetch _ => true | _ => false end.

(** A queued call starts when a pool thread is free and every call queued
    before it has started. *)
Definition can_start (max_workers i : nat) (fs : list wstate) : bool :=
  (length (List.filter (fun ws => is_active ws) fs) <? max_workers)
  && forallb (fun ws => negb (is_pending ws)) (take i fs).

(** One step of the pool thread running [download_segment(i, url)]. *)
Definition worker_next (env : Env) (max_retries : nat) (stop : bool)
    (i : nat) (url : string) (ws : wstate) (w : World)
  : option (wstate * World) :=
  match ws with
  | WPending =>
      if stop then Some (WDone (i, Some Cancelled, false), w)
      else Some (WLoop 0, w)
  | WLoop retry =>
      if retry <? max_retries then
        if stop then Some (WDone (i, Some Cancelled, false), w)
        else Some (WFetch retry, w)
      else Some (WDone (i, Some UnknownError, false), w)
  | WFetch retry =>
      match fetch_attempt env i url retry w with
      | (Normal _, w') => Some (WDone (i, None, true), w')
      | (Raise e, w') =>
          match on_exception i max_retries retry e with
          | None => Some (WLoop (S retry), w')
          | Some r => Some (WDone r, w')
          end
      end
  | WDone _ => None
  end.

Definition set_pc (p : main_pc) (s : System) : System :=
  {| mgr := mgr s; world := world s; pc := p;
     futures := futures s; yielded := yielded s |}.

Definition worker_step (env : Env) (max_workers i : nat) (s : System)
  : option System :=
  match futures s !! i, ts_urls (mgr s) !! i with
  | Some ws, Some url =>
      if is_pending ws && negb (can_start max_workers i (futures s)) then None
      else
        match worker_next env default_max_retries
                (stop_requested (mgr s)) i url ws (world s) with
        | Some (ws', w') =>
            Some {| mgr := mgr s; world := w'; pc := pc s;
                    futures := <[i := ws']> (futures s);
                    yielded := yielded s |}
        | None => None
        end
  | _, _ => None
  end.

(** Lines 122-127. *)
Definition final_check (s : System) : System :=
  match failed_segments (mgr s) with
  | [] => set_pc (MDone (Normal true)) s
  | l =>
      {| mgr := mgr s;
         world := progress_callback (completed (mgr s)) (total (mgr s)) None
                    (Some (ErrPartial (length l))) (world s);
         pc := MDone (Normal false);
         futures := futures s; yielded := yielded s |}
  end.

(** One step of the thread inside [start_download]. In [MCollect] it blocks
    until a future completes (see [yield_step]) unless every future has
    been handed out. *)
Definition main_step (env : Env) (max_workers : nat) (s : System)
  : option System :=
  match pc s with
  | MStart =>
      Some {| mgr := set_failed_segments []
                       (set_completed 0 (set_stop_requested false (mgr s)));
              world := world s; pc := MParse;
              futures := futures s; yielded := yielded s |}
  | MParse =>
      match parse_m3u8 env (mgr s) (world s) with
      | (true, m', w') =>
          if max_workers =? 0 then
            Some {| mgr := m'; world := w';
                    pc := MDone (Raise "max_workers must be greater than 0");
                    futures := futures s; yielded := yielded s |}
          else
            Some {| mgr := set_executor (Some false) m'; world := w';
                    pc := MSubmit 0;
                    futures := futures s; yielded := yielded s |}
      | (false, m', w') =>
          Some {| mgr := m'; world := w'; pc := MDone (Normal false);
                  futures := futures s; yielded := yielded s |}
      end
  | MSubmit k =>
      match ts_urls (mgr s) !! k with
      | None => Some (set_pc MCollect s)
      | Some _ =>
          match executor (mgr s) with
          | Some false =>
              Some {| mgr := mgr s; world := world s; pc := MSubmit (S k);
                      futures := futures s ++ [WPending];
                      yielded := yielded s |}
          | _ =>
              Some (set_pc
                      (MJoin (Raise "cannot schedule new futures after shutdown"))
                      s)
          end
      end
  | MCollect =>
      if length (yielded s) =? length (futures s) then Some (final_check s)
      else None
  | MJoin r =>
      if forallb is_done (futures s) then Some (set_pc (MDone r) s) else None
  | MDone _ => None
  end.

(** One iteration of the loop of lines 105-120, for the completed future
    of segment [i]. *)
Definition yield_step (i : nat) (s : System) : option System :=
  match pc s, futures s !! i with
  | MCollect, Some (WDone (idx, error, success)) =>
      if bool_decide (i ∈ yielded s) then None
      else
        let m1 := set_completed (completed (mgr s) + 1) (mgr s) in
        if stop_requested m1 then
          Some {| mgr := m1;
                  world := progress_callback (completed m1) (total m1)
                             (Some MsgCancelled) None (world s);
                  pc := MJoin (Normal false);
                  futures := futures s; yielded := i :: yielded s |}
        else
          let '(m2, w2) :=
            if success then (m1, world s)
            else
              let m2 :=
                set_failed_segments (failed_segments m1 ++ [(idx, error)]) m1 in
              (m2, progress_callback (completed m2) (total m2) None
                     (Some (ErrFailedCount (length (failed_segments m2))))
                     (world s)) in
          Some {| mgr := m2;
                  world := progress_callback (completed m2) (total m2)
                             (Some MsgDownloading) None w2;
                  pc := MCollect;
                  futures := futures s; yielded := i :: yielded s |}
  | _, _ => None
  end.

(** [stop_download] (lines 129-132), callable from any thread. *)
Definition stop_download (s : System) : System :=
  {| mgr :=
       set_executor
         (match executor (mgr s) with Some _ => Some true | None => None end)
         (set_stop_requested true (mgr s));
     world := world s; pc := pc s;
     futures := futures s; yielded := yielded s |}.

Inductive event :=
| EvMain              (* the calling thread takes a step *)
| EvYield (i : nat)   (* [as_completed] hands out future [i] *)
| EvWorker (i : nat)  (* the pool thread of segment [i] takes a step *)
| EvStop.             (* another thread calls [stop_download] *)

Definition step (env : Env) (max_workers : nat) (e : event) (s : System)
  : option System :=
  match e with
  | EvMain => main_step env max_workers s
  | EvYield i => yield_step i s
  | EvWorker i => worker_step env max_workers i s
  | EvStop => Some (stop_download s)
  end.

(** An interleaving of the threads. *)
Fixpoint run (env : Env) (max_workers : nat) (sched : list event)
    (s : System) : option System :=
  match sched with
  | [] => Some s
  | e :: sched' =>
      match step env max_workers e s with
      | Some s' => run env max_workers sched' s'
      | None => None
      end
  end.

(** A fresh manager ([__init__]) about to run [start_download]. *)
Definition init_system (url path : string) (w : World) : System :=
  {| mgr := new_manager url path; world := init_world w; pc := MStart;
     futures := []; yielded := [] |}.

Definition is_stop (e : event) : bool :=
  match e with EvStop => true | _ => false end.

Definition finished (s : System) : bool :=
  match pc s with MDone _ => true | _ => false end.

(** A segment fetch succeeds when the response is complete. *)
Definition fetch_ok (r : fetch_result) : bool :=
  match r with FetchBody _ None => true | _ => false end.

(** The segment requests of a log, oldest first. *)
Definition segment_requests (log : list request) : list (nat * nat) :=
  omap (fun r => match r with
                 | ReqSegment idx _ retry => Some (idx, retry)
                 | ReqManifest _ => None
                 end) (rev log).

(** The attempts logged for segment [idx]. *)
Definition attempts_of (idx : nat) (log : list request) : list nat :=
  omap (fun r => match r with
                 | ReqSegment i _ retry =>
                     if i =? idx then Some retry else None
                 | ReqManifest _ => None
                 end) (rev log).

(** ** Definitions used to state the properties *)

(** What [parse_m3u8] computes from the network alone: the resolved
    segment URLs, or the exception that makes it fail. *)
Definition manifest_urls (env : Env) (url : string) : outcome (list string) :=
  match http_manifest env url with
  | Raise e => Raise e
  | Normal content =>
      if nonempty content then
        match map_outcome (urljoin env (base_url url)) (manifest_refs content) with
        | Raise e => Raise e
        | Normal [] => Raise "No TS files found in M3U8"
        | Normal urls => Normal urls
        end
      else Raise "Empty M3U8 file"
  end.

(** The first successful attempt among [k, k+1, ..., k+n-1]. *)
Fixpoint first_success (env : Env) (idx : nat) (url : string) (k n : nat)
  : option nat :=
  match n with
  | 0 => None
  | S n' =>
      if fetch_ok (http_segment env idx url k) then Some k
      else first_success env idx url (S k) n'
  end.

(** The attempts an uncancelled [download_segment] makes. *)
Definition attempts_made (env : Env) (idx : nat) (url : string) (m : nat)
  : nat :=
  match first_success env idx url 0 m with
  | Some k => S k
  | None => m
  end.

(** The segment file after the first [k] attempts, starting without one. *)
Fixpoint file_after (env : Env) (idx : nat) (url : string) (k : nat)
  : option bytes :=
  match k with
  | 0 => None
  | S k' =>
      match http_segment env idx url k' with
      | FetchRaise _ => file_after env idx url k'
      | FetchBody chunks _ => Some (nonempty_chunks chunks)
      end
  end.

Definition exn_of (r : fetch_result) : exn :=
  match r with
  | FetchRaise e => e
  | FetchBody _ (Some e) => e
  | FetchBody _ None => EmptyString
  end.

(** The triple and the file an uncancelled [download_segment] ends with. *)
Definition final_result (env : Env) (idx : nat) (url : string) (m : nat)
  : seg_result :=
  match first_success env idx url 0 m with
  | Some _ => (idx, None, true)
  | None =>
      match m with
      | 0 => (idx, Some UnknownError, false)
      | S m' =>
          (idx, Some (DownloadFailed (exn_of (http_segment env idx url m'))),
           false)
      end
  end.

Definition final_file (env : Env) (idx : nat) (url : string) (m : nat)
  : option bytes :=
  file_after env idx url (attempts_made env idx url m).

Definition segment_succeeds (env : Env) (idx : nat) (url : string) : bool :=
  bool_decide (is_Some (first_success env idx url 0 default_max_retries)).

(** The entries of the failed-segment list for the futures handed out in
    [order]. *)
Definition failures_of (fs : list wstate) (order : list nat)
  : list (nat * option seg_error) :=
  omap (fun i => match fs !! i with
                 | Some (WDone (idx, error, false)) => Some (idx, error)
                 | _ => None
                 end) order.

(** The number written by a list of decimal digits, most significant
    first. *)
Fixpoint undigits (ds : list nat) : nat :=
  match ds with
  | [] => 0
  | d :: ds' => d * 10 ^ length ds' + undigits ds'
  end.

(** The names of the [.ts] files of a directory, in the order of [sorted]. *)
Definition sorted_ts_names (fs : gmap string bytes) : list string :=
  merge_sort String.le
    (List.filter (fun f => ends_with ".ts" f) (listdir fs)).

(** The content of the files [names] of a directory, one after the other. *)
Definition concat_files (fs : gmap string bytes) (names : list string)
  : bytes :=
  concat (map (fun n => default [] (fs !! n)) names).

(** ** Invariants of the interleavings *)

(** The pool thread of segment [idx] is where an uncancelled
    [download_segment] would be, and [file] is what its attempts so far
    left in the temporary directory. *)
Definition on_track (env : Env) (idx : nat) (url : string) (ws : wstate)
    (file : option bytes) : Prop :=
  match ws with
  | WPending => file = None
  | WLoop retry | WFetch retry =>
      retry < default_max_retries
      /\ first_success env idx url 0 retry = None
      /\ file = file_after env idx url retry
  | WDone r =>
      r = final_result env idx url default_max_retries
      /\ file = final_file env idx url default_max_retries
  end.

(** The last call of the progress callback. *)
Definition last_progress (s : System) : option progress :=
  head (progress_log (world s)).

Definition partial_failure_reported (s : System) : Prop :=
  exists n, last_progress s
            = Some {| p_current := completed (mgr s);
                      p_total := total (mgr s);
                      p_message := None;
                      p_error := Some (ErrPartial n) |}.

(** How [start_download] can have ended when nobody called
    [stop_download]. *)
Definition done_without_stop (env : Env) (max_workers : nat) (url : string)
    (r : outcome bool) (s : System) : Prop :=
  (exists e, manifest_urls env url = Raise e /\ r = Normal false
             /\ futures s = [] /\ completed (mgr s) = 0)
  \/ (max_workers = 0 /\ (exists e, r = Raise e) /\ futures s = []
      /\ completed (mgr s) = 0)
  \/ (manifest_urls env url = Normal (ts_urls (mgr s))
      /\ total (mgr s) = length (ts_urls (mgr s))
      /\ length (futures s) = length (ts_urls (mgr s))
      /\ length (yielded s) = length (futures s)
      /\ completed (mgr s) = total (mgr s)
      /\ r = Normal (bool_decide (failed_segments (mgr s) = []))
      /\ (failed_segments (mgr s) <> [] -> partial_failure_reported s)).

(** What holds in every state of an interleaving without [EvStop]. *)
Record nostop_inv (env : Env) (max_workers : nat) (url : string)
    (s : System) : Prop := {
  ni_url : m3u8_url (mgr s) = url;
  ni_flag : stop_requested (mgr s) = false;
  ni_exec : executor (mgr s) <> Some true;
  ni_files :
    exists fs,
      temp_files (world s) = Some fs
      /\ (forall i ws, futures s !! i = Some ws ->
            exists u, ts_urls (mgr s) !! i = Some u
                      /\ on_track env i u ws (fs !! segment_name i))
      /\ (forall name, is_Some (fs !! name) ->
            exists i, i < length (futures s) /\ name = segment_name i);
  ni_yielded :
    NoDup (yielded s)
    /\ forall i, i ∈ yielded s -> exists r, futures s !! i = Some (WDone r);
  ni_failed :
    failed_segments (mgr s) = failures_of (futures s) (rev (yielded s));
  ni_pc :
    match pc s with
    | MStart => futures s = [] /\ yielded s = []
    | MParse => futures s = [] /\ yielded s = [] /\ completed (mgr s) = 0
    | MSubmit k =>
        manifest_urls env url = Normal (ts_urls (mgr s))
        /\ total (mgr s) = length (ts_urls (mgr s))
        /\ k = length (futures s) /\ yielded s = []
        /\ completed (mgr s) = 0 /\ executor (mgr s) = Some false
        /\ max_workers <> 0
    | MCollect =>
        manifest_urls env url = Normal (ts_urls (mgr s))
        /\ total (mgr s) = length (ts_urls (mgr s))
        /\ length (futures s) = length (ts_urls (mgr s))
        /\ completed (mgr s) = length (yielded s)
        /\ max_workers <> 0
    | MJoin _ => False
    | MDone r => done_without_stop env max_workers url r s
    end;
}.

(** The last call of the callback was the cancellation message of
    line 110. *)
Definition cancellation_reported (s : System) : Prop :=
  exists c t, last_progress s
              = Some {| p_current := c; p_total := t;
                        p_message := Some MsgCancelled; p_error := None |}.

(** What holds in every state of every interleaving. *)
Record reach_inv (max_workers : nat) (s : System) : Prop := {
  ri_len : length (futures s) <= length (ts_urls (mgr s));
  ri_yielded :
    NoDup (yielded s)
    /\ forall i, i ∈ yielded s -> exists r, futures s !! i = Some (WDone r);
  ri_pc :
    match pc s with
    | MStart => futures s = [] /\ yielded s = [] /\ total (mgr s) = 0
    | MParse =>
        futures s = [] /\ yielded s = [] /\ total (mgr s) = 0
        /\ completed (mgr s) = 0
    | MSubmit k =>
        k = length (futures s) /\ yielded s = [] /\ max_workers <> 0
        /\ total (mgr s) = length (ts_urls (mgr s)) /\ 0 < total (mgr s)
        /\ completed (mgr s) = 0
    | MCollect =>
        length (futures s) = length (ts_urls (mgr s))
        /\ total (mgr s) = length (futures s)
        /\ completed (mgr s) = length (yielded s)
        /\ max_workers <> 0 /\ 0 < total (mgr s)
    | MJoin r =>
        r <> Normal true /\ max_workers <> 0
        /\ (r = Normal false -> cancellation_reported s)
    | MDone r =>
        (r = Normal true -> completed (mgr s) = total (mgr s))
        /\ (r = Normal false ->
            completed (mgr s) = total (mgr s) \/ total (mgr s) = 0
            \/ cancellation_reported s)
    end;
}.

(** The segment requests issued so far, plus one for every pool thread
    that is past its flag check and about to issue one. *)
Definition in_flight_count (fs : list wstate) : nat :=
  sum_list_with (fun ws => if in_flight ws then 1 else 0) fs.

Definition request_budget (s : System) : nat :=
  length (segment_requests (http_log (world s))) + in_flight_count (futures s).

(** What holds once [stop_download] was called with segments outstanding. *)
Definition cancelled_inv (s : System) : Prop :=
  stop_requested (mgr s) = true
  /\ match pc s with
     | MStart | MParse => False
     | MSubmit k =>
         k = length (futures s) /\ yielded s = []
         /\ 0 < length (ts_urls (mgr s))
     | MCollect => length (yielded s) < length (futures s)
     | MJoin r | MDone r =>
         r <> Normal true /\ (r = Normal false -> cancellation_reported s)
     end.

(** A bound on the steps the threads can still take (calls of
    [stop_download] apart). *)
Definition worker_measure (ws : wstate) : nat :=
  match ws with
  | WPending => 2 * default_max_retries + 3
  | WLoop retry => 2 * (default_max_retries - retry) + 2
  | WFetch retry => 2 * (default_max_retries - retry) + 1
  | WDone _ => 0
  end.

Definition submit_measure (n k len : nat) : nat :=
  (n - k) * (2 * default_max_retries + 4) + len + (n - k) + 3.

Definition main_measure (env : Env) (s : System) : nat :=
  let expected :=
    match manifest_urls env (m3u8_url (mgr s)) with
    | Normal urls => length urls
    | Raise _ => 0
    end in
  match pc s with
  | MStart => 2 + submit_measure expected 0 (length (futures s))
  | MParse => 1 + submit_measure expected 0 (length (futures s))
  | MSubmit k =>
      submit_measure (length (ts_urls (mgr s))) k (length (futures s))
  | MCollect => length (futures s) - length (yielded s) + 2
  | MJoin _ => 1
  | MDone _ => 0
  end.

Definition measure (env : Env) (s : System) : nat :=
  main_measure env s + sum_list_with worker_measure (futures s).

(** ** What a run without cancellation is expected to leave *)

(** The entry of the failed-segment list for segment [idx]: none when one
    of its attempts succeeds, otherwise the index with the error of the
    last attempt. *)
Definition failure_entry (env : Env) (urls : list string) (idx : nat)
  : option (nat * option seg_error) :=
  match urls !! idx with
  | Some u =>
      if segment_succeeds env idx u then None
      else Some (idx,
                 Some (DownloadFailed
                         (exn_of (http_segment env idx u
                                    (default_max_retries - 1)))))
  | None => None
  end.

Definition expected_failures (env : Env) (urls : list string)
  : list (nat * option seg_error) :=
  omap (failure_entry env urls) (seq 0 (length urls)).



Definition stop_free (sched : list event) : bool :=
  forallb (fun e => negb (is_stop e)) sched.

(** What holds in every state when the manifest cannot be parsed. *)
Definition parse_failed_inv (url : string) (w0 : World) (s : System) : Prop :=
  m3u8_url (mgr s) = url
  /\ futures s = [] /\ yielded s = []
  /\ segment_requests (http_log (world s)) = segment_requests (http_log w0)
  /\ match pc s with
     | MStart => True
     | MParse => completed (mgr s) = 0 /\ failed_segments (mgr s) = []
     | MDone r =>
         r = Normal false
         /\ completed (mgr s) = 0 /\ failed_segments (mgr s) = []
     | _ => False
     end.

(** ** Concrete scenarios *)

(** A text made of the given lines, each ended by a line feed. *)
Definition text_of_lines (ls : list string) : string :=
  fold_right (fun l acc => l +:+ String LF acc) EmptyString ls.

Definition empty_world : World :=
  {| temp_files := None; output_file := None;
     http_log := []; progress_log := [] |}.

(** An environment without [ffmpeg], whose resolver appends a relative
    reference to its base (what [urljoin] does for a base that ends in a
    slash and a plain file name). *)
Definition scenario_env (manifest : outcome string)
    (segment : nat -> nat -> fetch_result) : Env :=
  {| http_manifest := fun _ => manifest;
     http_segment := fun idx _ retry => segment idx retry;
     urljoin := fun base ref => Normal (base +:+ ref);
     ffmpeg_installed := false;
     ffmpeg_concat := fun _ => FfmpegExit false None;
     output_writable := true |}.

Definition scenario_url : string := "http://host/path/index.m3u8".

(** A manifest with five relative references. *)
Definition five_segments : string :=
  text_of_lines
    ["#EXTM3U"; "#EXT-X-TARGETDURATION:10";
     "#EXTINF:10,"; "seg0.ts"; "#EXTINF:10,"; "seg1.ts";
     "#EXTINF:10,"; "seg2.ts"; "#EXTINF:10,"; "seg3.ts";
     "#EXTINF:10,"; "seg4.ts"; "#EXT-X-ENDLIST"].

Definition five_urls : list string :=
  ["http://host/path/seg0.ts"; "http://host/path/seg1.ts";
   "http://host/path/seg2.ts"; "http://host/path/seg3.ts";
   "http://host/path/seg4.ts"].

(** Every segment succeeds; segment 1 only on its second attempt. *)
Definition env_all_succeed : Env :=
  scenario_env (Normal five_segments)
    (fun idx retry =>
       if (idx =? 1) && (retry =? 0) then FetchRaise "timed out"
       else FetchBody [[x47]; []; [x40]] None).

(** Scenario B: segment 2 fails on all attempts, the others succeed. *)
Definition env_segment_2_fails : Env :=
  scenario_env (Normal five_segments)
    (fun idx retry =>
       if idx =? 2 then FetchRaise "404 Client Error"
       else FetchBody [[x47]] None).


(** [n] steps of the pool thread of segment [i]. *)
Definition worker_steps (i n : nat) : list event := repeat (EvWorker i) n.

(** A sequential interleaving for five segments: submission, then each
    pool thread to its end ([steps] gives the number of steps of each),
    then the results in index order. *)
Definition sequential_schedule (steps : list nat) : list event :=
  repeat EvMain 8
  ++ concat (imap worker_steps steps)
  ++ [EvYield 0; EvYield 1; EvYield 2; EvYield 3; EvYield 4; EvMain].

(** Scenario C: [stop_download] is called when two of five segments have
    started; this is the interleaving up to the call ... *)
Definition schedule_before_stop : list event :=
  repeat EvMain 8 ++ worker_steps 0 2 ++ worker_steps 1 2.

(** ... and this is one after it. *)
Definition schedule_after_stop : list event :=
  [EvWorker 0; EvWorker 1; EvWorker 2; EvWorker 3; EvWorker 4;
   EvYield 3; EvWorker 1; EvMain].


(** A manifest with an empty body. *)
Definition env_empty_manifest : Env :=
  scenario_env (Normal EmptyString) (fun _ _ => FetchRaise "offline").


(** A directory with three one-byte segments, written in the order
    2, 0, 1 (Scenario D). *)
Definition three_segments : gmap string bytes :=
  <[segment_name 1 := [x02]]>
    (<[segment_name 0 := [x01]]> (<[segment_name 2 := [x03]]> ∅)).

(** A directory holding the files of the indices 10001 and 100000. *)
Definition six_digit_segments : gmap string bytes :=
  <[segment_name (10 ^ 5) := [x02]]>
    (<[segment_name (10 ^ 4 + 1) := [x01]]> ∅).

Definition world_with_files (fs : gmap string bytes) : World :=
  set_temp_files (Some fs) empty_world.

(** The error of the last call of the callback. *)
Definition last_error (w : World) : option error_message :=
  match progress_log w with
  | p :: _ => p_error p
  | [] => None
  end.

(** ** Definitions for the further properties *)

(** The temporary directory [t'] differs from [t] at most in the file
    [name]; a directory is neither created nor removed. *)
Definition only_file_changed (name : string)
    (t t' : option (gmap string bytes)) : Prop :=
  match t, t' with
  | Some fs, Some fs' => forall n, n <> name -> fs' !! n = fs !! n
  | None, None => True
  | _, _ => False
  end.

(** ** Playlists given line by line *)

(** [p] occurs in [s] at some position. *)
Fixpoint occurs_in (p s : string) : bool :=
  String.prefix p s
  || match s with
     | EmptyString => false
     | String _ s' => occurs_in p s'
     end.

Definition has_linebreak (s : string) : bool :=
  existsb is_linebreak (list_ascii_of_string s).

(** A line as a playlist writer emits it: no line boundary inside, and the
    byte-range marker nowhere but at its start. *)
Definition plain_line (l : string) : bool :=
  negb (has_linebreak l)
  && match l with
     | EmptyString => true
     | String _ l' => negb (occurs_in byterange_marker l')
     end.

(** The character [c] does not occur in [p]. *)
Definition avoids (c : ascii) (p : string) : bool :=
  forallb (fun d => negb (Ascii.eqb d c)) (list_ascii_of_string p).

(** A line end in front of [rest]: a line feed or, when [crlf] is set, a
    carriage return and a line feed. *)
Definition eol (crlf : bool) (rest : string) : string :=
  if crlf then String CR (String LF rest) else String LF rest.

(** The text whose lines are [ls], each followed by its line end. *)
Definition manifest_text (crlf : bool) (ls : list string) : string :=
  fold_right (fun l acc => l +:+ eol crlf acc) EmptyString ls.

(** The trimmed lines that are neither blank nor comments. *)
Definition references_of_lines (ls : list string) : list string :=
  List.filter (fun l => negb (starts_with "#" l))
    (List.filter nonempty (map strip ls)).

(** ** Counters, pool and schedule measures *)

(** The calls of [download_segment] that are inside their retry loop. *)
Definition active_count (fs : list wstate) : nat :=
  length (List.filter (fun ws => is_active ws) fs).

(** The steps of a schedule other than calls of [stop_download]. *)
Definition thread_steps (sched : list event) : nat :=
  length (List.filter (fun e => negb (is_stop e)) sched).

(** The number of segments the manifest at [url] announces; none when it
    cannot be parsed. *)
Definition expected_total (env : Env) (url : string) : nat :=
  match manifest_urls env url with
  | Normal urls => length urls
  | Raise _ => 0
  end.

(** A call of the progress callback whose counter is within its total. *)
Definition report_in_range (p : progress) : Prop := p_current p <= p_total p.

(** What holds of the counters in every state of every interleaving;
    [w0] is the world [start_download] started in. *)
Record counters_inv (w0 : World) (s : System) : Prop := {
  ci_completed : completed (mgr s) = length (yielded s);
  ci_total : length (futures s) <= total (mgr s);
  ci_failed : length (failed_segments (mgr s)) <= completed (mgr s);
  ci_reports :
    exists new,
      progress_log (world s) = new ++ progress_log w0
      /\ Forall (fun p => report_in_range p
                          /\ p_current p <= completed (mgr s)) new
      /\ StronglySorted (fun p q => p_current q <= p_current p) new
      /\ (pc s = MStart -> new = []);
}.

(** ** Invariants of early cancellation and of the exceptions *)

(** Before the manifest was parsed nothing outside the manager has
    changed. *)
Definition unparsed_inv (w0 : World) (s : System) : Prop :=
  match pc s with
  | MStart => world s = init_world w0
  | MParse => world s = init_world w0 /\ failed_segments (mgr s) = []
  | _ => True
  end.

(** A submitted call that has not started, or that returned at once
    because of the flag. *)
Definition never_fetched (ws : wstate) : bool :=
  match ws with
  | WPending => true
  | WDone (_, Some Cancelled, false) => true
  | _ => false
  end.

(** What holds once [stop_download] was called while the manifest was
    being fetched. *)
Definition early_stop_inv (w0 : World) (s : System) : Prop :=
  stop_requested (mgr s) = true
  /\ forallb never_fetched (futures s) = true
  /\ segment_requests (http_log (world s)) = segment_requests (http_log w0)
  /\ temp_files (world s) = Some ∅
  /\ failed_segments (mgr s) = []
  /\ match pc s with
     | MStart => False
     | MParse | MSubmit _ | MCollect => yielded s = []
     | MJoin r | MDone r => r <> Normal true
     end.

(** What holds in every state when the pool is asked for no thread. *)
Definition no_pool_inv (w0 : World) (s : System) : Prop :=
  futures s = [] /\ yielded s = []
  /\ segment_requests (http_log (world s)) = segment_requests (http_log w0)
  /\ match pc s with
     | MStart | MParse => True
     | MDone r => r <> Normal true
     | _ => False
     end.

(** The exception a call of [submit] raises after [shutdown]. *)
Definition submit_after_shutdown : exn :=
  "cannot schedule new futures after shutdown".

(** The exception of a pool created without threads. *)
Definition no_worker_threads : exn := "max_workers must be greater than 0".

(** Where the exceptions of [start_download] come from. *)
Definition raise_inv (max_workers : nat) (s : System) : Prop :=
  match pc s with
  | MStart | MParse => True
  | MSubmit _ | MCollect =>
      max_workers <> 0
      /\ (executor (mgr s) = Some false
          \/ (executor (mgr s) = Some true /\ stop_requested (mgr s) = true))
  | MJoin r | MDone r =>
      forall e, r = Raise e ->
        (max_workers = 0 /\ e = no_worker_threads /\ futures s = [])
        \/ (max_workers <> 0 /\ e = submit_after_shutdown
            /\ stop_requested (mgr s) = true)
  end.

(** ** What [merge_files] hands to [ffmpeg] *)

(** What [ffmpeg] is given to read: the sorted [.ts] files of the
    directory, each with its path and its content. *)
Definition segment_inputs (dir : string) (fs : gmap string bytes)
  : list (string * bytes) :=
  map (fun n => (path_join dir n, default [] (fs !! n))) (sorted_ts_names fs).

(** The directory after [file_list.txt] was written for the files
    [names]. *)
Definition with_list_file (dir : string) (names : list string)
    (fs : gmap string bytes) : gmap string bytes :=
  <["file_list.txt" :=
      String.list_byte_of_string
        (list_file_text (map (path_join dir) names))]> fs.

(** ** Further scenarios *)

(** A playlist with carriage returns, a byte-range directive, a blank line
    and a reference with spaces around it. *)
Definition byterange_lines : list string :=
  ["#EXTM3U"; "#EXT-X-BYTERANGE:1000@0"; " seg0.ts "; "";
   "#EXTINF:10,"; "seg1.ts"].

Definition env_byterange : Env :=
  scenario_env (Normal (manifest_text true byterange_lines))
    (fun _ _ => FetchBody [[x47]] None).

(** [stop_download] is called while the first of five calls has been
    submitted; the next [submit] raises. *)
Definition schedule_stop_while_submitting : list event :=
  [EvMain; EvMain; EvMain; EvStop; EvMain; EvWorker 0; EvMain].

(** [stop_download] is called between line 93 and the manifest request. *)
Definition schedule_after_early_stop : list event :=
  repeat EvMain 7
  ++ [EvWorker 0; EvWorker 1; EvWorker 2; EvWorker 3; EvWorker 4;
      EvYield 2; EvMain].

(** An environment whose [ffmpeg] writes the concatenation of its inputs
    when [works] is set, and fails without output otherwise. *)
Definition env_ffmpeg (works : bool) : Env :=
  {| http_manifest := fun _ => Raise "offline";
     http_segment := fun _ _ _ => FetchRaise "offline";
     urljoin := fun base ref => Normal (base +:+ ref);
     ffmpeg_installed := true;
     ffmpeg_concat := fun inputs =>
       if works then FfmpegExit true (Some (concat inputs.*2))
       else FfmpegExit false None;
     output_writable := true |}.

(** ** The window: class [M3U8DownloaderGUI] (lines 179-581)

    The widgets are modelled by what the handlers set: whether a button
    is enabled, the value of the progress bar, the texts of the labels.
    Colours, fonts and geometry are left out. A text is represented by the
    format string that produced it, together with the values formatted
    into it. The threads the handlers start are kept in the state until
    the callback they schedule with [root.after] has run. *)

Module M3U8DownloaderGUI.

(** The texts the handlers write. *)
Inductive gui_text :=
| TxtPrepare                       (* "准备下载..." *)
| TxtIdle                          (* "就绪" *)
| TxtNeedUrl                       (* "错误: 请输入M3U8链接" *)
| TxtNeedPath                      (* "错误: 请选择保存路径" *)
| TxtNoSuchPath                    (* "错误: 保存路径不存在" *)
| TxtDownloading                   (* "正在下载..." *)
| TxtStarting                      (* "正在启动下载任务..." *)
| TxtStartingWith (n : nat)        (* f"启动下载任务，使用 {n} 个线程..." *)
| TxtLogStart (url : string)       (* f"开始下载: {url}" *)
| TxtLogSaveTo (path : string)     (* f"保存到: {path}" *)
| TxtLogThreads (n : nat)          (* f"使用 {n} 个线程同时下载" *)
| TxtAllDone                       (* "下载完成，所有分片已成功下载" *)
| TxtCancelled                     (* "下载已取消" *)
| TxtPartFailed (n : nat)          (* f"下载部分失败，{n}个分片下载失败" *)
| TxtFailed                        (* "下载失败" *)
| TxtCancelling                    (* "正在取消下载..." *)
| TxtNoTask                        (* "错误: 无下载任务" *)
| TxtMerging                       (* "正在合并文件..." *)
| TxtLogMergeStart                 (* "开始合并文件..." *)
| TxtMerged                        (* "文件合并成功！已保存为output.mp4" *)
| TxtMergeFailed                   (* "文件合并失败" *)
| TxtMergeThreadError (e : exn)    (* f"合并线程错误: {str(e)}" *)
| TxtThreadError (e : exn)         (* f"下载线程错误: {str(e)}" *)
| TxtProgress (current total percent : nat)
                                   (* f"下载进度: {current}/{total} ({percent}%)" *)
| TxtMessage (m : message)         (* a message of the download manager *)
| TxtError (e : error_message)     (* an error of the download manager *)
| TxtLog (t : gui_text).           (* f"日志: {message}"[:50] *)

(** The [msg_type] of [log_message]; any other value is treated as
    ["info"]. *)
Inductive log_tag := LogInfo | LogWarning | LogSuccess | LogError.

(** The state of the four buttons: [true] is [tk.NORMAL]. *)
Record Buttons := {
  download_btn : bool;
  browse_btn : bool;
  cancel_btn : bool;
  merge_btn : bool;
}.

Record Labels := {
  (** [self.progress["value"]], which [progress_label] repeats with a
      percent sign *)
  progress_value : nat;
  (** the two numbers of [completed_label] *)
  completed_label : nat * nat;
  failed_label : nat;
  status_label : gui_text;
  status_bar : gui_text;
}.

(** What the window cannot decide by itself. *)
Record GuiEnv := {
  (** [os.path.isdir] *)
  isdir : string -> bool;
  (** [int(text)]; [None] when it raises *)
  py_int : string -> option Z;
  (** whether [DownloadManager(url, path, callback)] raises (its
      [os.makedirs] can) *)
  init_raises : string -> string -> bool;
  (** [int(current / total * 100)] in floating point, for [total > 0] *)
  int_percent : nat -> nat -> nat;
}.

(** A thread started at line 429: the manager it runs [start_download]
    of, what that manager was created with, and the [max_workers] passed
    on. *)
Record DownloadThread := {
  dt_manager : nat;
  dt_url : string;
  dt_path : string;
  dt_workers : nat;
}.

Record Gui := {
  url_entry : string;
  path_entry : string;
  thread_var : string;
  buttons : Buttons;
  labels : Labels;
  (** the lines of the log, latest first *)
  log_text : list (log_tag * gui_text);
  (** [self.download_manager]: the manager objects are numbered in the
      order of their creation *)
  download_manager : option nat;
  managers_created : nat;
  (** the download threads that have not reported back *)
  download_threads : list DownloadThread;
  (** the merge threads that have not reported back *)
  merge_threads : nat;
  (** the managers [stop_download] was called on, latest first *)
  stopped : list nat;
}.

Definition set_buttons (b : Buttons) (g : Gui) : Gui :=
  {| url_entry := url_entry g; path_entry := path_entry g;
     thread_var := thread_var g; buttons := b; labels := labels g;
     log_text := log_text g; download_manager := download_manager g;
     managers_created := managers_created g;
     download_threads := download_threads g;
     merge_threads := merge_threads g; stopped := stopped g |}.

Definition set_labels (l : Labels) (g : Gui) : Gui :=
  {| url_entry := url_entry g; path_entry := path_entry g;
     thread_var := thread_var g; buttons := buttons g; labels := l;
     log_text := log_text g; download_manager := download_manager g;
     managers_created := managers_created g;
     download_threads := download_threads g;
     merge_threads := merge_threads g; stopped := stopped g |}.

Definition set_status_label (t : gui_text) (g : Gui) : Gui :=
  set_labels
    {| progress_value := progress_value (labels g);
       completed_label := completed_label (labels g);
       failed_label := failed_label (labels g);
       status_label := t; status_bar := status_bar (labels g) |} g.

Definition set_status_bar (t : gui_text) (g : Gui) : Gui :=
  set_labels
    {| progress_value := progress_value (labels g);
       completed_label := completed_label (labels g);
       failed_label := failed_label (labels g);
       status_label := status_label (labels g); status_bar := t |} g.

Definition set_progress_value (p : nat) (g : Gui) : Gui :=
  set_labels
    {| progress_value := p;
       completed_label := completed_label (labels g);
       failed_label := failed_label (labels g);
       status_label := status_label (labels g);
       status_bar := status_bar (labels g) |} g.

Definition set_completed_label (c : nat * nat) (g : Gui) : Gui :=
  set_labels
    {| progress_value := progress_value (labels g);
       completed_label := c;
       failed_label := failed_label (labels g);
       status_label := status_label (labels g);
       status_bar := status_bar (labels g) |} g.

Definition set_failed_label (n : nat) (g : Gui) : Gui :=
  set_labels
    {| progress_value := progress_value (labels g);
       completed_label := completed_label (labels g);
       failed_label := n;
       status_label := status_label (labels g);
       status_bar := status_bar (labels g) |} g.

Definition set_merge_btn (b : bool) (g : Gui) : Gui :=
  set_buttons
    {| download_btn := download_btn (buttons g);
       browse_btn := browse_btn (buttons g);
       cancel_btn := cancel_btn (buttons g); merge_btn := b |} g.

Definition set_cancel_btn (b : bool) (g : Gui) : Gui :=
  set_buttons
    {| download_btn := download_btn (buttons g);
       browse_btn := browse_btn (buttons g);
       cancel_btn := b; merge_btn := merge_btn (buttons g) |} g.

(** [__init__] and [create_widgets] (lines 180-381): no manager, the
    download and browse buttons enabled, cancel and merge disabled. *)
Definition new_window : Gui :=
  {| url_entry := EmptyString; path_entry := EmptyString;
     thread_var := "10";
     buttons := {| download_btn := true; browse_btn := true;
                   cancel_btn := false; merge_btn := false |};
     labels := {| progress_value := 0; completed_label := (0, 0);
                  failed_label := 0; status_label := TxtPrepare;
                  status_bar := TxtIdle |};
     log_text := []; download_manager := None; managers_created := 0;
     download_threads := []; merge_threads := 0; stopped := [] |}.

(** The text of [completed_label]:
    [f"{manager.completed}/{manager.total}"]. *)
Definition counters_of (m : DownloadManager) : nat * nat :=
  (completed m, total m).

(** [log_message] (lines 559-581): a line of the log, repeated in the
    status bar. *)
Definition log_message (msg : gui_text) (tag : log_tag) (g : Gui) : Gui :=
  set_status_bar (TxtLog msg)
    {| url_entry := url_entry g; path_entry := path_entry g;
       thread_var := thread_var g; buttons := buttons g; labels := labels g;
       log_text := (tag, msg) :: log_text g;
       download_manager := download_manager g;
       managers_created := managers_created g;
       download_threads := download_threads g;
       merge_threads := merge_threads g; stopped := stopped g |}.

(** Lines 406-409: [min(max(int(text), 1), 50)], and 10 when [int]
    raises. *)
Definition chosen_workers (env : GuiEnv) (text : string) : nat :=
  match py_int env text with
  | Some n => Z.to_nat (Z.min (Z.max n 1) 50)
  | None => 10
  end.

(** [choose_path] (lines 383-387); [path] is what the dialog returned. *)
Definition choose_path (path : string) (g : Gui) : Gui :=
  if nonempty path then
    {| url_entry := url_entry g; path_entry := path;
       thread_var := thread_var g; buttons := buttons g; labels := labels g;
       log_text := log_text g; download_manager := download_manager g;
       managers_created := managers_created g;
       download_threads := download_threads g;
       merge_threads := merge_threads g; stopped := stopped g |}
  else g.

(** [start_download] (lines 389-433). When the constructor of the manager
    raises, the handler is left at line 412 with nothing changed. *)
Definition start_download (env : GuiEnv) (g : Gui) : Gui :=
  let url := strip (url_entry g) in
  let path := strip (path_entry g) in
  if negb (nonempty url) then
    set_status_bar TxtNeedUrl (log_message TxtNeedUrl LogError g)
  else if negb (nonempty path) then
    set_status_bar TxtNeedPath (log_message TxtNeedPath LogError g)
  else if negb (isdir env path) then
    set_status_bar TxtNoSuchPath (log_message TxtNoSuchPath LogError g)
  else
    let max_workers := chosen_workers env (thread_var g) in
    if init_raises env url path then g
    else
      let id := managers_created g in
      let g1 :=
        {| url_entry := url_entry g; path_entry := path_entry g;
           thread_var := thread_var g;
           buttons := {| download_btn := false; browse_btn := false;
                         cancel_btn := true; merge_btn := false |};
           labels := {| progress_value := 0; completed_label := (0, 0);
                        failed_label := 0; status_label := TxtDownloading;
                        status_bar := TxtStarting |};
           log_text := log_text g;
           download_manager := Some id;
           managers_created := S id;
           download_threads :=
             download_threads g
             ++ [{| dt_manager := id; dt_url := url; dt_path := path;
                    dt_workers := max_workers |}];
           merge_threads := merge_threads g; stopped := stopped g |} in
      set_status_bar (TxtStartingWith max_workers)
        (log_message (TxtLogThreads max_workers) LogInfo
           (log_message (TxtLogSaveTo path) LogInfo
              (log_message (TxtLogStart url) LogInfo g1))).

(** Lines 452-456 and 477-481: the buttons after a download. *)
Definition buttons_after_download : Buttons :=
  {| download_btn := true; browse_btn := true;
     cancel_btn := false; merge_btn := true |}.

(** [download_success] (lines 446-456); [m] is the manager at the time
    the callback runs. *)
Definition download_success (m : DownloadManager) (g : Gui) : Gui :=
  set_buttons buttons_after_download
    (set_status_bar TxtAllDone
       (set_completed_label (counters_of m)
          (set_status_label TxtAllDone
             (log_message TxtAllDone LogSuccess g)))).

(** [download_failed] (lines 458-481). *)
Definition download_failed (m : DownloadManager) (g : Gui) : Gui :=
  let g1 :=
    if stop_requested m then
      set_status_bar TxtCancelled
        (set_status_label TxtCancelled
           (log_message TxtCancelled LogWarning g))
    else
      match failed_segments m with
      | _ :: _ =>
          let n := length (failed_segments m) in
          set_status_bar (TxtPartFailed n)
            (set_status_label (TxtPartFailed n)
               (log_message (TxtPartFailed n) LogWarning g))
      | [] =>
          set_status_bar TxtFailed
            (set_status_label TxtFailed (log_message TxtFailed LogError g))
      end in
  set_buttons buttons_after_download
    (set_failed_label (length (failed_segments m))
       (set_completed_label (counters_of m) g1)).

(** [update_progress] (lines 533-557); [m] is [self.download_manager] with
    its fields at the time of the call. An empty text counts as none. *)
Definition update_progress (env : GuiEnv) (current total : nat)
    (message error : option gui_text) (m : option DownloadManager)
    (g : Gui) : Gui :=
  let percent :=
    if 0 <? total then Nat.min 100 (int_percent env current total) else 0 in
  let g1 := set_progress_value percent g in
  let g2 :=
    match error, message with
    | Some e, _ => set_status_label e g1
    | None, Some t => set_status_label t g1
    | None, None =>
        if 0 <? total
        then set_status_label (TxtProgress current total percent) g1
        else set_status_label TxtPrepare g1
    end in
  match m with
  | Some m =>
      set_failed_label (length (failed_segments m))
        (set_completed_label (counters_of m) g2)
  | None => g2
  end.

(** The callbacks [download_thread] (lines 435-444) schedules when
    [start_download] of the manager has returned [r] or raised. *)
Definition download_thread (env : GuiEnv) (r : outcome bool)
    (m : DownloadManager) (g : Gui) : Gui :=
  match r with
  | Normal true => download_success m g
  | Normal false => download_failed m g
  | Raise e =>
      download_failed m
        (update_progress env 0 0 None (Some (TxtThreadError e)) (Some m) g)
  end.

(** [cancel_download] (lines 483-489). *)
Definition cancel_download (g : Gui) : Gui :=
  match download_manager g with
  | Some id =>
      log_message TxtCancelling LogWarning
        (set_status_bar TxtCancelling
           (set_status_label TxtCancelling
              (set_cancel_btn false
                 {| url_entry := url_entry g; path_entry := path_entry g;
                    thread_var := thread_var g; buttons := buttons g;
                    labels := labels g; log_text := log_text g;
                    download_manager := download_manager g;
                    managers_created := managers_created g;
                    download_threads := download_threads g;
                    merge_threads := merge_threads g;
                    stopped := id :: stopped g |})))
  | None => g
  end.

(** [merge_files] (lines 491-504). *)
Definition merge_files (g : Gui) : Gui :=
  match download_manager g with
  | None => set_status_bar TxtNoTask (log_message TxtNoTask LogError g)
  | Some _ =>
      let g1 :=
        log_message TxtLogMergeStart LogInfo
          (set_status_bar TxtMerging
             (set_status_label TxtMerging (set_merge_btn false g))) in
      {| url_entry := url_entry g1; path_entry := path_entry g1;
         thread_var := thread_var g1; buttons := buttons g1;
         labels := labels g1; log_text := log_text g1;
         download_manager := download_manager g1;
         managers_created := managers_created g1;
         download_threads := download_threads g1;
         merge_threads := S (merge_threads g1); stopped := stopped g1 |}
  end.

(** [merge_success] (lines 517-523). *)
Definition merge_success (g : Gui) : Gui :=
  set_merge_btn false
    (set_status_bar TxtMerged
       (set_status_label TxtMerged (log_message TxtMerged LogSuccess g))).

(** [merge_failed] (lines 525-531). *)
Definition merge_failed (g : Gui) : Gui :=
  set_merge_btn true
    (set_status_bar TxtMergeFailed
       (set_status_label TxtMergeFailed
          (log_message TxtMergeFailed LogError g))).

(** The callbacks [merge_thread] (lines 506-515) schedules. *)
Definition merge_thread (r : outcome bool) (g : Gui) : Gui :=
  match r with
  | Normal true => merge_success g
  | Normal false => merge_failed g
  | Raise e => merge_failed (log_message (TxtMergeThreadError e) LogError g)
  end.

(** What happens to the window. A click on a disabled button does
    nothing; a thread reports back once. *)
Inductive gui_event :=
| ClickDownload
| ClickBrowse (chosen : string)
| ClickCancel
| ClickMerge
| Edit (url path threads : string)
| Progress (current total : nat) (message error : option gui_text)
    (m : option DownloadManager)
| DownloadThreadEnds (r : outcome bool) (m : DownloadManager)
| MergeThreadEnds (r : outcome bool).

Definition thread_reported (g : Gui) : Gui :=
  {| url_entry := url_entry g; path_entry := path_entry g;
     thread_var := thread_var g; buttons := buttons g; labels := labels g;
     log_text := log_text g; download_manager := download_manager g;
     managers_created := managers_created g;
     download_threads := tail (download_threads g);
     merge_threads := merge_threads g; stopped := stopped g |}.

Definition merge_reported (g : Gui) : Gui :=
  {| url_entry := url_entry g; path_entry := path_entry g;
     thread_var := thread_var g; buttons := buttons g; labels := labels g;
     log_text := log_text g; download_manager := download_manager g;
     managers_created := managers_created g;
     download_threads := download_threads g;
     merge_threads := pred (merge_threads g); stopped := stopped g |}.

Definition gui_step (env : GuiEnv) (e : gui_event) (g : Gui) : option Gui :=
  match e with
  | ClickDownload =>
      if download_btn (buttons g) then Some (start_download env g) else None
  | ClickBrowse chosen =>
      if browse_btn (buttons g) then Some (choose_path chosen g) else None
  | ClickCancel =>
      if cancel_btn (buttons g) then Some (cancel_download g) else None
  | ClickMerge =>
      if merge_btn (buttons g) then Some (merge_files g) else None
  | Edit url path threads =>
      Some {| url_entry := url; path_entry := path; thread_var := threads;
              buttons := buttons g; labels := labels g;
              log_text := log_text g;
              download_manager := download_manager g;
              managers_created := managers_created g;
              download_threads := download_threads g;
              merge_threads := merge_threads g; stopped := stopped g |}
  | Progress current total message error m =>
      match download_threads g, merge_threads g with
      | [], 0 => None
      | _, _ => Some (update_progress env current total message error m g)
      end
  | DownloadThreadEnds r m =>
      match download_threads g with
      | [] => None
      | _ :: _ => Some (download_thread env r m (thread_reported g))
      end
  | MergeThreadEnds r =>
      match merge_threads g with
      | 0 => None
      | S _ => Some (merge_thread r (merge_reported g))
      end
  end.

Fixpoint gui_run (env : GuiEnv) (events : list gui_event) (g : Gui)
  : option Gui :=
  match events with
  | [] => Some g
  | e :: events' =>
      match gui_step env e g with
      | Some g' => gui_run env events' g'
      | None => None
      end
  end.

(** What holds of the buttons and the threads in every state of the
    window. *)
Record gui_inv (env : GuiEnv) (g : Gui) : Prop := {
  gi_one : length (download_threads g) <= 1;
  gi_download : download_btn (buttons g) = true <-> download_threads g = [];
  gi_browse : browse_btn (buttons g) = download_btn (buttons g);
  gi_cancel :
    cancel_btn (buttons g) = true -> download_threads g <> [];
  gi_current :
    forall t, t ∈ download_threads g ->
      download_manager g = Some (dt_manager t)
      /\ 1 <= dt_workers t <= 50
      /\ nonempty (dt_url t) = true /\ nonempty (dt_path t) = true
      /\ isdir env (dt_path t) = true;
  gi_merge : merge_btn (buttons g) = true -> download_manager g <> None;
  gi_merging : merge_threads g <> 0 -> download_manager g <> None;
  gi_stopped : forall id, id ∈ stopped g -> id < managers_created g;
  gi_created :
    forall id, download_manager g = Some id -> id < managers_created g;
  gi_progress : progress_value (labels g) <= 100;
}.

(** The error text of line 493 is nowhere in the log. *)
Definition never_no_task (g : Gui) : Prop :=
  Forall (fun l : log_tag * gui_text => l.2 <> TxtNoTask) (log_text g).

End M3U8DownloaderGUI.

(** A window whose only directory is [/downloads] and whose arithmetic is
    exact. *)
Definition window_env : M3U8DownloaderGUI.GuiEnv :=
  {| M3U8DownloaderGUI.isdir := fun p => String.eqb p "/downloads";
     M3U8DownloaderGUI.py_int := fun s =>
       if String.eqb s "10" then Some 10%Z
       else if String.eqb s "0" then Some 0%Z
       else if String.eqb s "400" then Some 400%Z
       else None;
     M3U8DownloaderGUI.init_raises := fun _ _ => false;
     M3U8DownloaderGUI.int_percent := fun current total =>
       current * 100 / total |}.

(** The user enters a URL, a path and a thread count, and starts a
    download. *)
Definition events_start (threads : string)
  : list M3U8DownloaderGUI.gui_event :=
  [M3U8DownloaderGUI.Edit (" " +:+ scenario_url) "/downloads " threads;
   M3U8DownloaderGUI.ClickDownload].

(** A download is started and ends with all its segments. *)
Definition events_download_ended : list M3U8DownloaderGUI.gui_event :=
  events_start "10"
  ++ [M3U8DownloaderGUI.DownloadThreadEnds (Normal true)
        (new_manager scenario_url "/downloads")].

(** The thread the window starts for the scenario URL when the spin box
    reads 400. *)
Definition scenario_thread : M3U8DownloaderGUI.DownloadThread :=
  {| M3U8DownloaderGUI.dt_manager := 0;
     M3U8DownloaderGUI.dt_url := scenario_url;
     M3U8DownloaderGUI.dt_path := "/downloads";
     M3U8DownloaderGUI.dt_workers := 50 |}.

(** ** The requests of a download *)

(** The number [k] of attempts the call in state [ws] has begun. *)
Definition attempts_begun (ws : option wstate) (k : nat) : Prop :=
  match ws with
  | None | Some WPending => k = 0
  | Some (WLoop r) => k = r /\ r <= default_max_retries
  | Some (WFetch r) => k = r /\ r < default_max_retries
  | Some (WDone _) => k <= default_max_retries
  end.

(** A request for a segment, at the URL [ts_urls] has for it. *)
Definition request_of_segment (urls : list string) (req : request) : Prop :=
  match req with
  | ReqSegment i u _ => urls !! i = Some u
  | ReqManifest _ => False
  end.

(** What holds of the requests in every state of every interleaving:
    none before the manifest is fetched, then the manifest request and,
    after it, for each segment the retries begun so far. *)
Definition request_inv (url : string) (w0 : World) (s : System) : Prop :=
  m3u8_url (mgr s) = url
  /\ match pc s with
     | MStart | MParse => http_log (world s) = http_log w0
     | _ =>
         exists segs,
           http_log (world s) = segs ++ ReqManifest url :: http_log w0
           /\ (forall i, exists k,
                 attempts_of i segs = seq 0 k
                 /\ attempts_begun (futures s !! i) k)
           /\ Forall (request_of_segment (ts_urls (mgr s))) segs
     end.

(** ** Playlists with other line ends *)

(** The text whose lines are [ls], each followed by the one character
    [sep]. *)
Definition lines_ended_by (sep : ascii) (ls : list string) : string :=
  fold_right (fun l acc => l +:+ String sep acc) EmptyString ls.

(** A playlist whose lines end in a carriage return only. *)
Definition env_carriage_returns : Env :=
  scenario_env
    (Normal (lines_ended_by CR
               ["#EXTM3U"; "seg0.ts"; "#EXT-X-BYTERANGE:1000@0"; "seg1.ts";
                "#EXT-X-BYTERANGE:1000@1000"; "seg2.ts"]))
    (fun _ _ => FetchBody [] None).

(** ** The specification's wording of the segment references *)










(** ** Cancellation while the calls are submitted *)

(** Two of five calls have been submitted and the first is waiting for
    its response ... *)
Definition schedule_two_submitted : list event :=
  [EvMain; EvMain; EvMain; EvMain; EvWorker 0; EvWorker 0].

(** ... when [stop_download] is called: the next [submit] raises, the
    two submitted calls end, and the [with] block is left. *)
Definition schedule_after_stop_two_submitted : list event :=
  [EvMain; EvWorker 0; EvWorker 1; EvMain].

(* ===================================================================== *)
(** * Part II: properties                                                 *)
(* ===================================================================== *)

(** ** [download_segment] *)

Section DownloadSegment.
Context (env : Env).

Lemma fetch_attempt_log idx url retry w :
  http_log (snd (fetch_attempt env idx url retry w))
  = ReqSegment idx url retry :: http_log w.
Proof.
  unfold fetch_attempt.
  destruct (http_segment env idx url retry) as [e|chunks broken]; simpl; [done|].
  destruct (temp_files w); simpl; [|done].
  destruct broken; done.
Qed.

Lemma fetch_attempt_fails idx url retry w :
  fetch_ok (http_segment env idx url retry) = false ->
  exists e, fst (fetch_attempt env idx url retry w) = Raise e.
Proof.
  unfold fetch_attempt, fetch_ok.
  destruct (http_segment env idx url retry) as [e|chunks [e|]]; simpl; intros H.
  - by exists e.
  - destruct (temp_files _); simpl; eauto.
  - discriminate.
Qed.

(** The loop never raises, and what it returns is a well-formed triple. *)
Lemma for_retries_shape flag idx url m range w :
  exists r w',
    for_retries env flag idx url m range w = (Normal r, w')
    /\ forall t, r = Some t ->
         exists err success, t = (idx, err, success)
                             /\ (success = true -> err = None).
Proof.
  revert w. induction range as [|retry range IH]; intros w; simpl.
  - exists None, w. split; [done|]. intros t Ht; discriminate.
  - unfold loop_body. destruct (flag (S retry)).
    + eexists _, _. split; [reflexivity|].
      intros t [= <-]. exists (Some Cancelled), false. split; [done|]. discriminate.
    + destruct (fetch_attempt env idx url retry w) as [[[]|e] w1].
      * eexists _, _. split; [reflexivity|].
        intros t [= <-]. by exists None, true.
      * unfold on_exception. destruct (retry <? m - 1).
        -- apply IH.
        -- eexists _, _. split; [reflexivity|].
           intros t [= <-]. exists (Some (DownloadFailed e)), false.
           split; [done|]. discriminate.
Qed.

(** With the flag never set and every attempt failing, the loop over
    [a, a+1, ..., a+n-1] issues exactly these requests. *)
Lemma for_retries_all_fail idx url m n a w :
  a + n = m ->
  (forall retry, fetch_ok (http_segment env idx url retry) = false) ->
  exists r w',
    for_retries env (fun _ => false) idx url m (seq a n) w = (Normal r, w')
    /\ http_log w' = map (ReqSegment idx url) (rev (seq a n)) ++ http_log w
    /\ (n = 0 -> r = None)
    /\ (0 < n -> exists e, r = Some (idx, Some (DownloadFailed e), false)).
Proof.
  intros Hm Hfail. revert a w Hm.
  induction n as [|n IH]; intros a w Hm; simpl.
  - exists None, w. repeat split; try done; lia.
  - unfold loop_body.
    destruct (fetch_attempt_fails idx url a w (Hfail a)) as [e He].
    pose proof (fetch_attempt_log idx url a w) as Hlog.
    destruct (fetch_attempt env idx url a w) as [o w1]. simpl in He, Hlog.
    subst o. unfold on_exception.
    destruct (a <? m - 1) eqn:Hlt.
    + apply Nat.ltb_lt in Hlt.
      destruct (IH (S a) w1 ltac:(lia)) as (r & w' & Hrun & Hl & _ & Hr).
      exists r, w'. split; [done|]. split.
      { rewrite Hl, Hlog, map_app. simpl. by rewrite <- app_assoc. }
      split; [lia|]. intros _. apply Hr. lia.
    + apply Nat.ltb_ge in Hlt. assert (n = 0) as -> by lia.
      eexists _, _. split; [reflexivity|]. simpl.
      split; [by rewrite Hlog|]. split; [lia|]. eauto.
Qed.

(** C10. [download_segment] always returns a triple [(idx, error,
    success)] whose first component is the index it was called with; no
    exception of a fetch attempt escapes it; and [success] implies that
    the error component is [None]. This holds for every environment, every
    reading of the cancellation flag, every index, URL and retry bound. *)
Theorem download_segment_total (flag : nat -> bool) (idx : nat)
    (url : string) (max_retries : nat) (w : World) :
  exists err success w',
    download_segment env flag idx url max_retries w
    = (Normal (idx, err, success), w')
    /\ (success = true -> err = None).
Proof.
  unfold download_segment. destruct (flag 0).
  - exists (Some Cancelled), false, w. split; [done|]. discriminate.
  - destruct (for_retries_shape flag idx url max_retries
                (seq 0 max_retries) w) as (r & w' & -> & Hr).
    destruct r as [t|].
    + destruct (Hr t eq_refl) as (err & success & -> & Hs).
      by exists err, success, w'.
    + exists (Some UnknownError), false, w'. split; [done|]. discriminate.
Qed.

(** C2. When every attempt to fetch the segment fails and the
    cancellation flag is never set, [download_segment] issues exactly
    [max_retries] requests for it (attempts 0, 1, ..., max_retries - 1, in
    this order) and returns a failed, not cancelled, result. *)
Theorem download_segment_retry_cap (idx : nat) (url : string)
    (max_retries : nat) (w : World)
    (Hfail : forall retry, fetch_ok (http_segment env idx url retry) = false) :
  exists err w',
    download_segment env (fun _ => false) idx url max_retries w
    = (Normal (idx, Some err, false), w')
    /\ err <> Cancelled
    /\ http_log w'
       = map (ReqSegment idx url) (rev (seq 0 max_retries)) ++ http_log w
    /\ length (http_log w') = length (http_log w) + max_retries.
Proof.
  unfold download_segment.
  destruct (for_retries_all_fail idx url max_retries max_retries 0 w
              eq_refl Hfail) as (r & w' & -> & Hlog & H0 & Hpos).
  assert (length (http_log w') = length (http_log w) + max_retries) as Hlen.
  { rewrite Hlog, length_app, length_map, length_rev, length_seq. lia. }
  destruct max_retries as [|m].
  - rewrite (H0 eq_refl). exists UnknownError, w'. done.
  - destruct (Hpos ltac:(lia)) as [e ->]. exists (DownloadFailed e), w'. done.
Qed.

End DownloadSegment.

(** ** [parse_m3u8] *)

Section Parse.
Context (env : Env).

Lemma manifest_urls_nonempty url us :
  manifest_urls env url = Normal us -> us <> [].
Proof.
  unfold manifest_urls.
  destruct (http_manifest env url) as [c|]; [|done].
  destruct (nonempty c); [|done].
  destruct (map_outcome _ _) as [[|u us']|]; try done.
  intros [= <-]. done.
Qed.

Lemma parse_m3u8_ok m w us :
  manifest_urls env (m3u8_url m) = Normal us ->
  parse_m3u8 env m w
  = (true, set_total (length us) (set_ts_urls us m),
     log_request (ReqManifest (m3u8_url m)) w).
Proof.
  unfold manifest_urls, parse_m3u8, parse_m3u8_try.
  destruct (http_manifest env (m3u8_url m)) as [c|]; [|done].
  destruct (nonempty c); [|done].
  destruct (map_outcome _ _) as [[|u us']|]; try done.
  intros [= <-]. done.
Qed.

Lemma parse_m3u8_fail m w e :
  manifest_urls env (m3u8_url m) = Raise e ->
  exists m',
    parse_m3u8 env m w
    = (false, m',
       progress_callback 0 0 None (Some (ErrParse e))
         (log_request (ReqManifest (m3u8_url m)) w))
    /\ (m' = m \/ m' = set_ts_urls [] m).
Proof.
  unfold manifest_urls, parse_m3u8, parse_m3u8_try.
  destruct (http_manifest env (m3u8_url m)) as [c|e'].
  - destruct (nonempty c).
    + destruct (map_outcome _ _) as [[|u us']|e']; try done.
      * intros [= <-]. eauto.
      * intros [= <-]. eauto.
    + intros [= <-]. eauto.
  - intros [= <-]. eauto.
Qed.

End Parse.

(** ** File names of the segments *)

Section Names.

Lemma digits_aux_spec fuel n acc :
  n < fuel ->
  undigits (digits_aux fuel n acc) = n * 10 ^ length acc + undigits acc.
Proof.
  revert n acc. induction fuel as [|fuel IH]; intros n acc Hn; [lia|].
  cbn [digits_aux]. destruct (n <? 10) eqn:Hlt.
  - done.
  - apply Nat.ltb_ge in Hlt.
    rewrite IH by (pose proof (Nat.div_lt n 10); lia).
    cbn [undigits length]. rewrite Nat.pow_succ_r'.
    pose proof (Nat.div_mod_eq n 10). nia.
Qed.

Lemma digits_aux_small fuel n acc :
  Forall (fun d => d < 10) acc ->
  Forall (fun d => d < 10) (digits_aux fuel n acc).
Proof.
  revert n acc. induction fuel as [|fuel IH]; intros n acc Hacc; [done|].
  cbn [digits_aux]. destruct (n <? 10) eqn:Hlt.
  - apply Nat.ltb_lt in Hlt. by constructor.
  - apply IH. constructor; [|done].
    pose proof (Nat.mod_upper_bound n 10). lia.
Qed.

Lemma digits_aux_length fuel n acc k :
  0 < k -> n < 10 ^ k ->
  length (digits_aux fuel n acc) <= k + length acc.
Proof.
  revert n acc k.
  induction fuel as [|fuel IH]; intros n acc k Hk Hn; cbn [digits_aux].
  - lia.
  - destruct (n <? 10) eqn:Hlt; [cbn [length]; lia|].
    apply Nat.ltb_ge in Hlt.
    destruct k as [|[|k]]; [lia|simpl in Hn; lia|].
    etrans; [apply (IH _ _ (S k)); [lia|]|cbn [length]; lia].
    rewrite Nat.pow_succ_r' in Hn.
    apply Nat.Div0.div_lt_upper_bound. lia.
Qed.

Lemma undigits_digits n : undigits (digits n) = n.
Proof. unfold digits. rewrite digits_aux_spec by lia. simpl. lia. Qed.

Lemma undigits_zero_pad w ds : undigits (zero_pad w ds) = undigits ds.
Proof.
  unfold zero_pad. induction (w - length ds) as [|k IH]; [done|].
  simpl. by rewrite IH.
Qed.

Lemma zero_pad_small w ds :
  Forall (fun d => d < 10) ds -> Forall (fun d => d < 10) (zero_pad w ds).
Proof.
  intros H. unfold zero_pad. apply Forall_app. split; [|done].
  apply Forall_forall. intros x Hx%list_elem_of_In%repeat_spec. lia.
Qed.

Lemma format_digits_small idx :
  Forall (fun d => d < 10) (zero_pad 5 (digits idx)).
Proof. apply zero_pad_small, digits_aux_small. constructor. Qed.

Lemma format_digits_length idx :
  idx < 10 ^ 5 -> length (zero_pad 5 (digits idx)) = 5.
Proof.
  intros H. unfold zero_pad. rewrite length_app, repeat_length.
  pose proof (digits_aux_length (S idx) idx [] 5 ltac:(lia) H).
  unfold digits. cbn [length] in *. lia.
Qed.

Lemma undigits_bound ds :
  Forall (fun d => d < 10) ds -> undigits ds < 10 ^ length ds.
Proof.
  induction 1 as [|d ds Hd _ IH]; simpl; [lia|]. nia.
Qed.

Lemma digit_char_compare a b :
  a < 10 -> b < 10 ->
  Ascii.compare (digit_char a) (digit_char b) = Nat.compare a b.
Proof.
  intros Ha Hb.
  do 10 (destruct a as [|a]; [do 10 (destruct b as [|b]; [done|]); lia|]).
  lia.
Qed.

Lemma string_app_cons c s t : String c s +:+ t = String c (s +:+ t).
Proof. reflexivity. Qed.

Lemma string_app_nil t : EmptyString +:+ t = t.
Proof. reflexivity. Qed.

Lemma ascii_compare_refl c : Ascii.compare c c = Eq.
Proof. unfold Ascii.compare. apply N.compare_refl. Qed.

Lemma string_compare_refl s : String.compare s s = Eq.
Proof. induction s as [|c s IH]; simpl; [done|]. by rewrite ascii_compare_refl. Qed.

(** Prefixing both strings with the same text does not change their
    order: sorting the paths of a directory sorts the file names. *)
Lemma string_compare_prefix p a b :
  String.compare (p +:+ a) (p +:+ b) = String.compare a b.
Proof.
  induction p as [|c p IH]; [done|].
  rewrite !string_app_cons. simpl. by rewrite ascii_compare_refl.
Qed.

(** Digit strings of the same length are ordered as the numbers are. *)
Lemma digit_strings_compare ds1 ds2 t :
  length ds1 = length ds2 ->
  Forall (fun d => d < 10) ds1 -> Forall (fun d => d < 10) ds2 ->
  String.compare (string_of_digits ds1 +:+ t) (string_of_digits ds2 +:+ t)
  = Nat.compare (undigits ds1) (undigits ds2).
Proof.
  revert ds2. induction ds1 as [|d1 ds1 IH]; intros [|d2 ds2] Hlen H1 H2;
    try discriminate.
  - apply string_compare_refl.
  - inversion H1 as [|? ? Hd1 H1']; inversion H2 as [|? ? Hd2 H2']; subst.
    injection Hlen as Hlen.
    cbn [string_of_digits undigits]. rewrite !string_app_cons.
    cbn [String.compare].
    rewrite digit_char_compare by done. rewrite <- Hlen.
    pose proof (undigits_bound _ H1'). pose proof (undigits_bound _ H2').
    rewrite <- Hlen in *.
    destruct (Nat.compare_spec d1 d2) as [->|Hlt|Hgt].
    + rewrite IH by done.
      destruct (Nat.compare_spec (undigits ds1) (undigits ds2));
        symmetry; [apply Nat.compare_eq_iff|apply Nat.compare_lt_iff
                  |apply Nat.compare_gt_iff]; lia.
    + symmetry. apply Nat.compare_lt_iff. nia.
    + symmetry. apply Nat.compare_gt_iff. nia.
Qed.

(** Below 100000 the names are ordered as the indices are. *)
Lemma segment_name_compare i j :
  i < 10 ^ 5 -> j < 10 ^ 5 ->
  String.compare (segment_name i) (segment_name j) = Nat.compare i j.
Proof.
  intros Hi Hj. unfold segment_name, format_05d.
  rewrite string_compare_prefix, digit_strings_compare.
  - by rewrite !undigits_zero_pad, !undigits_digits.
  - by rewrite !format_digits_length.
  - apply format_digits_small.
  - apply format_digits_small.
Qed.

Lemma string_of_digits_inj ds1 ds2 :
  Forall (fun d => d < 10) ds1 -> Forall (fun d => d < 10) ds2 ->
  string_of_digits ds1 = string_of_digits ds2 -> ds1 = ds2.
Proof.
  revert ds2. induction ds1 as [|d1 ds1 IH]; intros [|d2 ds2] H1 H2 Heq;
    try discriminate; [done|].
  inversion H1; inversion H2; subst. simpl in Heq.
  injection Heq as Hc Hs. f_equal; [|by apply IH].
  pose proof (digit_char_compare d1 d2 ltac:(done) ltac:(done)) as Hcmp.
  rewrite Hc, ascii_compare_refl in Hcmp.
  symmetry in Hcmp. by apply Nat.compare_eq_iff in Hcmp.
Qed.

Lemma list_ascii_of_string_app a b :
  list_ascii_of_string (a +:+ b)
  = list_ascii_of_string a ++ list_ascii_of_string b.
Proof.
  induction a as [|c a IH]; [done|].
  rewrite string_app_cons. simpl. by rewrite IH.
Qed.

Lemma string_app_inv_tail a b t : a +:+ t = b +:+ t -> a = b.
Proof.
  intros H. apply (f_equal list_ascii_of_string) in H.
  rewrite !list_ascii_of_string_app in H. apply app_inv_tail in H.
  apply (f_equal string_of_list_ascii) in H.
  by rewrite !string_of_list_ascii_of_string in H.
Qed.

(** Distinct indices have distinct file names, whatever their size. *)
Lemma segment_name_inj i j : segment_name i = segment_name j -> i = j.
Proof.
  unfold segment_name, format_05d. intros H.
  apply (inj (String.append _)) in H. apply string_app_inv_tail in H.
  apply string_of_digits_inj in H; try apply format_digits_small.
  apply (f_equal undigits) in H.
  by rewrite !undigits_zero_pad, !undigits_digits in H.
Qed.

Lemma ends_with_app suffix p : ends_with suffix (p +:+ suffix) = true.
Proof.
  induction p as [|c p IH].
  - rewrite string_app_nil.
    destruct suffix; cbn [ends_with]; by rewrite String.eqb_refl.
  - rewrite string_app_cons. cbn [ends_with]. rewrite IH. apply orb_true_r.
Qed.

Lemma string_app_assoc a b c : (a +:+ b) +:+ c = a +:+ b +:+ c.
Proof.
  induction a as [|x a IH]; [done|]. by rewrite !string_app_cons, IH.
Qed.

Lemma segment_name_ts idx : ends_with ".ts" (segment_name idx) = true.
Proof.
  unfold segment_name. rewrite <- string_app_assoc. apply ends_with_app.
Qed.

Lemma segment_name_not_list_file idx : segment_name idx <> "file_list.txt".
Proof. unfold segment_name. discriminate. Qed.

End Names.

(** ** [merge_files] *)

Section Merge.
Context (env : Env).

Lemma strip_prefix_app p s : strip_prefix p (p +:+ s) = Some s.
Proof.
  induction p as [|c p IH]; [done|].
  rewrite string_app_cons. simpl. by rewrite Ascii.eqb_refl.
Qed.

Lemma read_path_join dir fs name :
  read_path dir fs (path_join dir name) = fs !! name.
Proof.
  unfold read_path, path_join.
  by rewrite <- string_app_assoc, strip_prefix_app.
Qed.

Lemma string_le_prefix p a b : String.le (p +:+ a) (p +:+ b) <-> String.le a b.
Proof. unfold String.le, String.leb. by rewrite string_compare_prefix. Qed.

Lemma path_join_le dir a b :
  String.le a b -> String.le (path_join dir a) (path_join dir b).
Proof.
  unfold path_join. intros H. apply string_le_prefix.
  by apply (string_le_prefix "/").
Qed.

(** Sorting the paths of the directory sorts its file names. *)
Lemma ts_file_paths_names dir fs :
  ts_file_paths dir fs = map (path_join dir) (sorted_ts_names fs).
Proof.
  unfold ts_file_paths, sorted_ts_names.
  apply (Sorted_unique String.le).
  - apply Sorted_merge_sort, _.
  - apply (Sorted_fmap _ String.le String.le); [apply path_join_le|].
    apply Sorted_merge_sort, _.
  - rewrite merge_sort_Permutation.
    apply (fmap_Permutation (path_join dir)). by rewrite merge_sort_Permutation.
Qed.

Lemma copy_files_names dir fs names out :
  (forall n, n ∈ names -> is_Some (fs !! n)) ->
  copy_files dir fs (map (path_join dir) names) out
  = (Normal (), out ++ concat_files fs names).
Proof.
  revert out. induction names as [|n names IH]; intros out Hin; simpl.
  - unfold concat_files. simpl. by rewrite app_nil_r.
  - rewrite read_path_join.
    destruct (Hin n ltac:(left)) as [data Hdata]. rewrite Hdata.
    rewrite IH by (intros; apply Hin; by right).
    unfold concat_files. simpl. rewrite Hdata. simpl. by rewrite app_assoc.
Qed.

Lemma list_filter_elem_of {A} (f : A -> bool) (l : list A) x :
  x ∈ List.filter f l <-> f x = true /\ x ∈ l.
Proof. rewrite !list_elem_of_In, filter_In. tauto. Qed.

Lemma list_filter_NoDup {A} (f : A -> bool) (l : list A) :
  NoDup l -> NoDup (List.filter f l).
Proof.
  induction 1 as [|x l Hx Hl IH]; simpl; [constructor|].
  destruct (f x); [|done]. constructor; [|done].
  rewrite list_filter_elem_of. tauto.
Qed.

Lemma elem_of_listdir (fs : gmap string bytes) name :
  name ∈ listdir fs <-> is_Some (fs !! name).
Proof.
  unfold listdir. rewrite list_elem_of_fmap. split.
  - intros ([n b] & -> & H%elem_of_map_to_list). by exists b.
  - intros [b Hb]. exists (name, b). split; [done|].
    by apply elem_of_map_to_list.
Qed.

Lemma elem_of_sorted_ts_names fs name :
  name ∈ sorted_ts_names fs
  <-> ends_with ".ts" name = true /\ is_Some (fs !! name).
Proof.
  unfold sorted_ts_names.
  by rewrite merge_sort_Permutation, list_filter_elem_of, elem_of_listdir.
Qed.

Lemma NoDup_sorted_ts_names fs : NoDup (sorted_ts_names fs).
Proof.
  unfold sorted_ts_names. rewrite merge_sort_Permutation.
  apply list_filter_NoDup, NoDup_fst_map_to_list.
Qed.

Lemma ts_not_list_file name :
  ends_with ".ts" name = true -> name <> "file_list.txt".
Proof. intros H ->. discriminate. Qed.

(** The fallback path: the output is the concatenation of the [.ts] files
    in the order of their sorted names, and the directory is removed. *)
Lemma merge_files_fallback m w fs :
  temp_files w = Some fs ->
  ffmpeg_installed env = false ->
  output_writable env = true ->
  sorted_ts_names fs <> [] ->
  exists w',
    merge_files env m w = (true, w')
    /\ output_file w' = Some (concat_files fs (sorted_ts_names fs))
    /\ temp_files w' = None
    /\ http_log w' = http_log w.
Proof.
  intros Hfs Hff Hout Hne. unfold merge_files, merge_files_try.
  rewrite Hfs, ts_file_paths_names, Hff, Hout.
  destruct (sorted_ts_names fs) as [|n names] eqn:Hnames; [done|].
  cbn [map]. rewrite <- (fmap_cons (path_join (temp_dir m))).
  rewrite copy_files_names.
  - eexists. split; [reflexivity|]. simpl. repeat split.
    f_equal. unfold concat_files. f_equal. apply map_ext_in.
    intros a Ha%list_elem_of_In. rewrite <- Hnames in Ha.
    apply elem_of_sorted_ts_names in Ha as [Hts _].
    by rewrite lookup_insert_ne by (symmetry; by apply ts_not_list_file).
  - intros a Ha. rewrite <- Hnames in Ha.
    apply elem_of_sorted_ts_names in Ha as [Hts Hsome].
    by rewrite lookup_insert_ne by (symmetry; by apply ts_not_list_file).
Qed.

(** A successful merge removes the temporary directory. *)
Lemma merge_files_true_removes m w w' :
  merge_files env m w = (true, w') -> temp_files w' = None.
Proof.
  unfold merge_files, merge_files_try.
  destruct (temp_files w) as [fs|]; [|done].
  destruct (ts_file_paths _ _); [done|].
  destruct (ffmpeg_installed env).
  - destruct (ffmpeg_concat _ _) as [[] [out|]]; intros [= <-]; done.
  - destruct (output_writable env); [|done].
    destruct (copy_files _ _ _ _) as [[] out]; intros [= <-]; done.
Qed.

(** Without the temporary directory [merge_files] fails at once. *)
Lemma merge_files_no_directory m w :
  temp_files w = None ->
  merge_files env m w
  = (false, progress_callback 0 0 None (Some (ErrMerge "FileNotFoundError")) w).
Proof. intros H. unfold merge_files, merge_files_try. by rewrite H. Qed.

End Merge.

(** ** Interleavings without [stop_download] *)

Section NoStop.
Context (env : Env) (max_workers : nat) (url : string).

Lemma first_success_snoc idx u k n :
  first_success env idx u k (S n)
  = match first_success env idx u k n with
    | Some j => Some j
    | None =>
        if fetch_ok (http_segment env idx u (k + n)) then Some (k + n)
        else None
    end.
Proof.
  revert k. induction n as [|n IH]; intros k.
  - simpl. by rewrite Nat.add_0_r.
  - cbn [first_success] in *.
    destruct (fetch_ok (http_segment env idx u k)); [done|].
    rewrite IH. by replace (S k + n) with (k + S n) by lia.
Qed.

Lemma first_success_mono idx u k n n' j :
  first_success env idx u k n = Some j -> n <= n' ->
  first_success env idx u k n' = Some j.
Proof.
  intros H Hle. induction Hle as [|n' Hle IH]; [done|].
  by rewrite first_success_snoc, IH.
Qed.


Lemma first_success_none idx u k n j :
  first_success env idx u k n = None -> k <= j < k + n ->
  fetch_ok (http_segment env idx u j) = false.
Proof.
  revert k. induction n as [|n IH]; intros k; simpl; [lia|].
  destruct (fetch_ok (http_segment env idx u k)) eqn:Hok; [done|].
  intros H Hj. destruct (decide (j = k)) as [->|]; [done|].
  apply (IH (S k)); [done|lia].
Qed.

(** One step of an uncancelled pool thread keeps it on track and touches
    no file but its own. *)
Lemma worker_next_on_track i u ws w fs ws' w' :
  temp_files w = Some fs ->
  on_track env i u ws (fs !! segment_name i) ->
  worker_next env default_max_retries false i u ws w = Some (ws', w') ->
  exists fs',
    temp_files w' = Some fs'
    /\ on_track env i u ws' (fs' !! segment_name i)
    /\ (forall name, name <> segment_name i -> fs' !! name = fs !! name)
    /\ (forall name, is_Some (fs' !! name) ->
          is_Some (fs !! name) \/ name = segment_name i)
    /\ progress_log w' = progress_log w
    /\ output_file w' = output_file w.
Proof.
  intros Hfs Htrack Hnext. destruct ws as [|r|r|res]; simpl in Hnext.
  - injection Hnext as <- <-. exists fs. simpl in *.
    unfold default_max_retries. repeat split; eauto with lia.
  - destruct Htrack as (Hr & Hnone & Hfile).
    apply Nat.ltb_lt in Hr as Hr'. rewrite Hr' in Hnext.
    injection Hnext as <- <-. exists fs. simpl. eauto 10.
  - destruct Htrack as (Hr & Hnone & Hfile).
    unfold fetch_attempt in Hnext. simpl in Hnext. rewrite Hfs in Hnext.
    assert (first_success env i u 0 (S r)
            = if fetch_ok (http_segment env i u r) then Some r else None)
      as Hsnoc by (by rewrite first_success_snoc, Hnone).
    assert (forall e, on_exception i default_max_retries r e = None ->
                      S r < default_max_retries) as Hcont.
    { unfold on_exception, default_max_retries. intros e.
      destruct (r <? 3 - 1) eqn:Hlt; [|done].
      apply Nat.ltb_lt in Hlt. lia. }
    assert (forall e res, on_exception i default_max_retries r e = Some res ->
                          r = 2 /\ res = (i, Some (DownloadFailed e), false))
      as Hlast.
    { unfold on_exception, default_max_retries in *. intros e res.
      destruct (r <? 3 - 1) eqn:Hlt; [done|].
      apply Nat.ltb_ge in Hlt. intros [= <-]. split; [lia|done]. }
    destruct (http_segment env i u r) as [e|chunks [e|]] eqn:Hseg;
      simpl in Hnext; cbn [fetch_ok] in Hsnoc.
    + (* the request raised: the file is untouched *)
      exists fs.
      assert (file_after env i u (S r) = fs !! segment_name i) as Hfile'.
      { simpl. by rewrite Hseg. }
      destruct (on_exception i default_max_retries r e) as [res|] eqn:Hex;
        injection Hnext as <- <-; simpl.
      * destruct (Hlast _ _ Hex) as [-> ->].
        split; [done|]. split; [|eauto].
        unfold final_result, final_file, attempts_made.
        change default_max_retries with 3. rewrite Hsnoc, Hseg. done.
      * split; [done|]. split; [|eauto]. split; [by eapply Hcont|]. done.
    + (* the stream broke: a partial file is left *)
      exists (<[segment_name i := nonempty_chunks chunks]> fs).
      assert (file_after env i u (S r)
              = <[segment_name i := nonempty_chunks chunks]> fs
                  !! segment_name i) as Hfile'.
      { simpl. by rewrite Hseg, lookup_insert_eq. }
      assert (forall name, name <> segment_name i ->
                <[segment_name i := nonempty_chunks chunks]> fs !! name
                = fs !! name) as Hother.
      { intros name Hne. by rewrite lookup_insert_ne. }
      assert (forall name,
                is_Some (<[segment_name i := nonempty_chunks chunks]> fs !! name) ->
                is_Some (fs !! name) \/ name = segment_name i) as Hdom.
      { intros name. destruct (decide (name = segment_name i)); [eauto|].
        rewrite lookup_insert_ne by done. eauto. }
      destruct (on_exception i default_max_retries r e) as [res|] eqn:Hex;
        injection Hnext as <- <-; simpl.
      * destruct (Hlast _ _ Hex) as [-> ->].
        split; [done|]. split; [|eauto].
        unfold final_result, final_file, attempts_made.
        change default_max_retries with 3. rewrite Hsnoc, Hseg. done.
      * split; [done|]. split; [|eauto]. split; [by eapply Hcont|]. done.
    + (* success *)
      injection Hnext as <- <-. simpl.
      exists (<[segment_name i := nonempty_chunks chunks]> fs).
      split; [done|]. split.
      { assert (first_success env i u 0 default_max_retries = Some r) as Hfirst.
        { apply (first_success_mono _ _ _ (S r)); [done|lia]. }
        unfold final_result, final_file, attempts_made. rewrite Hfirst.
        split; [done|]. simpl. by rewrite Hseg, lookup_insert_eq. }
      split; [intros name Hne; by rewrite lookup_insert_ne|].
      split; [|done].
      intros name. destruct (decide (name = segment_name i)); [eauto|].
      rewrite lookup_insert_ne by done. eauto.
  - done.
Qed.

Lemma failures_of_insert fs i ws order :
  i ∉ order -> failures_of (<[i := ws]> fs) order = failures_of fs order.
Proof.
  unfold failures_of. induction order as [|j order IH]; intros Hi; [done|].
  apply not_elem_of_cons in Hi as [Hne Hi]. csimpl.
  rewrite list_lookup_insert_ne by done. by rewrite IH.
Qed.

Lemma failures_of_app_l fs extra order :
  (forall i, i ∈ order -> i < length fs) ->
  failures_of (fs ++ extra) order = failures_of fs order.
Proof.
  unfold failures_of. induction order as [|j order IH]; intros Hi; [done|].
  csimpl. rewrite lookup_app_l by (apply Hi; left).
  rewrite IH; [done|]. intros i Hin. apply Hi. by right.
Qed.

Lemma failures_of_snoc fs order i :
  failures_of fs (order ++ [i])
  = failures_of fs order
    ++ match fs !! i with
       | Some (WDone (idx, error, false)) => [(idx, error)]
       | _ => []
       end.
Proof.
  unfold failures_of. rewrite omap_app. f_equal. simpl.
  destruct (fs !! i) as [[| | |[[idx error] []]]|]; done.
Qed.

Lemma nostop_init path w : nostop_inv env max_workers url (init_system url path w).
Proof.
  constructor; simpl; try done.
  - exists ∅. split; [done|]. split.
    + intros i ws H. by rewrite lookup_nil in H.
    + intros name [b Hb]. by rewrite lookup_empty in Hb.
  - split; [constructor|]. intros i Hi. by apply not_elem_of_nil in Hi.
Qed.

Lemma nostop_main s s' :
  nostop_inv env max_workers url s ->
  main_step env max_workers s = Some s' ->
  nostop_inv env max_workers url s'.
Proof.
  intros [Hurl Hflag Hexec (fs & Hfs & Htrack & Hnames) (Hnd & Hyd) Hfailed Hpc].
  unfold main_step. destruct (pc s) as [| |k| |r|r] eqn:Hpcs.
  - (* MStart *)
    intros [= <-]. destruct Hpc as [Hfut Hyl].
    constructor; simpl; try done.
    + exists fs. eauto.
    + by rewrite Hyl.
  - (* MParse *)
    destruct Hpc as (Hfut & Hyl & Hcompl).
    destruct (manifest_urls env url) as [us|e] eqn:Hman.
    + rewrite <- Hurl in Hman. rewrite (parse_m3u8_ok env _ (world s) _ Hman).
      destruct (max_workers =? 0) eqn:Hmw; intros [= <-].
      * apply Nat.eqb_eq in Hmw.
        constructor; simpl; try done.
        -- exists fs. split; [done|]. split; [|done].
           intros i ws H. by rewrite Hfut, lookup_nil in H.
        -- right. left. eauto.
      * apply Nat.eqb_neq in Hmw.
        constructor; simpl; try done.
        -- exists fs. split; [done|]. split; [|done].
           intros i ws H. by rewrite Hfut, lookup_nil in H.
        -- rewrite Hfut, <- Hurl. done.
    + rewrite <- Hurl in Hman.
      destruct (parse_m3u8_fail env _ (world s) _ Hman) as (m' & -> & Hm').
      intros [= <-].
      constructor; simpl; destruct Hm' as [-> | ->]; simpl; try done;
        try (exists fs; split; [done|]; split; [|done];
             intros i ws H; by rewrite Hfut, lookup_nil in H);
        left; exists e; by rewrite <- Hurl.
  - (* MSubmit *)
    destruct Hpc as (Hman & Htotal & Hk & Hyl & Hcompl & Hex & Hmw).
    destruct (ts_urls (mgr s) !! k) as [u|] eqn:Hu.
    + rewrite Hex. intros [= <-].
      constructor; simpl; try done.
      * exists fs. split; [done|]. split.
        -- intros i ws Hi. apply lookup_app_Some in Hi as [Hi|[Hlen Hi]].
           ++ by apply Htrack.
           ++ apply list_lookup_singleton_Some in Hi as [Hi <-].
              assert (i = k) as -> by lia. exists u. split; [done|]. simpl.
              destruct (fs !! segment_name k) eqn:Hfile; [|done].
              destruct (Hnames (segment_name k) ltac:(eauto)) as (j & Hj & Heq).
              apply segment_name_inj in Heq. lia.
        -- intros name Hname. destruct (Hnames name Hname) as (j & Hj & ->).
           exists j. rewrite length_app. split; [lia|done].
      * split; [done|]. intros i Hi. rewrite Hyl in Hi.
        by apply not_elem_of_nil in Hi.
      * by rewrite Hfailed, Hyl.
      * rewrite length_app. simpl. repeat split; try done. lia.
    + intros [= <-].
      constructor; simpl; try done.
      * exists fs. eauto.
      * apply lookup_ge_None in Hu. rewrite Hyl. simpl.
        repeat split; try done.
        destruct (futures s) as [|f0 fl] eqn:Hf using rev_ind.
        { simpl in *. lia. }
        clear IHfl. rewrite length_app in *. simpl in *.
        destruct (Htrack (length fl) f0) as (u & Hu' & _).
        { rewrite lookup_app_r by lia. by rewrite Nat.sub_diag. }
        apply lookup_lt_Some in Hu'. lia.
  - (* MCollect *)
    destruct Hpc as (Hman & Htotal & Hlen & Hcompl & Hmw).
    destruct (length (yielded s) =? length (futures s)) eqn:Hall; [|done].
    apply Nat.eqb_eq in Hall. intros [= <-].
    unfold final_check.
    destruct (failed_segments (mgr s)) as [|f l] eqn:Hf.
    + constructor; simpl; rewrite ?Hf; try done.
      * exists fs. eauto.
      * right. right. simpl. rewrite ?Hf. repeat split; try done. lia.
    + constructor; simpl; rewrite ?Hf; try done.
      * exists fs. eauto.
      * right. right. simpl. rewrite ?Hf. repeat split; try done; [lia|].
        intros _. by eexists.
  - done.
  - done.
Qed.


Lemma elem_of_rev {A} (l : list A) x : x ∈ rev l <-> x ∈ l.
Proof. by rewrite !list_elem_of_In, <- in_rev. Qed.

Lemma nostop_yield i s s' :
  nostop_inv env max_workers url s ->
  yield_step i s = Some s' ->
  nostop_inv env max_workers url s'.
Proof.
  intros [Hurl Hflag Hexec (fs & Hfs & Htrack & Hnames) (Hnd & Hyd) Hfailed Hpc].
  unfold yield_step.
  destruct (pc s) eqn:Hpcs; try done.
  destruct (futures s !! i) as [[| | |[[idx error] success]]|] eqn:Hi; try done.
  case_bool_decide as Hin; [done|].
  cbn [stop_requested set_completed]. rewrite Hflag.
  destruct Hpc as (Hman & Htotal & Hlen & Hcompl & Hmw).
  assert (NoDup (i :: yielded s)) as Hnd' by (by constructor).
  assert (forall j, j ∈ i :: yielded s ->
            exists r, futures s !! j = Some (WDone r)) as Hyd'.
  { intros j [->|Hj]%elem_of_cons; eauto. }
  destruct success; intros [= <-].
  - constructor; simpl; try done.
    + exists fs. eauto.
    + by rewrite failures_of_snoc, Hi, app_nil_r.
    + repeat split; try done. lia.
  - constructor; simpl; try done.
    + exists fs. eauto.
    + by rewrite failures_of_snoc, Hi, Hfailed.
    + repeat split; try done. lia.
Qed.

Lemma nostop_worker i s s' :
  nostop_inv env max_workers url s ->
  worker_step env max_workers i s = Some s' ->
  nostop_inv env max_workers url s'.
Proof.
  intros [Hurl Hflag Hexec (fs & Hfs & Htrack & Hnames) (Hnd & Hyd) Hfailed Hpc].
  unfold worker_step.
  destruct (futures s !! i) as [ws|] eqn:Hi; [|done].
  destruct (ts_urls (mgr s) !! i) as [u|] eqn:Hu; [|done].
  destruct (is_pending ws && negb (can_start max_workers i (futures s)));
    [done|].
  rewrite Hflag.
  destruct (worker_next env default_max_retries false i u ws (world s))
    as [[ws' w']|] eqn:Hnext; [|done].
  intros [= <-].
  destruct (Htrack i ws Hi) as (u' & Hu' & Hon).
  assert (u' = u) as -> by congruence.
  destruct (worker_next_on_track i u ws (world s) fs ws' w' Hfs Hon Hnext)
    as (fs' & Hfs' & Hon' & Hother & Hdom & Hlog & Hout).
  assert (i < length (futures s)) as Hilen by (by eapply lookup_lt_Some).
  assert (i ∉ yielded s) as Hny.
  { intros Hin. destruct (Hyd i Hin) as [r Hr].
    rewrite Hi in Hr. injection Hr as ->. done. }
  constructor; simpl; try done.
  - exists fs'. split; [done|]. split.
    + intros j wsj Hj. destruct (decide (j = i)) as [->|Hne].
      * rewrite list_lookup_insert_eq in Hj by done. injection Hj as <-. eauto.
      * rewrite list_lookup_insert_ne in Hj by done.
        destruct (Htrack j wsj Hj) as (uj & Huj & Honj).
        exists uj. split; [done|]. rewrite Hother; [done|].
        intros Heq%segment_name_inj. done.
    + intros name Hname. rewrite length_insert.
      destruct (Hdom name Hname) as [Hold| ->]; eauto.
  - split; [done|]. intros j Hj.
    rewrite list_lookup_insert_ne by (intros ->; done). by apply Hyd.
  - rewrite failures_of_insert; [done|]. by rewrite elem_of_rev.
  - destruct (pc s) eqn:Hpcs; simpl in Hpc |- *; rewrite ?length_insert;
      try done.
    + destruct Hpc as [Hnil _]. by rewrite Hnil in Hi.
    + destruct Hpc as [Hnil _]. by rewrite Hnil in Hi.
    + destruct Hpc as [(e & _ & _ & Hnil & _)|[(_ & _ & Hnil & _)|Hpc]].
      * by rewrite Hnil in Hi.
      * by rewrite Hnil in Hi.
      * destruct Hpc as (H1 & H2 & H3 & H4 & H5 & H6 & H7).
        right. right. simpl. rewrite length_insert. repeat split; try done.
        intros Hne. destruct (H7 Hne) as [n Hn]. exists n.
        unfold last_progress in *. simpl. by rewrite Hlog.
Qed.

(** Every state of an interleaving without [EvStop] satisfies the
    invariant. *)
Lemma nostop_run sched s s' :
  stop_free sched = true ->
  nostop_inv env max_workers url s ->
  run env max_workers sched s = Some s' ->
  nostop_inv env max_workers url s'.
Proof.
  revert s. induction sched as [|e sched IH]; intros s Hns Hinv; simpl.
  - by intros [= <-].
  - simpl in Hns. apply andb_true_iff in Hns as [He Hns].
    destruct (step env max_workers e s) as [s1|] eqn:Hstep; [|done].
    apply IH; [done|].
    destruct e; simpl in Hstep; try done.
    + by eapply nostop_main.
    + by eapply nostop_yield.
    + by eapply nostop_worker.
Qed.

End NoStop.

(** ** Every interleaving: the general invariant and termination *)

Section Reach.
Context (env : Env) (max_workers : nat).

Lemma reach_init url path w : reach_inv max_workers (init_system url path w).
Proof.
  constructor; simpl; try done.
  split; [constructor|]. intros i Hi. by apply not_elem_of_nil in Hi.
Qed.

Lemma worker_next_not_done stop i u ws w ws' w' :
  worker_next env default_max_retries stop i u ws w = Some (ws', w') ->
  is_done ws = false.
Proof. by destruct ws. Qed.

Lemma fetch_attempt_progress_log i u r w :
  progress_log (snd (fetch_attempt env i u r w)) = progress_log w.
Proof.
  unfold fetch_attempt.
  destruct (http_segment env i u r) as [e|chunks broken]; simpl; [done|].
  destruct (temp_files w); simpl; [|done].
  destruct broken; done.
Qed.

Lemma worker_next_progress_log stop i u ws w ws' w' :
  worker_next env default_max_retries stop i u ws w = Some (ws', w') ->
  progress_log w' = progress_log w.
Proof.
  destruct ws as [|r|r|res]; simpl; try done.
  - destruct stop; by intros [= <- <-].
  - destruct (r <? default_max_retries); [destruct stop|]; by intros [= <- <-].
  - pose proof (fetch_attempt_progress_log i u r w) as Hlog.
    destruct (fetch_attempt env i u r w) as [[[]|e] w1]; simpl in Hlog.
    + by intros [= <- <-].
    + destruct (on_exception _ _ _ _); by intros [= <- <-].
Qed.

Lemma reach_step e s s' :
  reach_inv max_workers s ->
  step env max_workers e s = Some s' ->
  reach_inv max_workers s'.
Proof.
  intros [Hlen (Hnd & Hyd) Hpc] Hstep. destruct e as [|i|i|]; simpl in Hstep.
  - (* the calling thread *)
    unfold main_step in Hstep.
    destruct (pc s) as [| |k| |r|r] eqn:Hpcs; simpl in Hpc.
    + injection Hstep as <-. destruct Hpc as (Hfut & Hyl & Htot).
      constructor; simpl; done.
    + destruct Hpc as (Hfut & Hyl & Htot & Hcompl).
      destruct (manifest_urls env (m3u8_url (mgr s))) as [us|e] eqn:Hman.
      * rewrite (parse_m3u8_ok env _ (world s) _ Hman) in Hstep.
        apply manifest_urls_nonempty in Hman.
        destruct (max_workers =? 0) eqn:Hmw; injection Hstep as <-.
        -- constructor; simpl; try done. rewrite Hfut. simpl. lia.
        -- apply Nat.eqb_neq in Hmw. constructor; simpl; try done.
           ++ rewrite Hfut. simpl. lia.
           ++ rewrite Hfut. repeat split; try done.
              destruct us; [done|simpl; lia].
      * destruct (parse_m3u8_fail env _ (world s) _ Hman) as (m' & Heq & Hm').
        rewrite Heq in Hstep. injection Hstep as <-.
        constructor; simpl; try done.
        -- rewrite Hfut. simpl. lia.
        -- split; [done|]. intros _. right. left.
           by destruct Hm' as [-> | ->].
    + destruct Hpc as (Hk & Hyl & Hmw & Htot & Hpos & Hcompl).
      destruct (ts_urls (mgr s) !! k) as [u|] eqn:Hu.
      * apply lookup_lt_Some in Hu.
        destruct (executor (mgr s)) as [[]|]; injection Hstep as <-;
          constructor; simpl; rewrite ?length_app; simpl; try done; try lia.
        -- split; [done|]. intros i Hi. rewrite Hyl in Hi.
           by apply not_elem_of_nil in Hi.
        -- repeat split; try done. lia.
      * apply lookup_ge_None in Hu. injection Hstep as <-.
        constructor; simpl; try done.
        rewrite Hyl. simpl. repeat split; try done; lia.
    + destruct Hpc as (Hfl & Htot & Hcompl & Hmw & Hpos).
      destruct (length (yielded s) =? length (futures s)) eqn:Hall; [|done].
      apply Nat.eqb_eq in Hall. injection Hstep as <-.
      unfold final_check. destruct (failed_segments (mgr s));
        constructor; simpl; try done.
      * split; [|done]. intros _. lia.
      * split; [done|]. intros _. left. lia.
    + destruct (forallb is_done (futures s)); [|done].
      injection Hstep as <-. destruct Hpc as (Hr & Hmw & Hrep).
      constructor; simpl; try done.
      split; [by intros ->|]. intros Hf. right. right. by apply Hrep.
    + done.
  - (* a completed future is handed out *)
    unfold yield_step in Hstep.
    destruct (pc s) eqn:Hpcs; try done. simpl in Hpc.
    destruct (futures s !! i) as [[| | |[[idx error] success]]|] eqn:Hi;
      try done.
    case_bool_decide as Hin; [done|].
    destruct Hpc as (Hfl & Htot & Hcompl & Hmw & Hpos).
    assert (NoDup (i :: yielded s)) as Hnd' by (by constructor).
    assert (forall j, j ∈ i :: yielded s ->
              exists r, futures s !! j = Some (WDone r)) as Hyd'.
    { intros j [->|Hj]%elem_of_cons; eauto. }
    cbn [stop_requested set_completed] in Hstep.
    destruct (stop_requested (mgr s)).
    + injection Hstep as <-. constructor; simpl; try done.
      repeat split; try done. intros _. by eexists _, _.
    + destruct success; injection Hstep as <-;
        constructor; simpl; try done; repeat split; try done; lia.
  - (* a pool thread *)
    unfold worker_step in Hstep.
    destruct (futures s !! i) as [ws|] eqn:Hi; [|done].
    destruct (ts_urls (mgr s) !! i) as [u|] eqn:Hu; [|done].
    destruct (is_pending ws && negb (can_start max_workers i (futures s)));
      [done|].
    destruct (worker_next env default_max_retries (stop_requested (mgr s))
                i u ws (world s)) as [[ws' w']|] eqn:Hnext; [|done].
    injection Hstep as <-.
    pose proof (worker_next_progress_log _ _ _ _ _ _ _ Hnext) as Hlog.
    apply worker_next_not_done in Hnext.
    constructor; simpl; rewrite ?length_insert; try done.
    + split; [done|]. intros j Hj. destruct (Hyd j Hj) as [r Hr].
      exists r. rewrite list_lookup_insert_ne; [done|].
      intros ->. rewrite Hi in Hr. by injection Hr as ->.
    + unfold cancellation_reported, last_progress in *.
      destruct (pc s); simpl in *; rewrite ?length_insert, ?Hlog; try done.
      * destruct Hpc as [Hnil _]. by rewrite Hnil in Hi.
      * destruct Hpc as [Hnil _]. by rewrite Hnil in Hi.
  - (* stop_download *)
    injection Hstep as <-. constructor; simpl; done.
Qed.

Lemma reach_run sched s s' :
  reach_inv max_workers s ->
  run env max_workers sched s = Some s' ->
  reach_inv max_workers s'.
Proof.
  revert s. induction sched as [|e sched IH]; intros s Hinv; simpl.
  - by intros [= <-].
  - destruct (step env max_workers e s) as [s1|] eqn:Hstep; [|done].
    apply IH. by eapply reach_step.
Qed.


Lemma yielded_bound s :
  reach_inv max_workers s -> length (yielded s) <= length (futures s).
Proof.
  intros [_ (Hnd & Hyd) _].
  assert (length (yielded s) <= length (seq 0 (length (futures s)))) as H.
  { apply submseteq_length, NoDup_submseteq; [done|].
    intros i Hi. destruct (Hyd i Hi) as [r Hr%lookup_lt_Some].
    apply elem_of_seq. lia. }
  by rewrite length_seq in H.
Qed.

Lemma unyielded_bound s i :
  reach_inv max_workers s -> i < length (futures s) -> i ∉ yielded s ->
  length (yielded s) < length (futures s).
Proof.
  intros [_ (Hnd & Hyd) _] Hi Hny.
  assert (length (i :: yielded s) <= length (seq 0 (length (futures s))))
    as H.
  { apply submseteq_length, NoDup_submseteq; [by constructor|].
    intros j [->|Hj]%elem_of_cons; apply elem_of_seq; [lia|].
    destruct (Hyd j Hj) as [r Hr%lookup_lt_Some]. lia. }
  rewrite length_seq in H. simpl in H. lia.
Qed.

Lemma sum_list_with_insert {A} (f : A -> nat) (l : list A) i x y :
  l !! i = Some x ->
  sum_list_with f (<[i := y]> l) + f x = sum_list_with f l + f y.
Proof.
  revert i. induction l as [|a l IH]; intros [|i] Hi; simpl in *; try done.
  - injection Hi as ->. lia.
  - specialize (IH i Hi). lia.
Qed.

Lemma worker_next_measure stop i u ws w ws' w' :
  worker_next env default_max_retries stop i u ws w = Some (ws', w') ->
  worker_measure ws' < worker_measure ws.
Proof.
  destruct ws as [|r|r|res]; cbn [worker_next]; try done.
  - destruct stop; intros [= <- <-]; unfold worker_measure; lia.
  - destruct (r <? default_max_retries) eqn:Hr; [destruct stop|];
      intros [= <- <-]; unfold worker_measure; lia.
  - destruct (fetch_attempt env i u r w) as [[[]|e] w1].
    + intros [= <- <-]. unfold worker_measure. lia.
    + unfold on_exception.
      destruct (r <? default_max_retries - 1) eqn:Hr; intros [= <- <-];
        unfold worker_measure.
      * apply Nat.ltb_lt in Hr. lia.
      * lia.
Qed.

(** Every step other than a call of [stop_download] uses up the bound. *)
Lemma measure_step e s s' :
  reach_inv max_workers s ->
  step env max_workers e s = Some s' ->
  is_stop e = false ->
  measure env s' < measure env s.
Proof.
  intros Hinv Hstep He. pose proof (yielded_bound s Hinv) as Hyb.
  pose proof (fun i => unyielded_bound s i Hinv) as Hub.
  destruct Hinv as [Hlen (Hnd & Hyd) Hpc].
  unfold measure, main_measure.
  destruct e as [|i|i|]; simpl in Hstep; [| | |done].
  - unfold main_step in Hstep.
    destruct (pc s) as [| |k| |r|r] eqn:Hpcs; simpl in Hpc.
    + injection Hstep as <-. simpl. lia.
    + destruct (manifest_urls env (m3u8_url (mgr s))) as [us|e] eqn:Hman.
      * rewrite (parse_m3u8_ok env _ (world s) _ Hman) in Hstep.
        destruct (max_workers =? 0); injection Hstep as <-; simpl; lia.
      * destruct (parse_m3u8_fail env _ (world s) _ Hman) as (m' & Heq & Hm').
        rewrite Heq in Hstep. injection Hstep as <-. simpl. lia.
    + unfold submit_measure.
      destruct (ts_urls (mgr s) !! k) as [u|] eqn:Hu.
      * apply lookup_lt_Some in Hu.
        destruct (executor (mgr s)) as [[]|]; injection Hstep as <-; simpl;
          rewrite ?length_app, ?sum_list_with_app; unfold default_max_retries;
          simpl; lia.
      * injection Hstep as <-. simpl. lia.
    + destruct (length (yielded s) =? length (futures s)); [|done].
      injection Hstep as <-. unfold final_check.
      destruct (failed_segments (mgr s)); simpl; lia.
    + destruct (forallb is_done (futures s)); [|done].
      injection Hstep as <-. simpl. lia.
    + done.
  - unfold yield_step in Hstep.
    destruct (pc s) eqn:Hpcs; try done.
    destruct (futures s !! i) as [[| | |[[idx error] success]]|] eqn:Hi;
      try done.
    case_bool_decide as Hin; [done|].
    assert (length (yielded s) < length (futures s)).
    { apply (Hub i); [|done]. by eapply lookup_lt_Some. }
    cbn [stop_requested set_completed] in Hstep.
    destruct (stop_requested (mgr s)); [|destruct success];
      injection Hstep as <-; simpl; lia.
  - unfold worker_step in Hstep.
    destruct (futures s !! i) as [ws|] eqn:Hi; [|done].
    destruct (ts_urls (mgr s) !! i) as [u|] eqn:Hu; [|done].
    destruct (is_pending ws && negb (can_start max_workers i (futures s)));
      [done|].
    destruct (worker_next env default_max_retries (stop_requested (mgr s))
                i u ws (world s)) as [[ws' w']|] eqn:Hnext; [|done].
    injection Hstep as <-. simpl. rewrite length_insert.
    apply worker_next_measure in Hnext.
    pose proof (sum_list_with_insert worker_measure (futures s) i ws ws' Hi).
    lia.
Qed.

Lemma first_pending (fs : list wstate) :
  existsb is_pending fs = true ->
  exists j, fs !! j = Some WPending
            /\ forallb (fun ws => negb (is_pending ws)) (take j fs) = true.
Proof.
  induction fs as [|ws fs IH]; simpl; [done|].
  destruct ws; simpl; try (intros H; destruct (IH H) as (j & Hj & Hall);
                           exists (S j); simpl; by split).
  intros _. by exists 0.
Qed.

Lemma filter_existsb_false {A} (f : A -> bool) (l : list A) :
  existsb f l = false -> List.filter f l = [].
Proof.
  induction l as [|a l IH]; simpl; [done|].
  destruct (f a); simpl; [done|]. apply IH.
Qed.

Lemma existsb_false_In {A} (f : A -> bool) (l : list A) x :
  existsb f l = false -> In x l -> f x = false.
Proof.
  induction l as [|a l IH]; simpl; [done|].
  intros [Ha Hl]%orb_false_iff [<-|Hin]; auto.
Qed.

Lemma worker_next_active stop i u ws w :
  is_done ws = false ->
  is_Some (worker_next env default_max_retries stop i u ws w).
Proof.
  destruct ws as [|r|r|res]; simpl; try done; intros _.
  - destruct stop; eauto.
  - destruct (r <? default_max_retries); [destruct stop|]; eauto.
  - destruct (fetch_attempt env i u r w) as [[[]|e] w1]; [eauto|].
    destruct (on_exception _ _ _ _); eauto.
Qed.

(** While some submitted call has not returned, a pool thread can take a
    step. *)
Lemma worker_progress s :
  length (futures s) <= length (ts_urls (mgr s)) ->
  max_workers <> 0 ->
  forallb is_done (futures s) = false ->
  exists j s', worker_step env max_workers j s = Some s'.
Proof.
  intros Hlen Hmw Hnot.
  assert (forall j ws, futures s !! j = Some ws -> is_done ws = false ->
            (is_pending ws = true ->
             can_start max_workers j (futures s) = true) ->
            exists s', worker_step env max_workers j s = Some s') as Hgo.
  { intros j ws Hj Hnd Hstart. unfold worker_step. rewrite Hj.
    destruct (lookup_lt_is_Some_2 (ts_urls (mgr s)) j) as [u Hu].
    { apply lookup_lt_Some in Hj. lia. }
    rewrite Hu.
    destruct (is_pending ws) eqn:Hp; simpl.
    - rewrite (Hstart eq_refl). simpl.
      destruct (worker_next_active (stop_requested (mgr s)) j u ws (world s) Hnd)
        as [[ws' w'] ->]. eauto.
    - destruct (worker_next_active (stop_requested (mgr s)) j u ws (world s) Hnd)
        as [[ws' w'] ->]. eauto. }
  destruct (existsb is_active (futures s)) eqn:Hact.
  - apply existsb_exists in Hact as (ws & Hin & Hws).
    apply list_elem_of_In, list_elem_of_lookup in Hin as [j Hj].
    exists j. apply (Hgo j ws Hj); by destruct ws.
  - assert (existsb is_pending (futures s) = true) as Hpend.
    { apply not_true_iff_false in Hnot.
      destruct (existsb is_pending (futures s)) eqn:Hp; [done|].
      exfalso. apply Hnot. apply forallb_forall. intros ws Hin.
      pose proof (existsb_false_In _ _ _ Hact Hin) as Ha.
      pose proof (existsb_false_In _ _ _ Hp Hin) as Hb.
      by destruct ws. }
    destruct (first_pending _ Hpend) as (j & Hj & Hall).
    exists j. apply (Hgo j WPending Hj); [done|]. intros _.
    unfold can_start.
    rewrite (filter_existsb_false (fun ws => is_active ws) _ Hact), Hall. simpl.
    rewrite andb_true_r. apply Nat.ltb_lt. lia.
Qed.

(** Until [start_download] has ended, some thread can take a step. *)
Lemma step_progress s :
  reach_inv max_workers s -> finished s = false ->
  exists e s', is_stop e = false /\ step env max_workers e s = Some s'.
Proof.
  intros Hinv Hfin. pose proof (yielded_bound s Hinv) as Hyb.
  destruct Hinv as [Hlen (Hnd & Hyd) Hpc].
  unfold finished in Hfin.
  assert (forallb is_done (futures s) = false -> max_workers <> 0 ->
          exists e s', is_stop e = false /\ step env max_workers e s = Some s')
    as Hworker.
  { intros Hnot Hmw. destruct (worker_progress s Hlen Hmw Hnot) as (j & s' & Hs).
    by exists (EvWorker j), s'. }
  destruct (pc s) as [| |k| |r|r] eqn:Hpcs; simpl in Hpc; [| | | | |done].
  - exists EvMain. simpl. unfold main_step. rewrite Hpcs. eauto.
  - exists EvMain. simpl. unfold main_step. rewrite Hpcs.
    destruct (parse_m3u8 env (mgr s) (world s)) as [[[] m'] w'];
      [destruct (max_workers =? 0)|]; eauto.
  - exists EvMain. simpl. unfold main_step. rewrite Hpcs.
    destruct (ts_urls (mgr s) !! k); [destruct (executor (mgr s)) as [[]|]|];
      eauto.
  - destruct Hpc as (Hfl & Htot & Hcompl & Hmw & Hpos).
    destruct (length (yielded s) =? length (futures s)) eqn:Hall.
    { exists EvMain. simpl. unfold main_step. rewrite Hpcs, Hall. eauto. }
    apply Nat.eqb_neq in Hall.
    destruct (decide (Forall (fun i => i ∈ yielded s)
                             (seq 0 (length (futures s))))) as [Hevery|Hsome].
    { exfalso. apply Hall, Nat.le_antisymm; [done|].
      assert (length (seq 0 (length (futures s))) <= length (yielded s)) as H.
      { apply submseteq_length, NoDup_submseteq; [apply NoDup_seq|].
        intros i Hi. by eapply Forall_forall in Hevery. }
      by rewrite length_seq in H. }
    apply not_Forall_Exists in Hsome; [|apply _].
    apply Exists_exists in Hsome as (i & Hi & Hny).
    apply elem_of_seq in Hi.
    destruct (lookup_lt_is_Some_2 (futures s) i ltac:(lia)) as [ws Hws].
    destruct (is_done ws) eqn:Hdone.
    + destruct ws as [| | |[[idx error] success]]; try done.
      exists (EvYield i). simpl. unfold yield_step. rewrite Hpcs, Hws.
      rewrite bool_decide_eq_false_2 by done.
      destruct (stop_requested _); [eauto|]. destruct success; eauto.
    + apply Hworker; [|done]. apply not_true_iff_false. intros Hall'.
      rewrite forallb_forall in Hall'.
      specialize (Hall' ws). rewrite Hdone in Hall'.
      apply list_elem_of_lookup_2, list_elem_of_In in Hws. by specialize (Hall' Hws).
  - destruct Hpc as (Hr & Hmw & _).
    destruct (forallb is_done (futures s)) eqn:Hdone.
    + exists EvMain. simpl. unfold main_step. rewrite Hpcs, Hdone. eauto.
    + by apply Hworker.
Qed.

(** From every reachable state the threads, left alone, bring
    [start_download] to its end. *)
Lemma terminates_from s :
  reach_inv max_workers s ->
  exists sched s',
    stop_free sched = true
    /\ run env max_workers sched s = Some s'
    /\ finished s' = true.
Proof.
  remember (measure env s) as n eqn:Hn. revert s Hn.
  induction n as [n IH] using lt_wf_ind. intros s -> Hinv.
  destruct (finished s) eqn:Hfin.
  - exists [], s. by repeat split.
  - destruct (step_progress s Hinv Hfin) as (e & s1 & He & Hstep).
    destruct (IH (measure env s1) (measure_step e s s1 Hinv Hstep He)
                 s1 eq_refl (reach_step e s s1 Hinv Hstep))
      as (sched & s' & Hns & Hrun & Hdone).
    exists (e :: sched), s'. simpl. rewrite He, Hstep. by repeat split.
Qed.

End Reach.

(** ** Runs that end without cancellation *)

Section Completed.
Context (env : Env) (max_workers : nat) (url : string).

Lemma failure_entry_final urls i u :
  urls !! i = Some u ->
  match final_result env i u default_max_retries with
  | (idx, error, false) => Some (idx, error)
  | _ => None
  end = failure_entry env urls i.
Proof.
  intros Hu. unfold failure_entry, final_result, segment_succeeds.
  rewrite Hu.
  destruct (first_success env i u 0 default_max_retries) as [k|] eqn:Hk.
  - rewrite bool_decide_eq_true_2 by eauto. done.
  - rewrite bool_decide_eq_false_2 by (by intros [? ?]). done.
Qed.

(** What the state is when [start_download] has ended, the manifest was
    parsed, and nobody called [stop_download]. *)
Lemma nostop_finished s urls :
  nostop_inv env max_workers url s ->
  finished s = true ->
  manifest_urls env url = Normal urls ->
  max_workers <> 0 ->
  ts_urls (mgr s) = urls
  /\ total (mgr s) = length urls
  /\ completed (mgr s) = length urls
  /\ pc s = MDone (Normal (bool_decide (failed_segments (mgr s) = [])))
  /\ (failed_segments (mgr s) <> [] -> partial_failure_reported s)
  /\ failed_segments (mgr s) ≡ₚ expected_failures env urls
  /\ exists fs,
       temp_files (world s) = Some fs
       /\ (forall i u, urls !! i = Some u ->
             fs !! segment_name i = final_file env i u default_max_retries)
       /\ (forall name, is_Some (fs !! name) ->
             exists i, i < length urls /\ name = segment_name i).
Proof.
  intros [Hurl Hflag Hexec (fs & Hfs & Htrack & Hnames) (Hnd & Hyd) Hfailed Hpc]
         Hfin Hman Hmw.
  unfold finished in Hfin. destruct (pc s) as [| | | | |r] eqn:Hpcs; try done.
  destruct Hpc as [(e & He & _)|[(Hmw0 & _)|Hpc]]; [congruence|done|].
  destruct Hpc as (Hman' & Htot & Hlen & Hall & Hcompl & -> & Hrep).
  assert (ts_urls (mgr s) = urls) as Hurls by congruence.
  rewrite Hurls in *.
  assert (yielded s ≡ₚ seq 0 (length urls)) as Hperm.
  { apply submseteq_length_Permutation.
    - apply NoDup_submseteq; [done|]. intros i Hi.
      destruct (Hyd i Hi) as [r Hr%lookup_lt_Some]. apply elem_of_seq. lia.
    - rewrite length_seq. lia. }
  assert (forall i u, urls !! i = Some u ->
            futures s !! i = Some (WDone (final_result env i u default_max_retries))
            /\ fs !! segment_name i = final_file env i u default_max_retries)
    as Hdone.
  { intros i u Hu.
    assert (i ∈ yielded s) as Hin.
    { rewrite Hperm. apply elem_of_seq. apply lookup_lt_Some in Hu. lia. }
    destruct (Hyd i Hin) as [r Hr].
    destruct (Htrack i _ Hr) as (u' & Hu' & Hon).
    assert (u' = u) as -> by congruence. destruct Hon as [-> Hfile]. done. }
  repeat split; try done; try lia.
  - rewrite Hfailed. unfold failures_of, expected_failures.
    rewrite <- Permutation_rev, Hperm.
    match goal with |- ?l ≡ₚ ?k => assert (l = k) as ->; [|done] end.
    apply list_omap_ext, Forall_Forall2_diag, Forall_forall.
    intros i Hi%elem_of_seq.
    destruct (lookup_lt_is_Some_2 urls i ltac:(lia)) as [u Hu].
    destruct (Hdone i u Hu) as [-> _]. by apply failure_entry_final.
  - exists fs. split; [done|]. split.
    + intros i u Hu. by apply Hdone.
    + intros name Hname. destruct (Hnames name Hname) as (i & Hi & ->).
      exists i. split; [lia|done].
Qed.

End Completed.

Section CompletedClaims.
Context (env : Env).



Lemma expected_failures_some urls i u :
  urls !! i = Some u -> segment_succeeds env i u = false ->
  expected_failures env urls <> [].
Proof.
  intros Hu Hfail Hnil.
  assert ((i, Some (DownloadFailed
                      (exn_of (http_segment env i u (default_max_retries - 1)))))
          ∈ expected_failures env urls) as Hin.
  { apply list_elem_of_omap. exists i. split.
    - apply elem_of_seq. apply lookup_lt_Some in Hu. lia.
    - unfold failure_entry. by rewrite Hu, Hfail. }
  rewrite Hnil in Hin. by apply not_elem_of_nil in Hin.
Qed.

Lemma run_from_init_terminates max_workers url path w0 :
  exists sched s',
    stop_free sched = true
    /\ run env max_workers sched (init_system url path w0) = Some s'
    /\ finished s' = true.
Proof. apply terminates_from, reach_init. Qed.

End CompletedClaims.


(** C5. A manifest with N segment references is downloaded with a pool of
    at least one thread; at least one segment fails on all its attempts;
    [stop_download] is never called. Then [start_download] does end under
    some interleaving, and whenever it has ended: it returned [False] after
    reporting the partial failure, the completed counter (and the total) is
    N, and the failed-segment list holds, in some order, exactly one pair
    (index, error of the last attempt) for each segment none of whose
    attempts succeeded. *)
Theorem start_download_partial_failure (env : Env) (max_workers : nat)
    (url path : string) (w0 : World) (urls : list string)
    (Hmanifest : manifest_urls env url = Normal urls)
    (Hworkers : max_workers <> 0)
    (Hfailure : exists i u, urls !! i = Some u
                            /\ segment_succeeds env i u = false) :
  (exists sched s',
     stop_free sched = true
     /\ run env max_workers sched (init_system url path w0) = Some s'
     /\ finished s' = true)
  /\ forall sched s',
       stop_free sched = true ->
       run env max_workers sched (init_system url path w0) = Some s' ->
       finished s' = true ->
       pc s' = MDone (Normal false)
       /\ partial_failure_reported s'
       /\ completed (mgr s') = length urls
       /\ total (mgr s') = length urls
       /\ failed_segments (mgr s') ≡ₚ expected_failures env urls.
Proof.
  split; [apply run_from_init_terminates|].
  intros sched s' Hfree Hrun Hfin.
  pose proof (nostop_run env max_workers url sched _ s' Hfree
                (nostop_init env max_workers url path w0) Hrun) as Hinv.
  destruct (nostop_finished env max_workers url s' urls Hinv Hfin
              Hmanifest Hworkers)
    as (Hurls & Htot & Hcompl & Hpc & Hrep & Hperm & _).
  destruct Hfailure as (i & u & Hu & Hfail).
  assert (failed_segments (mgr s') <> []) as Hne.
  { intros Hnil. rewrite Hnil in Hperm. apply Permutation_nil_l in Hperm.
    by eapply expected_failures_some. }
  rewrite bool_decide_eq_false_2 in Hpc by done.
  repeat split; try done. by apply Hrep.
Qed.

(** ** Runs whose manifest cannot be parsed *)

Lemma segment_requests_manifest url log :
  segment_requests (ReqManifest url :: log) = segment_requests log.
Proof.
  unfold segment_requests. simpl. rewrite omap_app. simpl.
  by rewrite app_nil_r.
Qed.

Lemma parse_failed_step env max_workers url w0 e0 ev s s' :
  manifest_urls env url = Raise e0 ->
  parse_failed_inv url w0 s ->
  step env max_workers ev s = Some s' ->
  parse_failed_inv url w0 s'.
Proof.
  intros Hman (Hurl & Hfut & Hyl & Hlog & Hpc) Hstep.
  destruct ev as [|i|i|]; simpl in Hstep.
  - unfold main_step in Hstep. destruct (pc s) eqn:Hpcs; try done.
    + injection Hstep as <-. by repeat split.
    + rewrite <- Hurl in Hman.
      destruct (parse_m3u8_fail env _ (world s) _ Hman) as (m' & Heq & Hm').
      rewrite Heq in Hstep. injection Hstep as <-.
      destruct Hpc as [Hc Hf]. unfold parse_failed_inv. simpl.
      rewrite segment_requests_manifest.
      destruct Hm' as [-> | ->]; by repeat split.
  - unfold yield_step in Hstep. by destruct (pc s).
  - unfold worker_step in Hstep. by rewrite Hfut, lookup_nil in Hstep.
  - injection Hstep as <-. unfold parse_failed_inv. simpl.
    by destruct (pc s).
Qed.

Lemma parse_failed_run env max_workers url w0 e0 sched s s' :
  manifest_urls env url = Raise e0 ->
  parse_failed_inv url w0 s ->
  run env max_workers sched s = Some s' ->
  parse_failed_inv url w0 s'.
Proof.
  intros Hman. revert s. induction sched as [|ev sched IH]; intros s Hinv; simpl.
  - by intros [= <-].
  - destruct (step env max_workers ev s) as [s1|] eqn:Hstep; [|done].
    apply IH. by eapply parse_failed_step.
Qed.

(** C7. [parse_m3u8] fails with the error "Empty M3U8 file" when the body
    of the manifest is empty and with "No TS files found in M3U8" when the
    resolution yields no segment URL. Whenever the parse fails (these two
    cases, a failed fetch, a reference the resolver rejects),
    [parse_m3u8] returns [False] and reports the error, and under every
    interleaving (calls of [stop_download] included) [start_download]
    submits no segment fetch and issues no segment request; it ends after
    its first two steps, and when it has ended it returned [False] with
    the completed counter at 0 and the failed-segment list empty. *)
Theorem parse_failure_never_schedules (env : Env) (max_workers : nat)
    (url path : string) (w0 : World) :
  (http_manifest env url = Normal EmptyString ->
   manifest_urls env url = Raise "Empty M3U8 file")
  /\ (forall content,
        http_manifest env url = Normal content ->
        nonempty content = true ->
        map_outcome (urljoin env (base_url url)) (manifest_refs content)
        = Normal [] ->
        manifest_urls env url = Raise "No TS files found in M3U8")
  /\ forall e,
       manifest_urls env url = Raise e ->
       (forall m w, m3u8_url m = url ->
          exists m',
            parse_m3u8 env m w
            = (false, m',
               progress_callback 0 0 None (Some (ErrParse e))
                 (log_request (ReqManifest url) w)))
       /\ (exists s',
             run env max_workers [EvMain; EvMain] (init_system url path w0)
             = Some s'
             /\ finished s' = true)
       /\ forall sched s',
            run env max_workers sched (init_system url path w0) = Some s' ->
            futures s' = []
            /\ segment_requests (http_log (world s'))
               = segment_requests (http_log w0)
            /\ (finished s' = true ->
                pc s' = MDone (Normal false)
                /\ completed (mgr s') = 0
                /\ failed_segments (mgr s') = []).
Proof.
  split; [|split].
  - unfold manifest_urls. by intros ->.
  - unfold manifest_urls. by intros content -> -> ->.
  - intros e Hman. split; [|split].
    + intros m w <-.
      destruct (parse_m3u8_fail env m w e Hman) as (m' & Heq & _). eauto.
    + simpl. unfold main_step at 1. simpl. unfold main_step. simpl.
      destruct (parse_m3u8_fail env
                  (set_failed_segments []
                     (set_completed 0
                        (set_stop_requested false (new_manager url path))))
                  (init_world w0) e Hman) as (m' & -> & _).
      eexists. split; [reflexivity|done].
    + intros sched s' Hrun.
      assert (parse_failed_inv url w0 (init_system url path w0)) as Hinit
        by (by repeat split).
      destruct (parse_failed_run env max_workers url w0 e sched _ s'
                  Hman Hinit Hrun) as (_ & Hfut & _ & Hlog & Hpc).
      repeat split; try done; unfold finished in *;
        destruct (pc s'); try done; destruct Hpc as (-> & ? & ?); done.
Qed.

(** ** Resolving a list of references *)

Lemma map_outcome_normal {A B} (f : A -> outcome B) (g : A -> B) (l : list A) :
  (forall x, x ∈ l -> f x = Normal (g x)) ->
  map_outcome f l = Normal (map g l).
Proof.
  induction l as [|x l IH]; intros H; simpl; [done|].
  rewrite (H x) by left. rewrite IH; [done|].
  intros y Hy. apply H. by right.
Qed.

(** ** Cancellation *)

Section Cancel.
Context (env : Env) (max_workers : nat).

Lemma segment_requests_segment i u r log :
  segment_requests (ReqSegment i u r :: log)
  = segment_requests log ++ [(i, r)].
Proof. unfold segment_requests. simpl. by rewrite omap_app. Qed.

(** With the flag set, a pool thread issues a request only if it was
    already past its flag check. *)
Lemma worker_next_budget i u ws w ws' w' :
  worker_next env default_max_retries true i u ws w = Some (ws', w') ->
  length (segment_requests (http_log w')) + (if in_flight ws' then 1 else 0)
  = length (segment_requests (http_log w)) + (if in_flight ws then 1 else 0).
Proof.
  destruct ws as [|r|r|res]; simpl; try done.
  - by intros [= <- <-].
  - destruct (r <? default_max_retries); by intros [= <- <-].
  - pose proof (fetch_attempt_log env i u r w) as Hlog.
    destruct (fetch_attempt env i u r w) as [[[]|e] w1]; simpl in Hlog.
    + intros [= <- <-]. rewrite Hlog, segment_requests_segment, length_app.
      simpl. lia.
    + destruct (on_exception _ _ _ _); intros [= <- <-];
        rewrite Hlog, segment_requests_segment, length_app; simpl; lia.
Qed.

Lemma cancelled_start s :
  reach_inv max_workers s ->
  completed (mgr s) < total (mgr s) ->
  cancelled_inv (stop_download s).
Proof.
  intros [Hlen _ Hpc] Hlt. split; [done|]. simpl.
  destruct (pc s) as [| |k| |r|r]; simpl in Hpc.
  - lia.
  - lia.
  - destruct Hpc as (? & ? & ? & ? & ? & ?). repeat split; try done. lia.
  - lia.
  - destruct Hpc as (? & ? & ?). done.
  - destruct Hpc as [Htrue Hfalse]. split.
    + intros ->. specialize (Htrue eq_refl). lia.
    + intros ->. destruct (Hfalse eq_refl) as [?|[?|?]]; [lia|lia|done].
Qed.

Lemma cancelled_step e s s' :
  reach_inv max_workers s ->
  cancelled_inv s ->
  step env max_workers e s = Some s' ->
  cancelled_inv s' /\ request_budget s' <= request_budget s.
Proof.
  intros [Hlen _ Hri] [Hflag Hpc] Hstep. unfold cancelled_inv, request_budget.
  destruct e as [|i|i|]; simpl in Hstep.
  - unfold main_step in Hstep.
    destruct (pc s) as [| |k| |r|r] eqn:Hpcs; try done.
    + destruct Hpc as (Hk & Hyl & Hpos).
      destruct (ts_urls (mgr s) !! k) as [u|] eqn:Hu.
      * destruct (executor (mgr s)) as [[]|]; injection Hstep as <-; simpl;
          unfold in_flight_count; rewrite ?sum_list_with_app, ?length_app;
          simpl; repeat split; try done; lia.
      * apply lookup_ge_None in Hu. injection Hstep as <-. simpl.
        rewrite Hyl. simpl. repeat split; try done; lia.
    + apply Nat.lt_neq, Nat.eqb_neq in Hpc. by rewrite Hpc in Hstep.
    + destruct (forallb is_done (futures s)); [|done].
      injection Hstep as <-. done.
  - unfold yield_step in Hstep.
    destruct (pc s) eqn:Hpcs; try done.
    destruct (futures s !! i) as [[| | |[[idx error] success]]|]; try done.
    case_bool_decide; [done|].
    cbn [stop_requested set_completed] in Hstep. rewrite Hflag in Hstep.
    injection Hstep as <-. simpl. repeat split; try done.
    intros _. by eexists _, _.
  - unfold worker_step in Hstep.
    destruct (futures s !! i) as [ws|] eqn:Hi; [|done].
    destruct (ts_urls (mgr s) !! i) as [u|] eqn:Hu; [|done].
    destruct (is_pending ws && negb (can_start max_workers i (futures s)));
      [done|].
    rewrite Hflag in Hstep.
    destruct (worker_next env default_max_retries true i u ws (world s))
      as [[ws' w']|] eqn:Hnext; [|done].
    injection Hstep as <-. simpl.
    pose proof (worker_next_progress_log env _ _ _ _ _ _ _ Hnext) as Hlog.
    pose proof (worker_next_budget _ _ _ _ _ _ Hnext) as Hbudget.
    pose proof (sum_list_with_insert
                  (fun ws => if in_flight ws then 1 else 0)
                  (futures s) i ws ws' Hi) as Hsum.
    unfold in_flight_count. split; [|lia]. split; [done|].
    unfold cancellation_reported, last_progress in *. simpl.
    rewrite length_insert, Hlog. done.
  - injection Hstep as <-. simpl. split; [|done]. split; [done|].
    by destruct (pc s).
Qed.

Lemma cancelled_run sched s s' :
  reach_inv max_workers s ->
  cancelled_inv s ->
  run env max_workers sched s = Some s' ->
  cancelled_inv s' /\ request_budget s' <= request_budget s.
Proof.
  revert s. induction sched as [|e sched IH]; intros s Hri Hinv; simpl.
  - by intros [= <-].
  - destruct (step env max_workers e s) as [s1|] eqn:Hstep; [|done].
    intros Hrun.
    destruct (cancelled_step e s s1 Hri Hinv Hstep) as [Hinv1 Hb1].
    destruct (IH s1 (reach_step env max_workers e s s1 Hri Hstep) Hinv1 Hrun)
      as [Hinv' Hb']. split; [done|lia].
Qed.

End Cancel.

(** X30. [stop_download] is called in a state reached by some interleaving
    in which the completed counter is below the total; [s'] is any state
    reached afterwards. Then the flag is still set; a call of
    [download_segment] that reads the flag at its start returns the
    cancelled triple without touching the world, and so does a pool thread
    at its entry check or at the head of its retry loop; the segment
    requests issued since the call are at most the requests that were
    already past their flag check (so no new attempt begins); and
    [start_download] does not end in success: when it has ended it has
    either returned [False], right after reporting the cancellation, or
    raised (the pool was shut down while calls were being submitted).
    From [s'] the threads do bring [start_download] to its end. *)
Theorem stop_download_cancels (env : Env) (max_workers : nat)
    (url path : string) (w0 : World) (pre post : list event)
    (s s' : System)
    (Hpre : run env max_workers pre (init_system url path w0) = Some s)
    (Houtstanding : completed (mgr s) < total (mgr s))
    (Hpost : run env max_workers post (stop_download s) = Some s') :
  stop_requested (mgr s') = true
  /\ (forall flag idx u m w,
        flag 0 = true ->
        download_segment env flag idx u m w
        = (Normal (idx, Some Cancelled, false), w))
  /\ (forall i u w,
        worker_next env default_max_retries true i u WPending w
        = Some (WDone (i, Some Cancelled, false), w))
  /\ (forall i u w r,
        r < default_max_retries ->
        worker_next env default_max_retries true i u (WLoop r) w
        = Some (WDone (i, Some Cancelled, false), w))
  /\ request_budget s' <= request_budget s
  /\ (finished s' = true ->
      exists r, pc s' = MDone r /\ r <> Normal true
                /\ (r = Normal false -> cancellation_reported s'))
  /\ exists sched s'',
       stop_free sched = true
       /\ run env max_workers sched s' = Some s''
       /\ finished s'' = true.
Proof.
  pose proof (reach_run env max_workers pre _ s
                (reach_init max_workers url path w0) Hpre) as Hri.
  pose proof (reach_step env max_workers EvStop s _ Hri eq_refl) as Hri1.
  pose proof (cancelled_start max_workers s Hri Houtstanding) as Hc.
  destruct (cancelled_run env max_workers post _ s' Hri1 Hc Hpost)
    as [[Hflag Hpc] Hbudget].
  split; [done|]. split.
  { intros flag idx u m w Hf. unfold download_segment. by rewrite Hf. }
  split; [done|]. split.
  { intros i u w r Hr%Nat.ltb_lt. simpl. by rewrite Hr. }
  split; [done|]. split.
  - unfold finished. destruct (pc s') as [| | | | |r]; try done.
    intros _. exists r. by destruct Hpc.
  - apply terminates_from. by eapply reach_run.
Qed.

(** ** The order in which [merge_files] reads the segment files *)

Section MergeOrder.
Context (env : Env).

Lemma StronglySorted_lt_NoDup (l : list nat) : StronglySorted lt l -> NoDup l.
Proof.
  induction 1 as [|x l Hl IH Hx]; constructor; [|done].
  intros Hin. eapply Forall_forall in Hx; [|done]. lia.
Qed.


Lemma segment_names_sorted (idxs : list nat) :
  StronglySorted lt idxs -> Forall (fun i => i < 10 ^ 5) idxs ->
  Sorted String.le (segment_name <$> idxs).
Proof.
  intros Hs Hb. apply StronglySorted_Sorted.
  induction Hs as [|x l Hl IH Hx]; simpl; constructor.
  - apply IH. by inversion Hb.
  - apply Forall_fmap, Forall_forall. intros y Hy. simpl.
    inversion Hb as [|? ? Hxb Hlb]; subst.
    eapply Forall_forall in Hx; [|done]. eapply Forall_forall in Hlb; [|done].
    unfold String.le, String.leb.
    rewrite segment_name_compare by done.
    by apply Nat.compare_lt_iff in Hx as ->.
Qed.

(** When the [.ts] files of the directory are the segment files of the
    indices [idxs], all below 100000, the sorted names are the names of
    [idxs] in ascending order. *)
Lemma sorted_ts_names_segments fs (idxs : list nat) :
  StronglySorted lt idxs -> Forall (fun i => i < 10 ^ 5) idxs ->
  (forall name,
     ends_with ".ts" name = true /\ is_Some (fs !! name)
     <-> exists i, i ∈ idxs /\ name = segment_name i) ->
  sorted_ts_names fs = segment_name <$> idxs.
Proof.
  intros Hs Hb Hdom. apply (Sorted_unique String.le).
  - apply Sorted_merge_sort, _.
  - by apply segment_names_sorted.
  - apply NoDup_Permutation.
    + apply NoDup_sorted_ts_names.
    + apply NoDup_fmap_2_strong; [|by apply StronglySorted_lt_NoDup].
      intros x y _ _. apply segment_name_inj.
    + intros name. rewrite elem_of_sorted_ts_names, Hdom, list_elem_of_fmap.
      split; intros (i & ? & ?); eauto.
Qed.

(** Fallback path, indices below 100000: the output is the concatenation
    of the segment files in ascending index order, whatever the order in
    which the files were written. *)
Lemma merge_files_fallback_index_order m w fs (idxs : list nat) :
  temp_files w = Some fs ->
  ffmpeg_installed env = false ->
  output_writable env = true ->
  StronglySorted lt idxs -> Forall (fun i => i < 10 ^ 5) idxs ->
  idxs <> [] ->
  (forall name,
     ends_with ".ts" name = true /\ is_Some (fs !! name)
     <-> exists i, i ∈ idxs /\ name = segment_name i) ->
  exists w',
    merge_files env m w = (true, w')
    /\ output_file w'
       = Some (concat (map (fun i => default [] (fs !! segment_name i)) idxs)).
Proof.
  intros Hfs Hff Hout Hs Hb Hne Hdom.
  pose proof (sorted_ts_names_segments fs idxs Hs Hb Hdom) as Hnames.
  destruct (merge_files_fallback env m w fs Hfs Hff Hout)
    as (w' & Hmerge & Houtput & _).
  { rewrite Hnames. by destruct idxs. }
  exists w'. split; [done|]. rewrite Houtput, Hnames.
  unfold concat_files. by rewrite <- list_fmap_compose.
Qed.

End MergeOrder.

(** ** Merging: order, repetition, and what is on disk after a failure *)

(** Scenario D: without [ffmpeg], three one-byte segments written in the
    order 2, 0, 1 are merged into the bytes 01 02 03, and the temporary
    directory is removed. *)
Example merge_three_segments :
  merge_files (scenario_env (Raise "offline") (fun _ _ => FetchRaise "offline"))
    (new_manager scenario_url "/downloads") (world_with_files three_segments)
  = (true,
     {| temp_files := None; output_file := Some [x01; x02; x03];
        http_log := [];
        progress_log :=
          [{| p_current := 0; p_total := 0;
              p_message := Some MsgManualMerge; p_error := None |}] |}).
Proof. vm_compute. reflexivity. Qed.

(** C3 (the code at the failing input). The directory holds the files of
    the indices 10001 (content 01) and 100000 (content 02). The name of
    index 100000 has six digits and sorts before the name of index 10001,
    so the fallback merge writes 02 01: the segment with the larger index
    comes first. *)
Theorem merge_fallback_misorders_six_digits :
  segment_name (10 ^ 4 + 1) = "segment_10001.ts"
  /\ segment_name (10 ^ 5) = "segment_100000.ts"
  /\ sorted_ts_names six_digit_segments
     = ["segment_100000.ts"; "segment_10001.ts"]
  /\ exists w',
       merge_files
         (scenario_env (Raise "offline") (fun _ _ => FetchRaise "offline"))
         (new_manager scenario_url "/downloads")
         (world_with_files six_digit_segments)
       = (true, w')
       /\ output_file w' = Some [x02; x01].
Proof.
  split; [by vm_compute|]. split; [by vm_compute|]. split; [by vm_compute|].
  eexists. split; [vm_compute; reflexivity|]. reflexivity.
Qed.

(** C6 (counterexample). It is not so that a second [merge_files] succeeds
    whenever the first did: after the merge of the three one-byte segments
    the second call returns [False]. *)
Lemma merge_files_twice_fails :
  ~ (forall (env : Env) (m : DownloadManager) (w w1 : World),
       merge_files env m w = (true, w1) ->
       exists w2, merge_files env m w1 = (true, w2)
                  /\ output_file w2 = output_file w1).
Proof.
  intros H.
  destruct (H _ _ _ _ merge_three_segments) as (w2 & Hsecond & _).
  vm_compute in Hsecond. discriminate.
Qed.

(** C6 (amended). A successful merge removes the temporary directory, so a
    second call on the same job returns [False]: it reports that the
    directory is missing, issues no request, and leaves the output file of
    the first merge as it is. *)
Theorem merge_files_after_success (env : Env) (m : DownloadManager)
    (w w1 : World)
    (Hfirst : merge_files env m w = (true, w1)) :
  temp_files w1 = None
  /\ exists w2,
       merge_files env m w1 = (false, w2)
       /\ output_file w2 = output_file w1
       /\ http_log w2 = http_log w1
       /\ temp_files w2 = None
       /\ last_error w2 = Some (ErrMerge "FileNotFoundError").
Proof.
  pose proof (merge_files_true_removes env m w w1 Hfirst) as Hgone.
  split; [done|]. rewrite (merge_files_no_directory env m w1 Hgone).
  eexists. split; [reflexivity|]. done.
Qed.

Lemma merge_files_after_success_witness :
  exists w1,
    merge_files (scenario_env (Raise "offline") (fun _ _ => FetchRaise "offline"))
      (new_manager scenario_url "/downloads") (world_with_files three_segments)
    = (true, w1)
    /\ temp_files w1 = None
    /\ exists w2,
         merge_files
           (scenario_env (Raise "offline") (fun _ _ => FetchRaise "offline"))
           (new_manager scenario_url "/downloads") w1
         = (false, w2)
         /\ output_file w2 = output_file w1
         /\ http_log w2 = http_log w1
         /\ temp_files w2 = None
         /\ last_error w2 = Some (ErrMerge "FileNotFoundError").
Proof.
  eexists. split; [exact merge_three_segments|].
  exact (merge_files_after_success _ _ _ _ merge_three_segments).
Defined.

Section OnDisk.
Context (env : Env).





End OnDisk.



(** ** The theorems at the scenarios of the specification *)


(** Segment 2 of Scenario B, with the default of three attempts. *)
Lemma download_segment_retry_cap_witness :
  exists err w',
    download_segment env_segment_2_fails (fun _ => false) 2
      "http://host/path/seg2.ts" 3 (init_world empty_world)
    = (Normal (2, Some err, false), w')
    /\ err <> Cancelled
    /\ http_log w'
       = map (ReqSegment 2 "http://host/path/seg2.ts") (rev (seq 0 3))
         ++ http_log (init_world empty_world)
    /\ length (http_log w') = length (http_log (init_world empty_world)) + 3.
Proof.
  apply (download_segment_retry_cap env_segment_2_fails 2
           "http://host/path/seg2.ts" 3 (init_world empty_world)).
  intros retry. reflexivity.
Defined.

(** Scenario B: five segments, index 2 fails on all three attempts. Under
    every interleaving without [stop_download] the job ends in partial
    failure with the failed list [(2, reason)] and 5 completed. *)
Lemma start_download_partial_failure_witness :
  manifest_urls env_segment_2_fails scenario_url = Normal five_urls
  /\ forall sched s',
       stop_free sched = true ->
       run env_segment_2_fails 2 sched
         (init_system scenario_url "/downloads" empty_world) = Some s' ->
       finished s' = true ->
       pc s' = MDone (Normal false)
       /\ completed (mgr s') = 5
       /\ failed_segments (mgr s')
          = [(2, Some (DownloadFailed "404 Client Error"))].
Proof.
  split; [vm_compute; reflexivity|]. intros sched s' Hfree Hrun Hfin.
  destruct (proj2 (start_download_partial_failure env_segment_2_fails 2
                     scenario_url "/downloads" empty_world five_urls
                     ltac:(vm_compute; reflexivity) ltac:(discriminate)
                     ltac:(exists 2, "http://host/path/seg2.ts";
                           split; reflexivity))
                  sched s' Hfree Hrun Hfin)
    as (Hpc & _ & Hcompl & _ & Hperm).
  split; [exact Hpc|]. split; [exact Hcompl|].
  apply Permutation_singleton_r. exact Hperm.
Defined.

(** Scenario C: [stop_download] is called when two of five segments have
    started and none has been collected. *)
Lemma stop_download_cancels_witness :
  exists s s',
    stop_requested (mgr s') = true
    /\ (forall flag idx u m w,
          flag 0 = true ->
          download_segment env_all_succeed flag idx u m w
          = (Normal (idx, Some Cancelled, false), w))
    /\ (forall i u w,
          worker_next env_all_succeed default_max_retries true i u WPending w
          = Some (WDone (i, Some Cancelled, false), w))
    /\ (forall i u w r,
          r < default_max_retries ->
          worker_next env_all_succeed default_max_retries true i u (WLoop r) w
          = Some (WDone (i, Some Cancelled, false), w))
    /\ request_budget s' <= request_budget s
    /\ (finished s' = true ->
        exists r, pc s' = MDone r /\ r <> Normal true
                  /\ (r = Normal false -> cancellation_reported s'))
    /\ exists sched s'',
         stop_free sched = true
         /\ run env_all_succeed 2 sched s' = Some s''
         /\ finished s'' = true.
Proof.
  eexists _, _.
  eapply (stop_download_cancels env_all_succeed 2 scenario_url "/downloads"
            empty_world schedule_before_stop schedule_after_stop).
  - vm_compute. reflexivity.
  - apply Nat.ltb_lt. vm_compute. reflexivity.
  - vm_compute. reflexivity.
Defined.

(** An empty manifest body. *)
Lemma parse_failure_never_schedules_witness :
  manifest_urls env_empty_manifest scenario_url = Raise "Empty M3U8 file"
  /\ exists s',
       run env_empty_manifest 10 [EvMain; EvMain]
         (init_system scenario_url "/downloads" empty_world) = Some s'
       /\ finished s' = true.
Proof.
  pose proof (parse_failure_never_schedules env_empty_manifest 10
                scenario_url "/downloads" empty_world) as (Hempty & _ & Hfail).
  split; [exact (Hempty eq_refl)|].
  exact (proj1 (proj2 (Hfail _ (Hempty eq_refl)))).
Defined.


(* ===================================================================== *)
(** * Part III: further properties of the code                           *)
(* ===================================================================== *)

(** ** [download_segment]: effects, first success, cancellation, edge cases *)

Section DownloadSegmentMore.
Context (env : Env).

Lemma only_file_changed_refl name t : only_file_changed name t t.
Proof. destruct t; simpl; done. Qed.

Lemma only_file_changed_trans name t1 t2 t3 :
  only_file_changed name t1 t2 -> only_file_changed name t2 t3 ->
  only_file_changed name t1 t3.
Proof.
  destruct t1, t2, t3; simpl; try done.
  intros H1 H2 n Hn. rewrite H2, H1; done.
Qed.

Lemma fetch_attempt_frame idx url retry w :
  let w' := snd (fetch_attempt env idx url retry w) in
  http_log w' = ReqSegment idx url retry :: http_log w
  /\ output_file w' = output_file w
  /\ progress_log w' = progress_log w
  /\ only_file_changed (segment_name idx) (temp_files w) (temp_files w').
Proof.
  unfold fetch_attempt.
  destruct (http_segment env idx url retry) as [e|chunks broken]; simpl.
  - repeat split; try done. apply only_file_changed_refl.
  - destruct (temp_files w) as [fs|] eqn:Hfs; simpl.
    + destruct broken; simpl; rewrite ?Hfs; repeat split; try done;
        intros n Hn; by rewrite lookup_insert_ne.
    + rewrite Hfs. repeat split; done.
Qed.

(** The retry loop from iteration [a] on: it issues the requests of the
    iterations [a], ..., [a + k - 1] for some [k] and touches nothing but
    the file of the segment. *)
Lemma for_retries_frame flag idx url m a n w :
  exists k r w',
    k <= n
    /\ for_retries env flag idx url m (seq a n) w = (Normal r, w')
    /\ http_log w' = map (ReqSegment idx url) (rev (seq a k)) ++ http_log w
    /\ output_file w' = output_file w
    /\ progress_log w' = progress_log w
    /\ only_file_changed (segment_name idx) (temp_files w) (temp_files w').
Proof.
  revert a w. induction n as [|n IH]; intros a w.
  - exists 0, None, w. simpl. repeat split; try done.
    apply only_file_changed_refl.
  - cbn [seq for_retries]. unfold loop_body.
    destruct (flag (S a)).
    + exists 0, (Some (idx, Some Cancelled, false)), w. simpl.
      repeat split; try done; [lia|apply only_file_changed_refl].
    + destruct (fetch_attempt_frame idx url a w) as (Hlog & Hout & Hpl & Hfs).
      destruct (fetch_attempt env idx url a w) as [[[]|e] w1] eqn:Hfa;
        simpl in Hlog, Hout, Hpl, Hfs.
      * exists 1, (Some (idx, None, true)), w1. simpl.
        repeat split; try done. lia.
      * destruct (on_exception idx m a e) as [r|] eqn:Hex.
        -- exists 1, (Some r), w1. simpl. repeat split; try done. lia.
        -- destruct (IH (S a) w1) as (k & r & w2 & Hk & Hrun & Hlog2 & Hout2 & Hpl2 & Hfs2).
           exists (S k), r, w2. split; [lia|]. split; [done|].
           split; [|split; [congruence|split; [congruence|]]].
           ++ rewrite Hlog2, Hlog. cbn [seq rev]. rewrite map_app.
              rewrite <- app_assoc. done.
           ++ by eapply only_file_changed_trans.
Qed.


(** X2. Whatever the flag does and whatever the network answers, a call of
    [download_segment] returns (it never raises), issues the requests of
    the retries [0, 1, ..., k - 1] in this order for some
    [k <= max_retries] and no other request, never calls the progress
    callback, never touches the output file, and in the temporary
    directory changes at most the file of its own segment: it neither
    creates nor removes the directory nor any other file. *)
Theorem download_segment_frame (flag : nat -> bool) (idx : nat)
    (url : string) (max_retries : nat) (w : World) :
  exists k r w',
    k <= max_retries
    /\ download_segment env flag idx url max_retries w = (Normal r, w')
    /\ http_log w' = map (ReqSegment idx url) (rev (seq 0 k)) ++ http_log w
    /\ output_file w' = output_file w
    /\ progress_log w' = progress_log w
    /\ only_file_changed (segment_name idx) (temp_files w) (temp_files w').
Proof.
  unfold download_segment. destruct (flag 0).
  - exists 0, (idx, Some Cancelled, false), w. simpl.
    repeat split; try done; [lia|apply only_file_changed_refl].
  - destruct (for_retries_frame flag idx url max_retries 0 max_retries w)
      as (k & r & w' & Hk & Hrun & Hrest).
    rewrite Hrun. destruct r as [r|]; eauto 10.
Qed.

(** The loop while every attempt fails and the flag stays clear. *)
Lemma for_retries_failing flag idx url m a n rest w :
  a + n < m ->
  (forall j, a < j <= a + n -> flag j = false) ->
  (forall r, a <= r < a + n -> fetch_ok (http_segment env idx url r) = false) ->
  exists w1,
    for_retries env flag idx url m (seq a n ++ rest) w
    = for_retries env flag idx url m rest w1
    /\ http_log w1 = map (ReqSegment idx url) (rev (seq a n)) ++ http_log w
    /\ output_file w1 = output_file w
    /\ progress_log w1 = progress_log w
    /\ only_file_changed (segment_name idx) (temp_files w) (temp_files w1).
Proof.
  revert a w. induction n as [|n IH]; intros a w Hm Hflag Hfail.
  - exists w. simpl. repeat split; try done. apply only_file_changed_refl.
  - cbn [seq app for_retries]. unfold loop_body.
    rewrite Hflag by lia.
    destruct (fetch_attempt_frame idx url a w) as (Hlog & Hout & Hpl & Hfs).
    destruct (fetch_attempt_fails env idx url a w) as [e He]; [apply Hfail; lia|].
    destruct (fetch_attempt env idx url a w) as [r w0] eqn:Hfa.
    simpl in He, Hlog, Hout, Hpl, Hfs. subst r.
    unfold on_exception.
    destruct (Nat.ltb_spec a (m - 1)); [|lia].
    destruct (IH (S a) w0) as (w1 & Hrun & Hlog1 & Hout1 & Hpl1 & Hfs1).
    { lia. } { intros j Hj. apply Hflag. lia. } { intros r Hr. apply Hfail. lia. }
    exists w1. split; [done|]. split; [|split; [congruence|split; [congruence|]]].
    + rewrite Hlog1, Hlog. cbn [rev]. rewrite map_app, <- app_assoc. done.
    + by eapply only_file_changed_trans.
Qed.

Lemma seq_split_at k m : k <= m -> seq 0 m = seq 0 k ++ seq k (m - k).
Proof.
  intros Hk. replace m with (k + (m - k)) at 1 by lia.
  by rewrite seq_app.
Qed.

(** X1. When the temporary directory exists, the flag stays clear, the attempts
    before attempt [k < max_retries] fail and attempt [k] delivers a
    complete response, [download_segment] returns [(idx, None, True)] after
    exactly the [k + 1] requests of the retries [0..k], and the file
    [segment_{idx:05d}.ts] then holds the non-empty chunks of that response
    (whatever an earlier, broken attempt had written is gone); the output
    file and the progress callback are not touched. *)
Theorem download_segment_first_success (idx : nat) (url : string)
    (max_retries k : nat) (w : World) (fs : gmap string bytes)
    (chunks : list bytes)
    (Hdir : temp_files w = Some fs)
    (Hk : k < max_retries)
    (Hfail : forall r, r < k -> fetch_ok (http_segment env idx url r) = false)
    (Hok : http_segment env idx url k = FetchBody chunks None) :
  exists w',
    download_segment env (fun _ => false) idx url max_retries w
    = (Normal (idx, None, true), w')
    /\ http_log w' = map (ReqSegment idx url) (rev (seq 0 (S k))) ++ http_log w
    /\ temp_files w'
       = Some (<[segment_name idx := nonempty_chunks chunks]> fs)
    /\ output_file w' = output_file w
    /\ progress_log w' = progress_log w.
Proof.
  unfold download_segment.
  rewrite (seq_split_at k max_retries) by lia.
  destruct (for_retries_failing (fun _ => false) idx url max_retries 0 k
              (seq k (max_retries - k)) w)
    as (w1 & Hrun & Hlog1 & Hout1 & Hpl1 & Hfs1); [lia|done|intros; apply Hfail; lia|].
  rewrite Hrun.
  destruct (max_retries - k) as [|n] eqn:Hn; [lia|].
  cbn [seq for_retries]. unfold loop_body, fetch_attempt. rewrite Hok.
  rewrite Hdir in Hfs1. simpl in Hfs1.
  destruct (temp_files (log_request (ReqSegment idx url k) w1)) as [fs1|] eqn:Hfs1'.
  2:{ simpl in Hfs1'. rewrite Hfs1' in Hfs1. done. }
  simpl in Hfs1'. rewrite Hfs1' in Hfs1.
  eexists. split; [reflexivity|].
  cbn [http_log set_temp_files log_request temp_files output_file progress_log].
  split; [|split; [|split; [done|done]]].
  - rewrite Hlog1. change (0 :: seq 1 k) with (seq 0 (S k)).
    rewrite seq_S, rev_app_distr. done.
  - f_equal. apply map_eq. intros name.
    destruct (decide (name = segment_name idx)) as [->|Hne].
    + by rewrite !lookup_insert_eq.
    + rewrite !lookup_insert_ne by done. by apply Hfs1.
Qed.

(** X3. A cancellation that arrives between two attempts is honoured before
    the next request: when the flag is clear at the entry check and at the
    head of the iterations [0..k-1], these [k] attempts fail, and the flag
    is set when iteration [k < max_retries] reads it, the call returns the
    cancellation result after exactly [k] requests. *)
Theorem download_segment_cancelled_between_attempts (flag : nat -> bool)
    (idx : nat) (url : string) (max_retries k : nat) (w : World)
    (Hk : k < max_retries)
    (Hclear : forall j, j <= k -> flag j = false)
    (Hset : flag (S k) = true)
    (Hfail : forall r, r < k -> fetch_ok (http_segment env idx url r) = false) :
  exists w',
    download_segment env flag idx url max_retries w
    = (Normal (idx, Some Cancelled, false), w')
    /\ http_log w' = map (ReqSegment idx url) (rev (seq 0 k)) ++ http_log w.
Proof.
  unfold download_segment. rewrite Hclear by lia.
  rewrite (seq_split_at k max_retries) by lia.
  destruct (for_retries_failing flag idx url max_retries 0 k
              (seq k (max_retries - k)) w)
    as (w1 & Hrun & Hlog1 & _); [lia|intros; apply Hclear; lia|intros; apply Hfail; lia|].
  rewrite Hrun.
  destruct (max_retries - k) as [|n] eqn:Hn; [lia|].
  cbn [seq for_retries]. unfold loop_body. rewrite Hset.
  exists w1. done.
Qed.

(** The loop never falls through when its last iteration is the last
    retry. *)
Lemma for_retries_returns flag idx url m a n w :
  a + n = m -> 0 < n ->
  exists r w',
    for_retries env flag idx url m (seq a n) w = (Normal (Some r), w')
    /\ r.1.2 <> Some UnknownError.
Proof.
  revert a w. induction n as [|n IH]; intros a w Hm Hn; [lia|].
  cbn [seq for_retries]. unfold loop_body.
  destruct (flag (S a)); [by eexists _, _|].
  destruct (fetch_attempt env idx url a w) as [[[]|e] w1]; [by eexists _, _|].
  unfold on_exception.
  destruct (Nat.ltb_spec a (m - 1)) as [Hlt|Hge]; [|by eexists _, _].
  apply IH; lia.
Qed.

(** X4. The result of line 90 (the error text for an unknown error) is what a
    call with [max_retries = 0] returns when the flag is clear, without a
    request and without touching anything; and no call with
    [max_retries > 0] ever returns it: with at least one retry the loop
    always ends in one of its [return] statements. *)
Theorem download_segment_unknown_error (flag : nat -> bool) (idx : nat)
    (url : string) (w : World) :
  (flag 0 = false ->
   download_segment env flag idx url 0 w
   = (Normal (idx, Some UnknownError, false), w))
  /\ forall max_retries success w',
       download_segment env flag idx url max_retries w
       = (Normal (idx, Some UnknownError, success), w') ->
       max_retries = 0 /\ flag 0 = false /\ w' = w.
Proof.
  split.
  - intros Hflag. unfold download_segment. by rewrite Hflag.
  - intros m success w'. unfold download_segment.
    destruct (flag 0) eqn:Hflag; [done|].
    destruct m as [|m].
    + simpl. intros [= <- <-]. done.
    + destruct (for_retries_returns flag idx url (S m) 0 (S m) w)
        as (r & w1 & Hrun & Hr); [lia|lia|].
      rewrite Hrun. intros [= -> ->]. done.
Qed.

(** X5. When the temporary directory does not exist (as after a successful
    merge), [download_segment] never succeeds and never creates the
    directory: whatever the flag and the network do, it returns a result
    whose success component is [False] and the directory is still
    missing. *)
Theorem download_segment_without_directory (flag : nat -> bool) (idx : nat)
    (url : string) (max_retries : nat) (w : World)
    (Hdir : temp_files w = None) :
  exists r w',
    download_segment env flag idx url max_retries w = (Normal r, w')
    /\ r.2 = false
    /\ temp_files w' = None.
Proof.
  assert (Hloop : forall n a w0 o w1,
    temp_files w0 = None ->
    for_retries env flag idx url max_retries (seq a n) w0 = (Normal o, w1) ->
    temp_files w1 = None
    /\ forall t, o = Some t -> t.2 = false).
  { induction n as [|n IH]; intros a w0 o w1 Hw0.
    - simpl. intros [= <- <-]. done.
    - cbn [seq for_retries]. unfold loop_body.
      destruct (flag (S a)).
      { intros [= <- <-]. split; [done|]. by intros t [= <-]. }
      unfold fetch_attempt.
      destruct (http_segment env idx url a) as [e|chunks broken]; simpl;
        rewrite ?Hw0; unfold on_exception;
        (destruct (a <? max_retries - 1);
         [apply IH; done
         |intros [= <- <-]; split; [done|by intros t [= <-]]]). }
  unfold download_segment. destruct (flag 0); [by eexists _, _|].
  destruct (for_retries_frame flag idx url max_retries 0 max_retries w)
    as (k & o & w1 & _ & Hrun & _).
  rewrite Hrun. destruct (Hloop _ _ _ _ _ Hdir Hrun) as [Hw1 Ho].
  destruct o as [t|]; eexists _, _; (split; [reflexivity|]); [|done].
  split; [by apply Ho|done].
Qed.

End DownloadSegmentMore.

(** ** [parse_m3u8]: playlists line by line, and what it touches *)

Section Lines.

Lemma prefix_nil s : String.prefix EmptyString s = true.
Proof. by destruct s. Qed.

Lemma prefix_app_l p s t :
  String.prefix p s = true -> String.prefix p (s +:+ t) = true.
Proof.
  revert s. induction p as [|a p IH]; intros s; [by rewrite !prefix_nil|].
  destruct s as [|b s]; [done|].
  rewrite string_app_cons. cbn [String.prefix].
  destruct (ascii_dec a b); [apply IH|done].
Qed.

(** A prefix that avoids [c] cannot reach beyond a [c]. *)
Lemma prefix_app_stop p s c t :
  avoids c p = true ->
  String.prefix p (s +:+ String c t) = true -> String.prefix p s = true.
Proof.
  revert s. induction p as [|a p IH]; intros s Hav; [by rewrite !prefix_nil|].
  unfold avoids in Hav. cbn [list_ascii_of_string forallb] in Hav.
  apply andb_prop in Hav as [Ha Hp].
  destruct s as [|b s].
  - rewrite string_app_nil. cbn [String.prefix].
    destruct (ascii_dec a c) as [->|]; [|done].
    by rewrite Ascii.eqb_refl in Ha.
  - rewrite string_app_cons. cbn [String.prefix].
    destruct (ascii_dec a b); [by apply IH|done].
Qed.

Lemma occurs_in_prefix p s : String.prefix p s = true -> occurs_in p s = true.
Proof. intros H. destruct s; cbn [occurs_in]; by rewrite H. Qed.

Lemma occurs_in_tail p c s : occurs_in p (String c s) = false -> occurs_in p s = false.
Proof. cbn [occurs_in]. by intros [_ ?]%orb_false_elim. Qed.

(** Text without the marker is copied up to a character the marker
    avoids. *)
Lemma re_sub_copy s c t :
  avoids c byterange_marker = true ->
  occurs_in byterange_marker s = false ->
  re_sub_byterange false (s +:+ String c t)
  = s +:+ re_sub_byterange false (String c t).
Proof.
  intros Hc. induction s as [|d s IH]; intros Hocc.
  - by rewrite !string_app_nil.
  - assert (String.prefix byterange_marker (String d (s +:+ String c t))
            = false) as Hp.
    { destruct (String.prefix _ _) eqn:Hp; [|done].
      rewrite <- string_app_cons in Hp.
      apply prefix_app_stop in Hp; [|done].
      apply occurs_in_prefix in Hp. congruence. }
    rewrite !string_app_cons. cbn [re_sub_byterange]. rewrite Hp.
    f_equal. apply IH. by eapply occurs_in_tail.
Qed.

(** Inside a match, everything up to the next line feed is dropped. *)
Lemma re_sub_skip s t :
  avoids LF s = true ->
  re_sub_byterange true (s +:+ String LF t) = re_sub_byterange false t.
Proof.
  induction s as [|d s IH]; intros Hav.
  - rewrite string_app_nil. cbn [re_sub_byterange]. by rewrite Ascii.eqb_refl.
  - unfold avoids in Hav. cbn [list_ascii_of_string forallb] in Hav.
    apply andb_prop in Hav as [Hd Hs].
    rewrite string_app_cons. cbn [re_sub_byterange].
    apply negb_true_iff in Hd. rewrite Hd. by apply IH.
Qed.

Lemma has_linebreak_avoids c s :
  is_linebreak c = true -> has_linebreak s = false -> avoids c s = true.
Proof.
  intros Hc. unfold has_linebreak, avoids.
  induction s as [|d s IH]; [done|].
  cbn [list_ascii_of_string existsb forallb].
  intros [Hd Hs]%orb_false_elim. rewrite IH by done.
  rewrite andb_true_r. apply negb_true_iff.
  destruct (Ascii.eqb_spec d c) as [->|]; [congruence|done].
Qed.

Lemma avoids_app c s t : avoids c (s +:+ t) = avoids c s && avoids c t.
Proof.
  unfold avoids. induction s as [|d s IH].
  - by rewrite string_app_nil.
  - rewrite string_app_cons. cbn [list_ascii_of_string forallb].
    by rewrite IH, andb_assoc.
Qed.

Lemma manifest_text_cons crlf l ls :
  manifest_text crlf (l :: ls) = l +:+ eol crlf (manifest_text crlf ls).
Proof. done. Qed.

Lemma plain_line_inv l :
  plain_line l = true ->
  has_linebreak l = false
  /\ (String.prefix byterange_marker l = false ->
      occurs_in byterange_marker l = false).
Proof.
  unfold plain_line. intros [Hlb Hm]%andb_prop.
  apply negb_true_iff in Hlb. split; [done|].
  intros Hp. destruct l as [|c l]; cbn [occurs_in]; rewrite Hp; [done|].
  by apply negb_true_iff in Hm.
Qed.

(** The directive lines are deleted with their line ends, the others are
    kept as they are. *)
Lemma re_sub_manifest_text crlf ls :
  Forall (fun l => plain_line l = true) ls ->
  re_sub_byterange false (manifest_text crlf ls)
  = manifest_text crlf
      (List.filter (fun l => negb (String.prefix byterange_marker l)) ls).
Proof.
  induction 1 as [|l ls Hl _ IH]; [done|].
  rewrite manifest_text_cons. cbn [List.filter].
  destruct (plain_line_inv l Hl) as [Hlb Hocc].
  destruct (String.prefix byterange_marker l) eqn:Hp; cbn [negb].
  - (* a directive *)
    destruct l as [|c l]; [done|].
    pose proof (prefix_app_l _ _ (eol crlf (manifest_text crlf ls)) Hp) as Hp'.
    rewrite string_app_cons in Hp'.
    rewrite string_app_cons. cbn [re_sub_byterange]. rewrite Hp'.
    assert (avoids LF l = true) as Hav.
    { assert (avoids LF (String c l) = true) as H
        by (by apply has_linebreak_avoids).
      unfold avoids in H. cbn [list_ascii_of_string forallb] in H.
      by apply andb_prop in H as [_ ?]. }
    destruct crlf; cbn [eol].
    + replace (l +:+ String CR (String LF (manifest_text true ls)))
        with ((l +:+ String CR EmptyString) +:+ String LF (manifest_text true ls)).
      2:{ by rewrite string_app_assoc, string_app_cons, string_app_nil. }
      rewrite re_sub_skip; [done|].
      rewrite avoids_app, Hav. done.
    + by rewrite re_sub_skip.
  - (* any other line *)
    rewrite manifest_text_cons.
    specialize (Hocc eq_refl).
    destruct crlf; cbn [eol].
    + rewrite re_sub_copy by done.
      f_equal. cbn [re_sub_byterange].
      change (String.prefix byterange_marker (String CR ?s)) with false.
      cbn [re_sub_byterange].
      destruct (String.prefix byterange_marker _); [done|].
      change (String.prefix byterange_marker (String LF ?s)) with false.
      by rewrite IH.
    + rewrite re_sub_copy by done.
      f_equal. cbn [re_sub_byterange].
      change (String.prefix byterange_marker (String LF ?s)) with false.
      by rewrite IH.
Qed.


(** A line without boundaries inside comes out of [splitlines] whole. *)
Lemma splitlines_aux_line crlf cur l rest :
  has_linebreak l = false ->
  splitlines_aux cur false (l +:+ eol crlf rest)
  = String.rev_app cur l :: splitlines_aux EmptyString false rest.
Proof.
  revert cur. induction l as [|c l IH]; intros cur Hl.
  - rewrite string_app_nil. destruct crlf; cbn [eol splitlines_aux andb];
      change (is_linebreak CR) with true; change (is_linebreak LF) with true;
      cbn iota; done.
  - unfold has_linebreak in Hl. cbn [list_ascii_of_string existsb] in Hl.
    apply orb_false_elim in Hl as [Hc Hl].
    rewrite string_app_cons. cbn [splitlines_aux andb]. rewrite Hc.
    by rewrite IH.
Qed.

Lemma splitlines_manifest_text crlf ls :
  Forall (fun l => has_linebreak l = false) ls ->
  splitlines (manifest_text crlf ls) = ls.
Proof.
  unfold splitlines. induction 1 as [|l ls Hl _ IH]; [done|].
  rewrite manifest_text_cons, splitlines_aux_line by done.
  by rewrite IH.
Qed.

Lemma rstrip_keeps_head c s :
  is_space c = false -> exists r, rstrip (String c s) = String c r.
Proof.
  intros Hc. cbn [rstrip]. rewrite Hc. destruct (rstrip s); eauto.
Qed.

Lemma strip_directive l :
  String.prefix byterange_marker l = true ->
  nonempty (strip l) = true /\ starts_with "#" (strip l) = true.
Proof.
  destruct l as [|c l]; [done|]. unfold byterange_marker.
  cbn [String.prefix].
  destruct (ascii_dec "#"%char c) as [<-|]; [|done]. intros _.
  unfold strip. cbn [lstrip].
  change (is_space "#"%char) with false. cbn iota.
  destruct (rstrip_keeps_head "#"%char l) as [r ->]; [done|].
  split; [done|]. unfold starts_with. cbn [String.prefix].
  destruct (ascii_dec "#"%char "#"%char); [apply prefix_nil|done].
Qed.

(** The references of a manifest given by its lines. *)
Lemma manifest_refs_lines crlf ls :
  Forall (fun l => plain_line l = true) ls ->
  manifest_refs (manifest_text crlf ls) = references_of_lines ls.
Proof.
  intros Hls. unfold manifest_refs, stripped_lines, references_of_lines.
  rewrite re_sub_manifest_text by done.
  rewrite splitlines_manifest_text.
  2:{ apply Forall_forall. intros l [_ Hl]%list_filter_elem_of.
      rewrite Forall_forall in Hls. by apply plain_line_inv, Hls. }
  clear Hls. induction ls as [|l ls IH]; [done|].
  cbn [List.filter map].
  destruct (String.prefix byterange_marker l) eqn:Hp; cbn [negb].
  - destruct (strip_directive l Hp) as [-> Hc]. cbn [List.filter].
    by rewrite Hc.
  - cbn [flat_map]. rewrite List.filter_app, IH.
    destruct (nonempty (strip l)); [|done].
    cbn [List.filter]. by destruct (starts_with "#" (strip l)).
Qed.

End Lines.

Section ParseMore.
Context (env : Env).

(** X6. For a playlist whose body consists of the lines [ls], each ended by a
    line feed (or each by carriage return and line feed), where no line
    contains a line boundary and the byte-range marker occurs nowhere but
    at the start of a line, [parse_m3u8] succeeds and [ts_urls] holds, in
    order, the resolution of exactly the trimmed lines that are neither
    blank nor start with [#]; [total] is their number. [resolve] names
    what [urljoin] returns for these references (it raises on none of
    them) and there is at least one. *)
Theorem parse_m3u8_lines (m : DownloadManager) (w : World) (crlf : bool)
    (ls : list string) (resolve : string -> string)
    (Hfetch : http_manifest env (m3u8_url m) = Normal (manifest_text crlf ls))
    (Hplain : Forall (fun l => plain_line l = true) ls)
    (Hresolve : forall ref,
        ref ∈ references_of_lines ls ->
        urljoin env (base_url (m3u8_url m)) ref = Normal (resolve ref))
    (Hsome : references_of_lines ls <> []) :
  exists m' w',
    parse_m3u8 env m w = (true, m', w')
    /\ ts_urls m' = map resolve (references_of_lines ls)
    /\ total m' = length (references_of_lines ls).
Proof.
  assert (nonempty (manifest_text crlf ls) = true) as Hbody.
  { destruct ls as [|l ls]; [done|]. rewrite manifest_text_cons.
    destruct l, crlf; done. }
  assert (manifest_urls env (m3u8_url m)
          = Normal (map resolve (references_of_lines ls))) as Hman.
  { unfold manifest_urls. rewrite Hfetch, Hbody, manifest_refs_lines by done.
    rewrite (map_outcome_normal _ resolve _ Hresolve).
    destruct (references_of_lines ls); done. }
  rewrite (parse_m3u8_ok env m w _ Hman).
  eexists _, _. split; [reflexivity|]. simpl. by rewrite length_map.
Qed.

(** What a call of [parse_m3u8] changes, as the invariants of
    [start_download] use it. *)
Lemma parse_m3u8_effects (m : DownloadManager) (w : World) :
  exists ok m' w',
    parse_m3u8 env m w = (ok, m', w')
    /\ http_log w' = ReqManifest (m3u8_url m) :: http_log w
    /\ temp_files w' = temp_files w
    /\ output_file w' = output_file w
    /\ m3u8_url m' = m3u8_url m /\ save_path m' = save_path m
    /\ completed m' = completed m
    /\ failed_segments m' = failed_segments m
    /\ stop_requested m' = stop_requested m
    /\ executor m' = executor m
    /\ (if ok
        then progress_log w' = progress_log w
             /\ ts_urls m' <> [] /\ total m' = length (ts_urls m')
        else (exists e,
                progress_log w'
                = {| p_current := 0; p_total := 0; p_message := None;
                     p_error := Some (ErrParse e) |} :: progress_log w)
             /\ total m' = total m
             /\ (ts_urls m' = ts_urls m \/ ts_urls m' = [])).
Proof.
  unfold parse_m3u8, parse_m3u8_try.
  destruct (http_manifest env (m3u8_url m)) as [c|e].
  - destruct (nonempty c).
    + destruct (map_outcome _ _) as [[|u us]|e].
      * eexists false, _, _. split; [reflexivity|]. simpl. eauto 20.
      * eexists true, _, _. split; [reflexivity|]. simpl. eauto 20.
      * eexists false, _, _. split; [reflexivity|]. simpl. eauto 20.
    + eexists false, _, _. split; [reflexivity|]. simpl. eauto 20.
  - eexists false, _, _. split; [reflexivity|]. simpl. eauto 20.
Qed.


(** X7. [parse_m3u8] always returns, issues exactly one HTTP request (for the
    manifest URL), and never touches the temporary directory, the output
    file, [completed], [failed_segments], [stop_requested] or the
    executor. When it returns [True] the callback was not called,
    [ts_urls] is not empty and [total] is its length; when it returns
    [False] the callback was called exactly once, with [(0, 0)] and the
    parse error, [total] keeps its old value and [ts_urls] is unchanged or
    empty. *)
Theorem parse_m3u8_frame (m : DownloadManager) (w : World) :
  exists ok m' w',
    parse_m3u8 env m w = (ok, m', w')
    /\ http_log w' = ReqManifest (m3u8_url m) :: http_log w
    /\ temp_files w' = temp_files w
    /\ output_file w' = output_file w
    /\ m3u8_url m' = m3u8_url m /\ save_path m' = save_path m
    /\ completed m' = completed m
    /\ failed_segments m' = failed_segments m
    /\ stop_requested m' = stop_requested m
    /\ executor m' = executor m
    /\ (if ok
        then progress_log w' = progress_log w
             /\ ts_urls m' <> [] /\ total m' = length (ts_urls m')
        else (exists e,
                progress_log w'
                = {| p_current := 0; p_total := 0; p_message := None;
                     p_error := Some (ErrParse e) |} :: progress_log w)
             /\ total m' = total m
             /\ (ts_urls m' = ts_urls m \/ ts_urls m' = [])).
Proof.
  unfold parse_m3u8, parse_m3u8_try.
  destruct (http_manifest env (m3u8_url m)) as [c|e].
  - destruct (nonempty c).
    + destruct (map_outcome _ _) as [[|u us]|e].
      * eexists false, _, _. split; [reflexivity|]. simpl. eauto 20.
      * eexists true, _, _. split; [reflexivity|]. simpl. eauto 20.
      * eexists false, _, _. split; [reflexivity|]. simpl. eauto 20.
    + eexists false, _, _. split; [reflexivity|]. simpl. eauto 20.
  - eexists false, _, _. split; [reflexivity|]. simpl. eauto 20.
Qed.

End ParseMore.

(** ** [start_download]: counters, pool bound, termination *)

Section Counters.
Context (env : Env) (max_workers : nat) (w0 : World).

Lemma counters_init url path : counters_inv w0 (init_system url path w0).
Proof.
  constructor; simpl; try done. exists []. repeat split; constructor.
Qed.

Lemma reports_cons (new : list progress) (c c' t : nat) msg err :
  c <= t -> c' <= c ->
  Forall (fun p => report_in_range p /\ p_current p <= c') new ->
  StronglySorted (fun p q => p_current q <= p_current p) new ->
  Forall (fun p => report_in_range p /\ p_current p <= c)
    ({| p_current := c; p_total := t; p_message := msg; p_error := err |} :: new)
  /\ StronglySorted (fun p q => p_current q <= p_current p)
       ({| p_current := c; p_total := t; p_message := msg; p_error := err |} :: new).
Proof.
  intros Hct Hc Hall Hsorted. split.
  - constructor; [by split|].
    eapply Forall_impl; [done|]. intros p [? ?]. split; [done|lia].
  - constructor; [done|].
    eapply Forall_impl; [done|]. intros p [? ?]. simpl. lia.
Qed.

Lemma reports_weaken (new : list progress) (c c' : nat) :
  c' <= c ->
  Forall (fun p => report_in_range p /\ p_current p <= c') new ->
  Forall (fun p => report_in_range p /\ p_current p <= c) new.
Proof.
  intros Hc H. eapply Forall_impl; [exact H|]. intros p [? ?]. split; [done|lia].
Qed.

Lemma counters_step e s s' :
  reach_inv max_workers s ->
  counters_inv w0 s ->
  step env max_workers e s = Some s' ->
  counters_inv w0 s'.
Proof.
  intros Hreach [Hc Ht Hf (new & Hlog & Hall & Hsorted & Hstart)] Hstep.
  pose proof (yielded_bound max_workers s Hreach) as Hyb.
  pose proof (fun i => unyielded_bound max_workers s i Hreach) as Hub.
  destruct Hreach as [Hlen (Hnd & Hyd) Hpc].
  destruct e as [|i|i|]; simpl in Hstep.
  - unfold main_step in Hstep.
    destruct (pc s) as [| |k| |r|r] eqn:Hpcs; simpl in Hpc.
    + injection Hstep as <-. destruct Hpc as (Hfut & Hyl & Htot).
      constructor; simpl; [by rewrite Hyl|done|lia|].
      exists []. rewrite Hlog, (Hstart eq_refl).
      repeat split; try done; constructor.
    + destruct Hpc as (Hfut & Hyl & Htot & Hcompl).
      destruct (parse_m3u8_effects env (mgr s) (world s))
        as (ok & m' & w' & Heq & _ & _ & _ & _ & _ & Hcm & Hfm & _ & _ & Hok).
      rewrite Heq in Hstep.
      assert (completed m' = length (yielded s)) as Hc' by congruence.
      assert (length (futures s) <= total m') as Ht'
        by (rewrite Hfut; simpl; lia).
      assert (length (failed_segments m') <= completed m') as Hf'
        by (rewrite Hfm, Hcm; done).
      destruct ok.
      * destruct Hok as (Hpl & _).
        destruct (max_workers =? 0); injection Hstep as <-;
          (constructor; simpl; [done|done|done|]);
          exists new; rewrite Hpl, Hcm; done.
      * destruct Hok as ((e & Hpl) & _).
        injection Hstep as <-. constructor; simpl; [done|done|done|].
        eexists (_ :: new). rewrite Hpl, Hlog. split; [done|].
        rewrite Hcm.
        destruct (reports_cons new 0 0 0 None (Some (ErrParse e)))
          as [H1 H2]; try done.
        { by rewrite <- Hcompl. }
        split; [|done].
        eapply Forall_impl; [exact H1|]. intros p [? ?]. split; [done|lia].
    + destruct Hpc as (Hk & Hyl & Hmw & Htot & Hpos & Hcompl).
      destruct (ts_urls (mgr s) !! k) as [u|] eqn:Hu.
      * apply lookup_lt_Some in Hu.
        destruct (executor (mgr s)) as [[]|]; injection Hstep as <-;
          (constructor; simpl; rewrite ?length_app; simpl;
           [done|lia|done|]); exists new; done.
      * injection Hstep as <-. constructor; simpl; [done|done|done|].
        exists new. done.
    + destruct (length (yielded s) =? length (futures s)) eqn:Hall'; [|done].
      injection Hstep as <-. unfold final_check.
      destruct (failed_segments (mgr s)) eqn:Hfl;
        (constructor; simpl; rewrite ?Hfl; [done|done|done|]).
      * exists new. done.
      * eexists (_ :: new). rewrite Hlog. split; [done|].
        destruct (reports_cons new (completed (mgr s)) (completed (mgr s))
                    (total (mgr s)) None
                    (Some (ErrPartial (S (length l))))) as [H1 H2];
          try done; lia.
    + destruct (forallb is_done (futures s)); [|done].
      injection Hstep as <-. constructor; simpl; [done|done|done|].
      exists new. done.
    + done.
  - unfold yield_step in Hstep.
    destruct (pc s) eqn:Hpcs; try done.
    destruct (futures s !! i) as [[| | |[[idx error] success]]|] eqn:Hi;
      try done.
    case_bool_decide as Hin; [done|].
    assert (length (yielded s) < length (futures s)) as Hlt.
    { apply (Hub i); [|done]. by eapply lookup_lt_Some. }
    cbn [stop_requested set_completed] in Hstep.
    assert (completed (mgr s) + 1 <= total (mgr s)) as Hct by lia.
    destruct (stop_requested (mgr s)).
    + injection Hstep as <-. constructor; simpl; [lia|done|lia|].
      eexists (_ :: new). rewrite Hlog. split; [done|].
      destruct (reports_cons new (completed (mgr s) + 1) (completed (mgr s))
                  (total (mgr s)) (Some MsgCancelled) None) as [H1 H2];
        try done; lia.
    + destruct success; injection Hstep as <-;
        (constructor; simpl; rewrite ?length_app; simpl; [lia|done|lia|]).
      * eexists (_ :: new). rewrite Hlog. split; [done|].
        destruct (reports_cons new (completed (mgr s) + 1) (completed (mgr s))
                    (total (mgr s)) (Some MsgDownloading) None) as [H1 H2];
          try done; lia.
      * eexists (_ :: _ :: new). rewrite Hlog. split; [done|].
        destruct (reports_cons new (completed (mgr s) + 1) (completed (mgr s))
                    (total (mgr s)) None
                    (Some (ErrFailedCount
                             (length (failed_segments (mgr s)) + 1))))
          as [H1 H2]; try done; try lia.
        destruct (reports_cons _ (completed (mgr s) + 1) (completed (mgr s) + 1)
                    (total (mgr s)) (Some MsgDownloading) None Hct
                    (Nat.le_refl _) H1 H2) as [H3 H4].
        done.
  - unfold worker_step in Hstep.
    destruct (futures s !! i) as [ws|] eqn:Hi; [|done].
    destruct (ts_urls (mgr s) !! i) as [u|] eqn:Hu; [|done].
    destruct (is_pending ws && negb (can_start max_workers i (futures s)));
      [done|].
    destruct (worker_next env default_max_retries (stop_requested (mgr s))
                i u ws (world s)) as [[ws' w']|] eqn:Hnext; [|done].
    injection Hstep as <-.
    pose proof (worker_next_progress_log _ _ _ _ _ _ _ _ Hnext) as Hpl.
    constructor; simpl; rewrite ?length_insert; [done|done|done|].
    exists new. rewrite Hpl. done.
  - injection Hstep as <-. constructor; simpl; [done|done|done|].
    exists new. done.
Qed.

Lemma counters_run sched s s' :
  reach_inv max_workers s ->
  counters_inv w0 s ->
  run env max_workers sched s = Some s' ->
  counters_inv w0 s'.
Proof.
  revert s. induction sched as [|e sched IH]; intros s Hreach Hinv; simpl.
  - by intros [= <-].
  - destruct (step env max_workers e s) as [s1|] eqn:Hstep; [|done].
    apply IH; [by eapply reach_step|by eapply counters_step].
Qed.

End Counters.

(** X8. In every state of every interleaving of [start_download], calls of
    [stop_download] included: [completed] is the number of results handed
    out and does not exceed [total]; the failed-segment list is no longer
    than [completed]; [total] is positive as soon as a call was submitted
    (so the division of line 118 is defined); and the calls of the
    progress callback made so far, latest first, each report a counter
    within its total, with counters that never decrease over time. *)
Theorem start_download_counters (env : Env) (max_workers : nat)
    (url path : string) (w0 : World) (sched : list event) (s' : System)
    (Hrun : run env max_workers sched (init_system url path w0) = Some s') :
  completed (mgr s') = length (yielded s')
  /\ completed (mgr s') <= total (mgr s')
  /\ length (failed_segments (mgr s')) <= completed (mgr s')
  /\ (futures s' <> [] -> 0 < total (mgr s'))
  /\ exists new,
       progress_log (world s') = new ++ progress_log w0
       /\ Forall report_in_range new
       /\ StronglySorted (fun p q => p_current q <= p_current p) new.
Proof.
  pose proof (reach_run env max_workers sched _ _
                (reach_init max_workers url path w0) Hrun) as Hreach.
  destruct (counters_run env max_workers w0 sched _ _
              (reach_init max_workers url path w0)
              (counters_init w0 url path) Hrun)
    as [Hc Ht Hf (new & Hlog & Hall & Hsorted & _)].
  pose proof (yielded_bound max_workers s' Hreach) as Hyb.
  split; [done|]. split; [lia|]. split; [done|]. split.
  - destruct (futures s'); [done|]. simpl in Ht. lia.
  - exists new. split; [done|]. split; [|done].
    eapply Forall_impl; [exact Hall|]. by intros p [? _].
Qed.

Section Pool.
Context (env : Env) (max_workers : nat).

Lemma active_count_app fs fs' :
  active_count (fs ++ fs') = active_count fs + active_count fs'.
Proof. unfold active_count. by rewrite List.filter_app, length_app. Qed.

Lemma active_count_insert (fs : list wstate) i ws ws' :
  fs !! i = Some ws ->
  active_count (<[i := ws']> fs) + (if is_active ws then 1 else 0)
  = active_count fs + (if is_active ws' then 1 else 0).
Proof.
  unfold active_count.
  revert i. induction fs as [|a fs IH]; intros [|i] Hi; simpl in *; try done.
  - injection Hi as ->. destruct (is_active ws), (is_active ws'); simpl; lia.
  - specialize (IH i Hi). destruct (is_active a); simpl; lia.
Qed.

Lemma in_flight_le_active (fs : list wstate) :
  in_flight_count fs <= active_count fs.
Proof.
  unfold in_flight_count, active_count.
  induction fs as [|ws fs IH]; simpl; [done|].
  destruct ws; simpl; lia.
Qed.

Lemma worker_next_stays_active stop i u ws w ws' w' :
  worker_next env default_max_retries stop i u ws w = Some (ws', w') ->
  is_active ws' = true -> is_pending ws = false -> is_active ws = true.
Proof. by destruct ws. Qed.

Lemma pool_step e s s' :
  active_count (futures s) <= max_workers ->
  step env max_workers e s = Some s' ->
  active_count (futures s') <= max_workers.
Proof.
  intros Hinv Hstep. destruct e as [|i|i|]; simpl in Hstep.
  - unfold main_step in Hstep.
    destruct (pc s) as [| |k| |r|r].
    + by injection Hstep as <-.
    + destruct (parse_m3u8 env (mgr s) (world s)) as [[[] m'] w'];
        [destruct (max_workers =? 0)|]; by injection Hstep as <-.
    + destruct (ts_urls (mgr s) !! k);
        [destruct (executor (mgr s)) as [[]|]|]; injection Hstep as <-;
        simpl; rewrite ?active_count_app; simpl; try done.
      unfold active_count at 2. simpl. lia.
    + destruct (length (yielded s) =? length (futures s)); [|done].
      injection Hstep as <-. unfold final_check.
      by destruct (failed_segments (mgr s)).
    + destruct (forallb is_done (futures s)); [|done].
      by injection Hstep as <-.
    + done.
  - unfold yield_step in Hstep.
    destruct (pc s); try done.
    destruct (futures s !! i) as [[| | |[[idx error] success]]|]; try done.
    case_bool_decide; [done|].
    cbn [stop_requested set_completed] in Hstep.
    destruct (stop_requested (mgr s)); [|destruct success];
      by injection Hstep as <-.
  - unfold worker_step in Hstep.
    destruct (futures s !! i) as [ws|] eqn:Hi; [|done].
    destruct (ts_urls (mgr s) !! i) as [u|] eqn:Hu; [|done].
    destruct (is_pending ws && negb (can_start max_workers i (futures s)))
      eqn:Hguard; [done|].
    destruct (worker_next env default_max_retries (stop_requested (mgr s))
                i u ws (world s)) as [[ws' w']|] eqn:Hnext; [|done].
    injection Hstep as <-. simpl.
    pose proof (active_count_insert (futures s) i ws ws' Hi) as Hcount.
    destruct (is_active ws') eqn:Hact'; [|lia].
    destruct (is_pending ws) eqn:Hpend.
    + simpl in Hguard. apply negb_false_iff in Hguard.
      unfold can_start in Hguard. apply andb_prop in Hguard as [Hfree _].
      apply Nat.ltb_lt in Hfree. fold (active_count (futures s)) in Hfree.
      destruct ws; try done. simpl in Hcount. lia.
    + rewrite (worker_next_stays_active _ _ _ _ _ _ _ Hnext Hact' Hpend)
        in Hcount. lia.
  - by injection Hstep as <-.
Qed.

Lemma pool_run sched s s' :
  active_count (futures s) <= max_workers ->
  run env max_workers sched s = Some s' ->
  active_count (futures s') <= max_workers.
Proof.
  revert s. induction sched as [|e sched IH]; intros s Hinv; simpl.
  - by intros [= <-].
  - destruct (step env max_workers e s) as [s1|] eqn:Hstep; [|done].
    apply IH. by eapply pool_step.
Qed.

End Pool.

(** X9. The pool never runs more calls of [download_segment] at a time than
    it has threads: in every state of every interleaving at most
    [max_workers] calls are inside their retry loop, and so at most
    [max_workers] segment requests are in flight. *)
Theorem pool_never_exceeds_max_workers (env : Env) (max_workers : nat)
    (url path : string) (w0 : World) (sched : list event) (s' : System)
    (Hrun : run env max_workers sched (init_system url path w0) = Some s') :
  active_count (futures s') <= max_workers
  /\ in_flight_count (futures s') <= max_workers.
Proof.
  assert (active_count (futures s') <= max_workers) as H.
  { eapply pool_run; [|exact Hrun]. simpl. unfold active_count. simpl. lia. }
  split; [done|]. pose proof (in_flight_le_active (futures s')). lia.
Qed.

Section Bound.
Context (env : Env) (max_workers : nat).

Lemma measure_stop s : measure env (stop_download s) = measure env s.
Proof. done. Qed.

Lemma thread_steps_bound sched s s' :
  reach_inv max_workers s ->
  run env max_workers sched s = Some s' ->
  thread_steps sched + measure env s' <= measure env s.
Proof.
  revert s. induction sched as [|e sched IH]; intros s Hinv; simpl.
  - intros [= <-]. unfold thread_steps. simpl. lia.
  - destruct (step env max_workers e s) as [s1|] eqn:Hstep; [|done].
    intros Hrun.
    specialize (IH s1 (reach_step env max_workers e s s1 Hinv Hstep) Hrun).
    unfold thread_steps in *. cbn [List.filter].
    destruct (is_stop e) eqn:He; cbn [negb length].
    + destruct e; try done. injection Hstep as <-.
      rewrite measure_stop in IH. lia.
    + pose proof (measure_step env max_workers e s s1 Hinv Hstep He). lia.
Qed.

Lemma measure_init url path w0 :
  measure env (init_system url path w0) = 11 * expected_total env url + 5.
Proof.
  unfold measure, main_measure, expected_total, submit_measure,
    default_max_retries. simpl.
  destruct (manifest_urls env url); lia.
Qed.

End Bound.

(** X10. [start_download] ends under every scheduling of its threads: an
    interleaving takes at most [11 * N + 5] steps of the calling thread and
    the pool threads together, where [N] is the number of segments of the
    manifest (none when it cannot be parsed), however many calls of
    [stop_download] are interleaved; and as long as [start_download] has
    not ended, some thread can take a step. *)
Theorem start_download_terminates (env : Env) (max_workers : nat)
    (url path : string) (w0 : World) :
  (forall sched s',
     run env max_workers sched (init_system url path w0) = Some s' ->
     thread_steps sched <= 11 * expected_total env url + 5)
  /\ (forall sched s',
        run env max_workers sched (init_system url path w0) = Some s' ->
        finished s' = false ->
        exists e s'', is_stop e = false
                      /\ step env max_workers e s' = Some s'').
Proof.
  split.
  - intros sched s' Hrun.
    pose proof (thread_steps_bound env max_workers sched _ _
                  (reach_init max_workers url path w0) Hrun) as H.
    rewrite measure_init in H. lia.
  - intros sched s' Hrun Hfin.
    apply step_progress; [|done].
    eapply reach_run; [|exact Hrun]. apply reach_init.
Qed.

(** Calls of [stop_download] on a manager whose [start_download] has not
    executed its first statement change nothing of what follows. *)
Lemma stops_before_start env max_workers n sched s :
  pc s = MStart ->
  executor (mgr s) = None ->
  run env max_workers (repeat EvStop n ++ EvMain :: sched) s
  = run env max_workers (EvMain :: sched) s.
Proof.
  revert s. induction n as [|n IH]; intros s Hpc Hexec; [done|].
  cbn [repeat app run step]. rewrite IH.
  - destruct s as [m w p fs ys]. destruct m. simpl in Hpc, Hexec. subst.
    reflexivity.
  - done.
  - cbn [stop_download mgr]. by rewrite Hexec.
Qed.

(** X11. Calls of [stop_download] that come before [start_download] has
    executed its first statement are forgotten, however many they are:
    line 93 clears the flag and no executor exists yet to shut down, so
    the download goes on exactly as if the calls had not been made. When
    no other call follows, the download ends as one that was never
    cancelled: the flag is clear, all [N] segments are counted as
    completed, and the failed-segment list holds the segments whose
    attempts all failed, none as cancelled. *)
Theorem stop_before_start_is_forgotten (env : Env) (max_workers : nat)
    (url path : string) (w0 : World) (n : nat) (sched : list event)
    (urls : list string) (s' : System)
    (Hmanifest : manifest_urls env url = Normal urls)
    (Hworkers : max_workers <> 0)
    (Hfree : stop_free sched = true)
    (Hrun : run env max_workers (repeat EvStop n ++ EvMain :: sched)
              (init_system url path w0) = Some s')
    (Hfin : finished s' = true) :
  (forall sched0,
     run env max_workers (repeat EvStop n ++ EvMain :: sched0)
       (init_system url path w0)
     = run env max_workers (EvMain :: sched0) (init_system url path w0))
  /\ stop_requested (mgr s') = false
  /\ completed (mgr s') = length urls
  /\ pc s' = MDone (Normal (bool_decide (failed_segments (mgr s') = [])))
  /\ failed_segments (mgr s') ≡ₚ expected_failures env urls.
Proof.
  split; [intros sched0; by apply stops_before_start|].
  rewrite stops_before_start in Hrun by done.
  pose proof (nostop_run env max_workers url (EvMain :: sched) _ s' Hfree
                (nostop_init env max_workers url path w0) Hrun) as Hinv.
  destruct (nostop_finished env max_workers url s' urls Hinv Hfin
              Hmanifest Hworkers)
    as (_ & _ & Hcompl & Hpc & _ & Hperm & _).
  split; [by destruct Hinv|]. done.
Qed.

(** ** [start_download]: early cancellation and exceptions *)

Section EarlyStop.
Context (env : Env) (max_workers : nat) (w0 : World).

Lemma unparsed_step e s s' :
  reach_inv max_workers s ->
  unparsed_inv w0 s ->
  step env max_workers e s = Some s' ->
  unparsed_inv w0 s'.
Proof.
  intros [Hlen _ Hpc] Hinv Hstep. unfold unparsed_inv in *.
  destruct e as [|i|i|]; simpl in Hstep.
  - unfold main_step in Hstep.
    destruct (pc s) as [| |k| |r|r]; simpl in Hpc.
    + injection Hstep as <-. simpl. done.
    + destruct (parse_m3u8 env (mgr s) (world s)) as [[[] m'] w'];
        [destruct (max_workers =? 0)|]; by injection Hstep as <-.
    + destruct (ts_urls (mgr s) !! k);
        [destruct (executor (mgr s)) as [[]|]|]; by injection Hstep as <-.
    + destruct (length (yielded s) =? length (futures s)); [|done].
      injection Hstep as <-. unfold final_check.
      by destruct (failed_segments (mgr s)).
    + destruct (forallb is_done (futures s)); [|done].
      by injection Hstep as <-.
    + done.
  - unfold yield_step in Hstep.
    destruct (pc s); try done.
    destruct (futures s !! i) as [[| | |[[idx error] success]]|]; try done.
    case_bool_decide; [done|].
    cbn [stop_requested set_completed] in Hstep.
    destruct (stop_requested (mgr s)); [|destruct success];
      by injection Hstep as <-.
  - unfold worker_step in Hstep.
    destruct (futures s !! i) as [ws|] eqn:Hi; [|done].
    destruct (pc s); simpl in Hpc; try (destruct Hpc as [Hnil _];
      by rewrite Hnil in Hi);
    destruct (ts_urls (mgr s) !! i); try done;
    destruct (is_pending ws && negb (can_start max_workers i (futures s)));
      try done;
    destruct (worker_next _ _ _ _ _ _ _) as [[ws' w']|]; try done;
    injection Hstep as <-; done.
  - injection Hstep as <-. simpl. by destruct (pc s).
Qed.

Lemma unparsed_run sched s s' :
  reach_inv max_workers s ->
  unparsed_inv w0 s ->
  run env max_workers sched s = Some s' ->
  unparsed_inv w0 s'.
Proof.
  revert s. induction sched as [|e sched IH]; intros s Hreach Hinv; simpl.
  - by intros [= <-].
  - destruct (step env max_workers e s) as [s1|] eqn:Hstep; [|done].
    apply IH; [by eapply reach_step|by eapply unparsed_step].
Qed.

Lemma forallb_insert {A} (f : A -> bool) (l : list A) i x :
  forallb f l = true -> f x = true -> forallb f (<[i := x]> l) = true.
Proof.
  revert i. induction l as [|a l IH]; intros [|i]; simpl; try done.
  - intros [_ ?]%andb_prop ->. done.
  - intros [-> ?]%andb_prop ?. simpl. by apply IH.
Qed.

Lemma forallb_lookup {A} (f : A -> bool) (l : list A) i x :
  forallb f l = true -> l !! i = Some x -> f x = true.
Proof.
  intros Hall Hi. rewrite forallb_forall in Hall. apply Hall.
  apply list_elem_of_lookup_2 in Hi. by apply list_elem_of_In.
Qed.

Lemma early_stop_step e s s' :
  reach_inv max_workers s ->
  early_stop_inv w0 s ->
  step env max_workers e s = Some s' ->
  early_stop_inv w0 s'.
Proof.
  intros [Hlen _ Hpc] (Hflag & Hfut & Hreq & Htmp & Hfailed & Hcase) Hstep.
  unfold early_stop_inv.
  destruct e as [|i|i|]; simpl in Hstep.
  - unfold main_step in Hstep.
    destruct (pc s) as [| |k| |r|r] eqn:Hpcs; simpl in Hpc; [done| | | | |done].
    + destruct (parse_m3u8_effects env (mgr s) (world s))
        as (ok & m' & w' & Heq & Hlog & Htf & _ & _ & _ & _ & Hfm & Hsm & _).
      rewrite Heq in Hstep.
      assert (segment_requests (http_log w')
              = segment_requests (http_log w0)) as Hreq'.
      { by rewrite Hlog, segment_requests_manifest. }
      destruct ok; [destruct (max_workers =? 0)|]; injection Hstep as <-;
        simpl; rewrite ?Hsm, ?Hfm, ?Htf; done.
    + destruct (ts_urls (mgr s) !! k);
        [destruct (executor (mgr s)) as [[]|]|]; injection Hstep as <-;
        simpl; rewrite ?forallb_app; simpl; rewrite ?Hfut; done.
    + destruct Hpc as (Hfl & Htot & _ & _ & Hpos).
      rewrite Hcase in Hstep. simpl in Hstep.
      destruct (futures s); [simpl in Htot; lia|done].
    + destruct (forallb is_done (futures s)); [|done].
      injection Hstep as <-. done.
  - unfold yield_step in Hstep.
    destruct (pc s); try done.
    destruct (futures s !! i) as [[| | |[[idx error] success]]|]; try done.
    case_bool_decide; [done|].
    cbn [stop_requested set_completed] in Hstep. rewrite Hflag in Hstep.
    injection Hstep as <-. simpl. done.
  - unfold worker_step in Hstep.
    destruct (futures s !! i) as [ws|] eqn:Hi; [|done].
    destruct (ts_urls (mgr s) !! i) as [u|]; [|done].
    destruct (is_pending ws && negb (can_start max_workers i (futures s)));
      [done|].
    rewrite Hflag in Hstep.
    pose proof (forallb_lookup _ _ _ _ Hfut Hi) as Hws.
    destruct ws as [| | |[[idx [[]|]] []]]; try done.
    simpl in Hstep. injection Hstep as <-. simpl.
    repeat split; try done. by apply forallb_insert.
  - injection Hstep as <-. simpl. done.
Qed.

Lemma early_stop_run sched s s' :
  reach_inv max_workers s ->
  early_stop_inv w0 s ->
  run env max_workers sched s = Some s' ->
  early_stop_inv w0 s'.
Proof.
  revert s. induction sched as [|e sched IH]; intros s Hreach Hinv; simpl.
  - by intros [= <-].
  - destruct (step env max_workers e s) as [s1|] eqn:Hstep; [|done].
    apply IH; [by eapply reach_step|by eapply early_stop_step].
Qed.

End EarlyStop.

(** X12. When [stop_download] is called while [start_download] is fetching or
    parsing the manifest (after line 93, before the pool exists), no
    segment is ever requested and no segment file is written, whatever the
    threads do afterwards; [start_download] does not report success, and
    the failed-segment list stays empty. *)
Theorem stop_during_parse_fetches_nothing (env : Env) (max_workers : nat)
    (url path : string) (w0 : World) (pre post : list event)
    (s s' : System)
    (Hpre : run env max_workers pre (init_system url path w0) = Some s)
    (Hparse : pc s = MParse)
    (Hpost : run env max_workers post (stop_download s) = Some s') :
  segment_requests (http_log (world s')) = segment_requests (http_log w0)
  /\ temp_files (world s') = Some ∅
  /\ failed_segments (mgr s') = []
  /\ (finished s' = true ->
      exists r, pc s' = MDone r /\ r <> Normal true).
Proof.
  pose proof (reach_run env max_workers pre _ _
                (reach_init max_workers url path w0) Hpre) as Hreach.
  assert (unparsed_inv w0 s) as Hun.
  { eapply unparsed_run; [apply reach_init| |exact Hpre]. done. }
  unfold unparsed_inv in Hun. rewrite Hparse in Hun. destruct Hun as [Hw Hf].
  assert (early_stop_inv w0 (stop_download s)) as Hinv.
  { unfold early_stop_inv. simpl. rewrite Hparse, Hw.
    destruct Hreach as [_ _ Hpc]. rewrite Hparse in Hpc.
    destruct Hpc as (-> & -> & _). done. }
  assert (reach_inv max_workers (stop_download s)) as Hreach'.
  { by apply (reach_step env max_workers EvStop s). }
  destruct (early_stop_run env max_workers w0 post _ _ Hreach' Hinv Hpost)
    as (_ & _ & Hreq & Htmp & Hfailed & Hcase).
  repeat split; try done.
  unfold finished. destruct (pc s'); try done. eauto.
Qed.

Section NoPool.
Context (env : Env) (w0 : World).

Lemma no_pool_step e s s' :
  no_pool_inv w0 s ->
  step env 0 e s = Some s' ->
  no_pool_inv w0 s'.
Proof.
  intros (Hfut & Hyl & Hreq & Hcase) Hstep. unfold no_pool_inv.
  destruct e as [|i|i|]; simpl in Hstep.
  - unfold main_step in Hstep.
    destruct (pc s) as [| |k| |r|r]; try done.
    + by injection Hstep as <-.
    + destruct (parse_m3u8_effects env (mgr s) (world s))
        as (ok & m' & w' & Heq & Hlog & _).
      rewrite Heq in Hstep.
      assert (segment_requests (http_log w')
              = segment_requests (http_log w0)) as Hreq'.
      { by rewrite Hlog, segment_requests_manifest. }
      destruct ok; injection Hstep as <-; done.
  - unfold yield_step in Hstep. rewrite Hfut in Hstep.
    by destruct (pc s).
  - unfold worker_step in Hstep. by rewrite Hfut in Hstep.
  - injection Hstep as <-. done.
Qed.

Lemma no_pool_run sched s s' :
  no_pool_inv w0 s ->
  run env 0 sched s = Some s' ->
  no_pool_inv w0 s'.
Proof.
  revert s. induction sched as [|e sched IH]; intros s Hinv; simpl.
  - by intros [= <-].
  - destruct (step env 0 e s) as [s1|] eqn:Hstep; [|done].
    apply IH. by eapply no_pool_step.
Qed.

End NoPool.

(** X13. With [max_workers = 0] and a manifest that parses, [start_download]
    fetches and parses the manifest, sets [total], and then raises the
    [ValueError] of the pool constructor; in no interleaving is a call
    submitted or a segment requested, and [start_download] never reports
    success. *)
Theorem start_download_without_workers (env : Env) (url path : string)
    (w0 : World) (urls : list string)
    (Hmanifest : manifest_urls env url = Normal urls) :
  (exists s',
     run env 0 [EvMain; EvMain] (init_system url path w0) = Some s'
     /\ pc s' = MDone (Raise no_worker_threads)
     /\ total (mgr s') = length urls
     /\ http_log (world s') = ReqManifest url :: http_log w0)
  /\ forall sched s',
       run env 0 sched (init_system url path w0) = Some s' ->
       futures s' = []
       /\ segment_requests (http_log (world s'))
          = segment_requests (http_log w0)
       /\ pc s' <> MDone (Normal true).
Proof.
  split.
  - simpl. unfold main_step at 1. simpl.
    rewrite (parse_m3u8_ok env _ _ urls) by done.
    eexists. split; [reflexivity|]. done.
  - intros sched s' Hrun.
    assert (no_pool_inv w0 (init_system url path w0)) as Hinit
      by (unfold no_pool_inv; simpl; done).
    destruct (no_pool_run env w0 sched _ _ Hinit Hrun)
      as (Hfut & _ & Hreq & Hcase).
    repeat split; try done.
    intros Hpc. rewrite Hpc in Hcase. done.
Qed.

Section Raises.
Context (env : Env) (max_workers : nat).

Lemma raise_step e s s' :
  reach_inv max_workers s ->
  raise_inv max_workers s ->
  step env max_workers e s = Some s' ->
  raise_inv max_workers s'.
Proof.
  intros [_ _ Hpc] Hinv Hstep. unfold raise_inv in *.
  destruct e as [|i|i|]; simpl in Hstep.
  - unfold main_step in Hstep.
    destruct (pc s) as [| |k| |r|r] eqn:Hpcs.
    + by injection Hstep as <-.
    + destruct (parse_m3u8 env (mgr s) (world s)) as [[[] m'] w'].
      * destruct (max_workers =? 0) eqn:Hmw; injection Hstep as <-; simpl.
        -- apply Nat.eqb_eq in Hmw. intros e [= <-]. left.
           simpl in Hpc. by destruct Hpc as [? _].
        -- apply Nat.eqb_neq in Hmw. split; [done|]. by left.
      * injection Hstep as <-. simpl. done.
    + destruct Hinv as [Hmw Hex].
      destruct (ts_urls (mgr s) !! k).
      * destruct (executor (mgr s)) as [[]|] eqn:Hexec;
          injection Hstep as <-; simpl.
        -- intros e [= <-]. right. destruct Hex as [?|[_ ?]]; done.
        -- split; [done|]. by left.
        -- destruct Hex as [?|[? _]]; done.
      * injection Hstep as <-. simpl. done.
    + destruct (length (yielded s) =? length (futures s)); [|done].
      injection Hstep as <-. unfold final_check.
      destruct (failed_segments (mgr s)); simpl; done.
    + destruct (forallb is_done (futures s)); [|done].
      injection Hstep as <-. simpl. done.
    + done.
  - unfold yield_step in Hstep.
    destruct (pc s); try done.
    destruct (futures s !! i) as [[| | |[[idx error] success]]|]; try done.
    case_bool_decide; [done|].
    cbn [stop_requested set_completed] in Hstep.
    destruct (stop_requested (mgr s)) eqn:Hflag; [|destruct success];
      injection Hstep as <-; simpl; rewrite ?Hflag; done.
  - unfold worker_step in Hstep.
    destruct (futures s !! i) as [ws|] eqn:Hi; [|done].
    destruct (ts_urls (mgr s) !! i); [|done].
    destruct (is_pending ws && negb (can_start max_workers i (futures s)));
      [done|].
    destruct (worker_next _ _ _ _ _ _ _) as [[ws' w']|]; [|done].
    injection Hstep as <-. simpl.
    destruct (pc s); try done;
      intros e He; destruct (Hinv e He) as [(? & ? & Hnil)|?];
      [by rewrite Hnil in Hi|by right|by rewrite Hnil in Hi|by right].
  - clear Hpc. injection Hstep as <-. simpl.
    destruct (pc s); try done.
    + destruct Hinv as [Hmw Hex]. split; [done|]. right.
      destruct (executor (mgr s)) as [[]|]; destruct Hex as [?|[? ?]]; done.
    + destruct Hinv as [Hmw Hex]. split; [done|]. right.
      destruct (executor (mgr s)) as [[]|]; destruct Hex as [?|[? ?]]; done.
    + intros e He. destruct (Hinv e He) as [?|(? & ? & ?)]; [by left|by right].
    + intros e He. destruct (Hinv e He) as [?|(? & ? & ?)]; [by left|by right].
Qed.


Lemma raise_run sched s s' :
  reach_inv max_workers s ->
  raise_inv max_workers s ->
  run env max_workers sched s = Some s' ->
  raise_inv max_workers s'.
Proof.
  revert s. induction sched as [|e sched IH]; intros s Hreach Hinv; simpl.
  - by intros [= <-].
  - destruct (step env max_workers e s) as [s1|] eqn:Hstep; [|done].
    apply IH; [by eapply reach_step|by eapply raise_step].
Qed.

End Raises.

(** X14. The only exceptions [start_download] lets escape are the [ValueError]
    of a pool without threads, raised before any call was submitted, and,
    with at least one thread, the [RuntimeError] of a [submit] after
    [shutdown], which needs a call of [stop_download] during the run: an
    interleaving without [stop_download] and with [max_workers >= 1] never
    ends in an exception. *)
Theorem start_download_exceptions (env : Env) (max_workers : nat)
    (url path : string) (w0 : World) (sched : list event) (s' : System)
    (e : exn)
    (Hrun : run env max_workers sched (init_system url path w0) = Some s')
    (Hraise : pc s' = MDone (Raise e)) :
  (max_workers = 0 /\ e = no_worker_threads /\ futures s' = [])
  \/ (max_workers <> 0 /\ e = submit_after_shutdown
      /\ stop_requested (mgr s') = true /\ stop_free sched = false).
Proof.
  assert (raise_inv max_workers s') as Hinv.
  { eapply raise_run; [apply reach_init| |exact Hrun]. done. }
  unfold raise_inv in Hinv. rewrite Hraise in Hinv.
  destruct (Hinv e eq_refl) as [?|(Hmw & He & Hflag)]; [by left|].
  right. repeat split; try done.
  destruct (stop_free sched) eqn:Hfree; [|done].
  pose proof (nostop_run env max_workers url sched _ _ Hfree
                (nostop_init env max_workers url path w0) Hrun) as Hns.
  destruct Hns as [_ Hclear _ _ _ _ _]. congruence.
Qed.

(** ** [merge_files]: empty directory, [ffmpeg], failure, order *)

Section MergeMore.
Context (env : Env).

Lemma sorted_ts_names_nil fs :
  (forall name, is_Some (fs !! name) -> ends_with ".ts" name = false) ->
  sorted_ts_names fs = [].
Proof.
  intros Hno. destruct (sorted_ts_names fs) as [|n names] eqn:Hnames; [done|].
  assert (n ∈ sorted_ts_names fs) as Hn by (rewrite Hnames; left).
  apply elem_of_sorted_ts_names in Hn as [Hts Hsome].
  rewrite (Hno n Hsome) in Hts. done.
Qed.

Lemma ffmpeg_inputs_names dir fs :
  ffmpeg_inputs dir (with_list_file dir (sorted_ts_names fs) fs)
    (map (path_join dir) (sorted_ts_names fs))
  = segment_inputs dir fs.
Proof.
  unfold ffmpeg_inputs, segment_inputs, with_list_file.
  rewrite map_map. apply map_ext_in.
  intros n Hn%list_elem_of_In. rewrite read_path_join.
  apply elem_of_sorted_ts_names in Hn as [Hts _].
  by rewrite lookup_insert_ne by (symmetry; by apply ts_not_list_file).
Qed.

(** X15. When the temporary directory exists but holds no file whose name ends
    in [.ts] (as right after [__init__]), [merge_files] returns [False],
    reports the error of line 144 through the callback, and changes
    nothing else: no list file is written, the output file is not
    touched, [ffmpeg] is not run. *)
Theorem merge_files_without_segments (m : DownloadManager) (w : World)
    (fs : gmap string bytes)
    (Hdir : temp_files w = Some fs)
    (Hnone : forall name, is_Some (fs !! name) ->
                          ends_with ".ts" name = false) :
  merge_files env m w
  = (false,
     progress_callback 0 0 None (Some (ErrMerge "未找到分片文件")) w).
Proof.
  unfold merge_files, merge_files_try.
  rewrite Hdir, ts_file_paths_names, sorted_ts_names_nil by done. done.
Qed.

(** X16. When [ffmpeg] is installed and the directory holds [.ts] files,
    [ffmpeg] is given exactly these files, in the order of their sorted
    names and with the content they have on disk, and [merge_files]
    returns [True] exactly when [ffmpeg] exits with status 0. The output
    file is what [ffmpeg] wrote (unchanged if it wrote nothing); on
    success the temporary directory is removed and the callback is not
    called; on failure the directory is kept, with [file_list.txt] added,
    and the error is reported. No HTTP request is made. *)
Theorem merge_files_ffmpeg (m : DownloadManager) (w : World)
    (fs : gmap string bytes) (status_ok : bool) (written : option bytes)
    (Hdir : temp_files w = Some fs)
    (Hsome : sorted_ts_names fs <> [])
    (Hinstalled : ffmpeg_installed env = true)
    (Hexit : ffmpeg_concat env (segment_inputs (temp_dir m) fs)
             = FfmpegExit status_ok written) :
  exists w',
    merge_files env m w = (status_ok, w')
    /\ output_file w'
       = match written with Some out => Some out | None => output_file w end
    /\ temp_files w'
       = (if status_ok then None
          else Some (with_list_file (temp_dir m) (sorted_ts_names fs) fs))
    /\ http_log w' = http_log w
    /\ (if status_ok then progress_log w' = progress_log w
        else last_error w' = Some (ErrMerge "CalledProcessError")).
Proof.
  unfold merge_files, merge_files_try.
  rewrite Hdir, ts_file_paths_names, Hinstalled.
  destruct (map (path_join (temp_dir m)) (sorted_ts_names fs))
    as [|p ps] eqn:Hpaths.
  { destruct (sorted_ts_names fs); done. }
  rewrite <- Hpaths.
  fold (with_list_file (temp_dir m) (sorted_ts_names fs) fs).
  rewrite ffmpeg_inputs_names, Hexit.
  destruct status_ok, written; eexists; (split; [reflexivity|]); done.
Qed.

(** X17. A call of [merge_files] that returns [False] has left every segment
    file as it was: the temporary directory is neither removed nor
    created, and no file in it other than [file_list.txt] has changed; no
    HTTP request was made, and the last call of the callback reports the
    merge error. *)
Theorem merge_files_failure_keeps_segments (m : DownloadManager)
    (w w' : World)
    (Hfail : merge_files env m w = (false, w')) :
  only_file_changed "file_list.txt" (temp_files w) (temp_files w')
  /\ http_log w' = http_log w
  /\ exists e, last_error w' = Some (ErrMerge e).
Proof.
  revert Hfail. unfold merge_files, merge_files_try.
  destruct (temp_files w) as [fs|] eqn:Hdir.
  2:{ intros [= <-]. simpl. rewrite Hdir. eauto. }
  assert (forall (t : bytes) n,
            n <> "file_list.txt" ->
            <["file_list.txt" := t]> fs !! n = fs !! n) as Hlist.
  { intros t n Hn. by rewrite lookup_insert_ne. }
  destruct (ts_file_paths _ _) as [|p ps].
  { intros [= <-]. simpl. rewrite Hdir. eauto. }
  destruct (ffmpeg_installed env).
  - destruct (ffmpeg_concat _ _) as [[] [out|]]; intros [= <-]; simpl; eauto.
  - destruct (output_writable env).
    + destruct (copy_files _ _ _ _) as [[] out]; intros [= <-]; simpl; eauto.
    + intros [= <-]. simpl. eauto.
Qed.


(** X18. In the fallback path ([ffmpeg] absent, output writable), when the
    [.ts] files of the directory are exactly the segment files of the
    indices [idxs], all below 100000, the output is the concatenation of
    their contents in ascending index order, in whatever order they were
    written, and the temporary directory is removed. *)
Theorem merge_fallback_ascending_below_100000 (m : DownloadManager)
    (w : World) (fs : gmap string bytes) (idxs : list nat)
    (Hdir : temp_files w = Some fs)
    (Hnoffmpeg : ffmpeg_installed env = false)
    (Hwritable : output_writable env = true)
    (Hascending : StronglySorted lt idxs)
    (Hsmall : Forall (fun i => i < 10 ^ 5) idxs)
    (Hsome : idxs <> [])
    (Hfiles : forall name,
        ends_with ".ts" name = true /\ is_Some (fs !! name)
        <-> exists i, i ∈ idxs /\ name = segment_name i) :
  exists w',
    merge_files env m w = (true, w')
    /\ output_file w'
       = Some (concat (map (fun i => default [] (fs !! segment_name i)) idxs))
    /\ temp_files w' = None.
Proof.
  destruct (merge_files_fallback_index_order env m w fs idxs)
    as (w' & Hmerge & Hout); try done.
  exists w'. split; [done|]. split; [done|].
  by eapply merge_files_true_removes.
Qed.

End MergeMore.

(** X19. Different segment indices never share a file: the file name of line
    69 determines its index, for indices of any size; every such name ends
    in [.ts], so [merge_files] picks it up, and none is the name of the
    list file. *)
Theorem segment_files_distinct (i j : nat) :
  (segment_name i = segment_name j -> i = j)
  /\ ends_with ".ts" (segment_name i) = true
  /\ segment_name i <> "file_list.txt".
Proof.
  split; [apply segment_name_inj|].
  split; [apply segment_name_ts|apply segment_name_not_list_file].
Qed.

(** ** The further properties at concrete scenarios *)

Lemma download_segment_first_success_witness :
  exists w',
    download_segment env_all_succeed (fun _ => false) 1
      "http://host/path/seg1.ts" 3 (init_world empty_world)
    = (Normal (1, None, true), w')
    /\ http_log w'
       = map (ReqSegment 1 "http://host/path/seg1.ts") (rev (seq 0 2))
         ++ http_log (init_world empty_world)
    /\ temp_files w'
       = Some (<[segment_name 1 := nonempty_chunks [[x47]; []; [x40]]]> ∅)
    /\ output_file w' = output_file (init_world empty_world)
    /\ progress_log w' = progress_log (init_world empty_world).
Proof.
  apply (download_segment_first_success env_all_succeed 1
           "http://host/path/seg1.ts" 3 1 (init_world empty_world) ∅
           [[x47]; []; [x40]]).
  - reflexivity.
  - lia.
  - intros r Hr. assert (r = 0) as -> by lia. reflexivity.
  - reflexivity.
Defined.

Lemma download_segment_cancelled_between_attempts_witness :
  exists w',
    download_segment env_segment_2_fails (fun j => 2 <=? j) 2
      "http://host/path/seg2.ts" 3 (init_world empty_world)
    = (Normal (2, Some Cancelled, false), w')
    /\ http_log w'
       = map (ReqSegment 2 "http://host/path/seg2.ts") (rev (seq 0 1))
         ++ http_log (init_world empty_world).
Proof.
  apply (download_segment_cancelled_between_attempts env_segment_2_fails
           (fun j => 2 <=? j) 2 "http://host/path/seg2.ts" 3 1).
  - lia.
  - intros j Hj. apply Nat.leb_gt. lia.
  - reflexivity.
  - intros r Hr. reflexivity.
Defined.

Lemma download_segment_without_directory_witness :
  exists r w',
    download_segment env_all_succeed (fun _ => false) 0
      "http://host/path/seg0.ts" 3 empty_world = (Normal r, w')
    /\ r.2 = false
    /\ temp_files w' = None.
Proof.
  apply (download_segment_without_directory env_all_succeed (fun _ => false) 0
           "http://host/path/seg0.ts" 3 empty_world).
  reflexivity.
Defined.

Lemma parse_m3u8_lines_witness :
  exists m' w',
    parse_m3u8 env_byterange (new_manager scenario_url "/downloads")
      empty_world = (true, m', w')
    /\ ts_urls m' = ["http://host/path/seg0.ts"; "http://host/path/seg1.ts"]
    /\ total m' = 2.
Proof.
  destruct (parse_m3u8_lines env_byterange
              (new_manager scenario_url "/downloads") empty_world true
              byterange_lines (fun ref => "http://host/path/" +:+ ref)
              eq_refl
              ltac:(repeat constructor)
              (fun ref _ => eq_refl)
              ltac:(vm_compute; discriminate))
    as (m' & w' & Hparse & Hurls & Htotal).
  exists m', w'. split; [exact Hparse|]. split.
  - rewrite Hurls. vm_compute. reflexivity.
  - rewrite Htotal. vm_compute. reflexivity.
Defined.

Lemma start_download_counters_witness :
  exists s',
    run env_segment_2_fails 2 (sequential_schedule [3; 3; 7; 3; 3])
      (init_system scenario_url "/downloads" empty_world) = Some s'
    /\ completed (mgr s') = length (yielded s')
    /\ completed (mgr s') <= total (mgr s')
    /\ length (failed_segments (mgr s')) <= completed (mgr s')
    /\ (futures s' <> [] -> 0 < total (mgr s'))
    /\ exists new,
         progress_log (world s') = new ++ progress_log empty_world
         /\ Forall report_in_range new
         /\ StronglySorted (fun p q => p_current q <= p_current p) new.
Proof.
  eexists. split; [vm_compute; reflexivity|].
  apply (start_download_counters env_segment_2_fails 2 scenario_url
           "/downloads" empty_world (sequential_schedule [3; 3; 7; 3; 3])).
  vm_compute. reflexivity.
Defined.

Lemma pool_never_exceeds_max_workers_witness :
  exists s',
    run env_all_succeed 2 schedule_before_stop
      (init_system scenario_url "/downloads" empty_world) = Some s'
    /\ active_count (futures s') = 2
    /\ active_count (futures s') <= 2
    /\ in_flight_count (futures s') <= 2.
Proof.
  eexists. split; [vm_compute; reflexivity|].
  split; [vm_compute; reflexivity|].
  apply (pool_never_exceeds_max_workers env_all_succeed 2 scenario_url
           "/downloads" empty_world schedule_before_stop).
  vm_compute. reflexivity.
Defined.

Lemma stop_during_parse_fetches_nothing_witness :
  exists s s',
    run env_all_succeed 2 [EvMain]
      (init_system scenario_url "/downloads" empty_world) = Some s
    /\ run env_all_succeed 2 schedule_after_early_stop (stop_download s)
       = Some s'
    /\ pc s' = MDone (Normal false)
    /\ segment_requests (http_log (world s'))
       = segment_requests (http_log empty_world)
    /\ temp_files (world s') = Some ∅
    /\ failed_segments (mgr s') = []
    /\ (finished s' = true ->
        exists r, pc s' = MDone r /\ r <> Normal true).
Proof.
  eexists _, _. split; [vm_compute; reflexivity|].
  split; [vm_compute; reflexivity|].
  split; [vm_compute; reflexivity|].
  eapply (stop_during_parse_fetches_nothing env_all_succeed 2 scenario_url
            "/downloads" empty_world [EvMain] schedule_after_early_stop).
  - vm_compute. reflexivity.
  - reflexivity.
  - vm_compute. reflexivity.
Defined.

Lemma start_download_without_workers_witness :
  exists s',
    run env_all_succeed 0 [EvMain; EvMain]
      (init_system scenario_url "/downloads" empty_world) = Some s'
    /\ pc s' = MDone (Raise no_worker_threads)
    /\ total (mgr s') = length five_urls
    /\ http_log (world s') = ReqManifest scenario_url :: http_log empty_world.
Proof.
  exact (proj1 (start_download_without_workers env_all_succeed scenario_url
                  "/downloads" empty_world five_urls
                  ltac:(vm_compute; reflexivity))).
Defined.

Lemma start_download_exceptions_witness :
  exists s',
    run env_all_succeed 2 schedule_stop_while_submitting
      (init_system scenario_url "/downloads" empty_world) = Some s'
    /\ pc s' = MDone (Raise submit_after_shutdown)
    /\ ((2 = 0 /\ submit_after_shutdown = no_worker_threads /\ futures s' = [])
        \/ (2 <> 0 /\ submit_after_shutdown = submit_after_shutdown
            /\ stop_requested (mgr s') = true
            /\ stop_free schedule_stop_while_submitting = false)).
Proof.
  eexists. split; [vm_compute; reflexivity|].
  split; [vm_compute; reflexivity|].
  apply (start_download_exceptions env_all_succeed 2 scenario_url
           "/downloads" empty_world schedule_stop_while_submitting).
  - vm_compute. reflexivity.
  - vm_compute. reflexivity.
Defined.

Lemma merge_files_without_segments_witness :
  merge_files env_all_succeed (new_manager scenario_url "/downloads")
    (init_world empty_world)
  = (false,
     progress_callback 0 0 None (Some (ErrMerge "未找到分片文件"))
       (init_world empty_world)).
Proof.
  apply (merge_files_without_segments env_all_succeed
           (new_manager scenario_url "/downloads") (init_world empty_world) ∅).
  - reflexivity.
  - intros name [b Hb]. rewrite lookup_empty in Hb. discriminate Hb.
Defined.

Lemma merge_files_ffmpeg_witness :
  exists w',
    merge_files (env_ffmpeg true) (new_manager scenario_url "/downloads")
      (world_with_files three_segments) = (true, w')
    /\ output_file w' = Some [x01; x02; x03]
    /\ temp_files w' = None
    /\ http_log w' = http_log (world_with_files three_segments)
    /\ progress_log w' = progress_log (world_with_files three_segments).
Proof.
  apply (merge_files_ffmpeg (env_ffmpeg true)
           (new_manager scenario_url "/downloads")
           (world_with_files three_segments) three_segments true
           (Some [x01; x02; x03])).
  - reflexivity.
  - vm_compute. discriminate.
  - reflexivity.
  - vm_compute. reflexivity.
Defined.

Lemma merge_files_failure_keeps_segments_witness :
  exists w',
    merge_files (env_ffmpeg false) (new_manager scenario_url "/downloads")
      (world_with_files three_segments) = (false, w')
    /\ only_file_changed "file_list.txt"
         (temp_files (world_with_files three_segments)) (temp_files w')
    /\ http_log w' = http_log (world_with_files three_segments)
    /\ exists e, last_error w' = Some (ErrMerge e).
Proof.
  eexists. split; [vm_compute; reflexivity|].
  eapply (merge_files_failure_keeps_segments (env_ffmpeg false)
            (new_manager scenario_url "/downloads")
            (world_with_files three_segments)).
  vm_compute. reflexivity.
Defined.

Lemma three_segments_files name :
  ends_with ".ts" name = true /\ is_Some (three_segments !! name)
  <-> exists i, i ∈ [0; 1; 2] /\ name = segment_name i.
Proof.
  split.
  - intros [_ [b Hb]]. unfold three_segments in Hb.
    apply lookup_insert_Some in Hb as [[<- _]|[_ Hb]];
      [exists 1; split; [set_solver|done]|].
    apply lookup_insert_Some in Hb as [[<- _]|[_ Hb]];
      [exists 0; split; [set_solver|done]|].
    apply lookup_insert_Some in Hb as [[<- _]|[_ Hb]];
      [exists 2; split; [set_solver|done]|].
    rewrite lookup_empty in Hb. discriminate Hb.
  - intros (i & Hi & ->). split; [apply segment_name_ts|].
    repeat (apply elem_of_cons in Hi as [->|Hi];
            [vm_compute; eauto|]).
    by apply not_elem_of_nil in Hi.
Defined.

Lemma merge_fallback_ascending_below_100000_witness :
  exists w',
    merge_files (scenario_env (Raise "offline") (fun _ _ => FetchRaise "offline"))
      (new_manager scenario_url "/downloads") (world_with_files three_segments)
    = (true, w')
    /\ output_file w'
       = Some (concat (map (fun i => default [] (three_segments !! segment_name i))
                         [0; 1; 2]))
    /\ temp_files w' = None.
Proof.
  apply (merge_fallback_ascending_below_100000
           (scenario_env (Raise "offline") (fun _ _ => FetchRaise "offline"))
           (new_manager scenario_url "/downloads")
           (world_with_files three_segments) three_segments [0; 1; 2]).
  - reflexivity.
  - reflexivity.
  - reflexivity.
  - repeat constructor.
  - apply Forall_forall. intros i Hi. apply Nat.ltb_lt.
    repeat (apply elem_of_cons in Hi as [->|Hi]; [vm_compute; reflexivity|]).
    by apply not_elem_of_nil in Hi.
  - discriminate.
  - exact three_segments_files.
Defined.

Lemma stop_before_start_is_forgotten_witness :
  exists s',
    run env_segment_2_fails 2
      (repeat EvStop 2
       ++ EvMain :: tail (sequential_schedule [3; 3; 7; 3; 3]))
      (init_system scenario_url "/downloads" empty_world) = Some s'
    /\ finished s' = true
    /\ (forall sched0,
          run env_segment_2_fails 2 (repeat EvStop 2 ++ EvMain :: sched0)
            (init_system scenario_url "/downloads" empty_world)
          = run env_segment_2_fails 2 (EvMain :: sched0)
              (init_system scenario_url "/downloads" empty_world))
    /\ stop_requested (mgr s') = false
    /\ completed (mgr s') = 5
    /\ pc s' = MDone (Normal (bool_decide (failed_segments (mgr s') = [])))
    /\ failed_segments (mgr s')
       ≡ₚ expected_failures env_segment_2_fails five_urls.
Proof.
  eexists. split; [vm_compute; reflexivity|]. split; [vm_compute; reflexivity|].
  apply (stop_before_start_is_forgotten env_segment_2_fails 2 scenario_url
           "/downloads" empty_world 2
           (tail (sequential_schedule [3; 3; 7; 3; 3])) five_urls);
    vm_compute; (reflexivity || discriminate).
Defined.

(** ** The window: buttons, threads and what it shows *)

Section Window.
Import M3U8DownloaderGUI.
Context (env : GuiEnv).

Ltac gui_side :=
  try done; try lia;
  try (intros;
       match goal with
       | H : _ ∈ [] |- _ => by apply not_elem_of_nil in H
       end).

Lemma chosen_workers_range text : 1 <= chosen_workers env text <= 50.
Proof. unfold chosen_workers. destruct (py_int env text); lia. Qed.

Lemma gui_inv_new_window : gui_inv env new_window.
Proof.
  constructor; simpl; gui_side.
Qed.

Lemma gui_inv_start_download g :
  gui_inv env g -> download_btn (buttons g) = true ->
  gui_inv env (start_download env g).
Proof.
  intros [Hone Hdl Hbr Hc Hcur Hm Hmg Hst Hcr Hpv] Hbtn.
  pose proof (proj1 Hdl Hbtn) as Hnil.
  unfold start_download.
  destruct (nonempty (strip (url_entry g))) eqn:Hurl; simpl;
    [|constructor; simpl; done].
  destruct (nonempty (strip (path_entry g))) eqn:Hpath; simpl;
    [|constructor; simpl; done].
  destruct (isdir env (strip (path_entry g))) eqn:Hisdir; simpl;
    [|constructor; simpl; done].
  destruct (init_raises env _ _); [constructor; done|].
  constructor; simpl; rewrite ?Hnil; simpl; try done; try lia.
  - intros t [->|Hin]%elem_of_cons.
    + simpl. split; [done|]. split; [apply chosen_workers_range|done].
    + by apply not_elem_of_nil in Hin.
  - intros id Hin. specialize (Hst id Hin). lia.
  - intros id [= <-]. lia.
Qed.

Lemma gui_inv_update_progress current tot message error m g :
  gui_inv env g ->
  gui_inv env (update_progress env current tot message error m g).
Proof.
  intros [Hone Hdl Hbr Hc Hcur Hm Hmg Hst Hcr Hpv].
  unfold update_progress.
  destruct m, error, message; destruct (0 <? tot);
    constructor; cbn -[Nat.min]; gui_side.
Qed.

Lemma gui_inv_download_thread r m g :
  gui_inv env g -> download_threads g <> [] ->
  gui_inv env (download_thread env r m (thread_reported g)).
Proof.
  intros Hinv Hrun.
  destruct Hinv as [Hone Hdl Hbr Hc Hcur Hm Hmg Hst Hcr Hpv].
  assert (tail (download_threads g) = []) as Htail.
  { destruct (download_threads g) as [|t [|t' ts]]; simpl in *; [done|done|lia]. }
  assert (download_manager g <> None) as Hman.
  { destruct (download_threads g) as [|t ts]; [done|].
    destruct (Hcur t) as [-> _]; [left|done]. }
  unfold download_thread.
  destruct r as [[]|e]; unfold download_success, download_failed,
    update_progress; simpl;
    repeat (match goal with
            | |- context [if ?b then _ else _] => destruct b
            | |- context [match failed_segments m with _ => _ end] =>
                destruct (failed_segments m)
            end; simpl);
    constructor; simpl; rewrite ?Htail; simpl; gui_side.
Qed.

Lemma gui_inv_step e g g' :
  gui_inv env g -> gui_step env e g = Some g' -> gui_inv env g'.
Proof.
  intros Hinv.
  destruct e as [|chosen| | |url path threads|current tot message error m|r m|r]; simpl.
  - destruct (download_btn (buttons g)) eqn:Hb; [|done].
    intros [= <-]. by apply gui_inv_start_download.
  - destruct (browse_btn (buttons g)); [|done]. intros [= <-].
    unfold choose_path. destruct (nonempty chosen); [|done].
    destruct Hinv. constructor; done.
  - destruct (cancel_btn (buttons g)) eqn:Hb; [|done]. intros [= <-].
    unfold cancel_download.
    destruct (download_manager g) as [id|] eqn:Hman; [|done].
    destruct Hinv as [Hone Hdl Hbr Hc Hcur Hm Hmg Hst Hcr Hpv].
    rewrite Hman in *.
    constructor; simpl; try done.
    intros j [->|Hj]%elem_of_cons; [by apply Hcr|by apply Hst].
  - destruct (merge_btn (buttons g)) eqn:Hb; [|done]. intros [= <-].
    destruct Hinv as [Hone Hdl Hbr Hc Hcur Hm Hmg Hst Hcr Hpv].
    unfold merge_files.
    destruct (download_manager g) as [id|] eqn:Hman.
    + constructor; simpl; rewrite ?Hman; done.
    + by destruct (Hm Hb).
  - intros [= <-]. destruct Hinv. constructor; done.
  - destruct (download_threads g) eqn:Ht, (merge_threads g) eqn:Hmt;
      try done; intros [= <-]; by apply gui_inv_update_progress.
  - destruct (download_threads g) eqn:Ht; [done|]. intros [= <-].
    apply gui_inv_download_thread; [done|]. by rewrite Ht.
  - destruct (merge_threads g) eqn:Hmt; [done|]. intros [= <-].
    destruct Hinv as [Hone Hdl Hbr Hc Hcur Hm Hmg Hst Hcr Hpv].
    assert (download_manager g <> None) as Hman by (apply Hmg; lia).
    unfold merge_thread, merge_success, merge_failed.
    destruct r as [[]|e]; constructor; simpl; done.
Qed.

Lemma gui_inv_run events g g' :
  gui_inv env g -> gui_run env events g = Some g' -> gui_inv env g'.
Proof.
  revert g. induction events as [|e events IH]; intros g Hinv; simpl.
  - by intros [= <-].
  - destruct (gui_step env e g) as [g1|] eqn:Hstep; [|done].
    apply IH. by eapply gui_inv_step.
Qed.

End Window.

Section WindowClaims.
Import M3U8DownloaderGUI.

Lemma failures_of_nil order : failures_of [] order = [].
Proof.
  unfold failures_of. induction order as [|i order IH]; [done|].
  csimpl. clear IH. by induction order.
Qed.

Lemma never_no_task_step env e g g' :
  gui_inv env g -> never_no_task g ->
  gui_step env e g = Some g' -> never_no_task g'.
Proof.
  unfold never_no_task. intros Hinv Hlog.
  destruct e as [|chosen| | |url path threads|current tot message error m|r m|r]; simpl.
  - destruct (download_btn (buttons g)); [|done]. intros [= <-].
    unfold start_download.
    repeat (match goal with
            | |- context [if ?b then _ else _] => destruct b
            end; simpl); repeat constructor; done.
  - destruct (browse_btn (buttons g)); [|done]. intros [= <-].
    unfold choose_path. by destruct (nonempty chosen).
  - destruct (cancel_btn (buttons g)); [|done]. intros [= <-].
    unfold cancel_download. destruct (download_manager g); [|done].
    simpl. by constructor.
  - destruct (merge_btn (buttons g)) eqn:Hb; [|done]. intros [= <-].
    unfold merge_files.
    destruct (download_manager g) eqn:Hman.
    + simpl. by constructor.
    + destruct Hinv as [_ _ _ _ _ Hm _ _ _ _]. by destruct (Hm Hb).
  - by intros [= <-].
  - destruct (download_threads g), (merge_threads g); try done;
      intros [= <-]; unfold update_progress;
      destruct m, error, message; try destruct (0 <? tot); done.
  - destruct (download_threads g); [done|]. intros [= <-].
    unfold download_thread, download_success, download_failed,
      update_progress.
    destruct r as [[]|e]; simpl;
      repeat (match goal with
              | |- context [if ?b then _ else _] => destruct b
              | |- context [match failed_segments m with _ => _ end] =>
                  destruct (failed_segments m)
              end; simpl); by constructor.
  - destruct (merge_threads g); [done|]. intros [= <-].
    unfold merge_thread, merge_success, merge_failed.
    destruct r as [[]|e]; simpl; repeat constructor; done.
Qed.

Lemma never_no_task_run env events g g' :
  gui_inv env g -> never_no_task g ->
  gui_run env events g = Some g' -> never_no_task g'.
Proof.
  revert g. induction events as [|e events IH]; intros g Hinv Hlog; simpl.
  - by intros [= <-].
  - destruct (gui_step env e g) as [g1|] eqn:Hstep; [|done].
    apply IH; [by eapply gui_inv_step|by eapply never_no_task_step].
Qed.

End WindowClaims.

(** X20. However the user clicks and edits and whenever the threads report
    back, at most one download thread exists at a time; the download
    button (and with it the browse button) is enabled exactly when none
    exists; when the cancel button is enabled a download thread exists and
    it runs the manager [self.download_manager] refers to, so a click
    stops the download that is running; and every download thread was
    started with a non-blank, trimmed URL and a non-blank path that is a
    directory. *)
Theorem window_single_download (env : M3U8DownloaderGUI.GuiEnv)
    (events : list M3U8DownloaderGUI.gui_event) (g : M3U8DownloaderGUI.Gui)
    (Hgui : M3U8DownloaderGUI.gui_run env events M3U8DownloaderGUI.new_window
            = Some g) :
  length (M3U8DownloaderGUI.download_threads g) <= 1
  /\ (M3U8DownloaderGUI.download_btn (M3U8DownloaderGUI.buttons g) = true
      <-> M3U8DownloaderGUI.download_threads g = [])
  /\ M3U8DownloaderGUI.browse_btn (M3U8DownloaderGUI.buttons g)
     = M3U8DownloaderGUI.download_btn (M3U8DownloaderGUI.buttons g)
  /\ (M3U8DownloaderGUI.cancel_btn (M3U8DownloaderGUI.buttons g) = true ->
      exists t,
        M3U8DownloaderGUI.download_threads g = [t]
        /\ M3U8DownloaderGUI.download_manager g
           = Some (M3U8DownloaderGUI.dt_manager t))
  /\ forall t, t ∈ M3U8DownloaderGUI.download_threads g ->
       nonempty (M3U8DownloaderGUI.dt_url t) = true
       /\ nonempty (M3U8DownloaderGUI.dt_path t) = true
       /\ M3U8DownloaderGUI.isdir env (M3U8DownloaderGUI.dt_path t) = true.
Proof.
  destruct (gui_inv_run env events _ _ (gui_inv_new_window env) Hgui)
    as [Hone Hdl Hbr Hc Hcur Hm Hmg Hst Hcr Hpv].
  split; [done|]. split; [done|]. split; [done|]. split.
  - intros Hb. specialize (Hc Hb).
    destruct (M3U8DownloaderGUI.download_threads g) as [|t [|t' ts]] eqn:Ht;
      [done| |simpl in Hone; lia].
    exists t. split; [done|]. apply Hcur. left.
  - intros t Ht. by destruct (Hcur t Ht) as (_ & _ & ? & ? & ?).
Qed.

(** X21. However the user clicks, the merge button is enabled, and a merge
    thread exists, only when a download manager exists. The error of lines
    492-495 (no download task) is therefore never logged, and a click on
    the enabled merge button always disables it and starts a merge
    thread. *)
Theorem window_merge_has_manager (env : M3U8DownloaderGUI.GuiEnv)
    (events : list M3U8DownloaderGUI.gui_event) (g : M3U8DownloaderGUI.Gui)
    (Hgui : M3U8DownloaderGUI.gui_run env events M3U8DownloaderGUI.new_window
            = Some g) :
  (M3U8DownloaderGUI.merge_btn (M3U8DownloaderGUI.buttons g) = true ->
   M3U8DownloaderGUI.download_manager g <> None)
  /\ (M3U8DownloaderGUI.merge_threads g <> 0 ->
      M3U8DownloaderGUI.download_manager g <> None)
  /\ M3U8DownloaderGUI.never_no_task g
  /\ forall g',
       M3U8DownloaderGUI.gui_step env M3U8DownloaderGUI.ClickMerge g
       = Some g' ->
       M3U8DownloaderGUI.merge_threads g'
       = S (M3U8DownloaderGUI.merge_threads g)
       /\ M3U8DownloaderGUI.merge_btn (M3U8DownloaderGUI.buttons g') = false.
Proof.
  pose proof (gui_inv_run env events _ _ (gui_inv_new_window env) Hgui)
    as Hinv.
  split; [by destruct Hinv|]. split; [by destruct Hinv|]. split.
  - eapply never_no_task_run; [apply gui_inv_new_window| |exact Hgui].
    constructor.
  - intros g'. simpl.
    destruct (M3U8DownloaderGUI.merge_btn (M3U8DownloaderGUI.buttons g))
      eqn:Hb; [|done].
    intros [= <-]. unfold M3U8DownloaderGUI.merge_files.
    destruct (M3U8DownloaderGUI.download_manager g) eqn:Hman; [done|].
    destruct Hinv as [_ _ _ _ _ Hm _ _ _ _]. by destruct (Hm Hb).
Qed.

(** X22. Every download the window starts runs with between 1 and 50 pool
    threads, whatever the spin box holds (text that is no number gives 10).
    So [start_download] of its manager never raises the [ValueError] of a
    pool without threads, never runs more than 50 calls at a time, and,
    as long as the user does not cancel, raises nothing at all. *)
Theorem window_download_has_workers (genv : M3U8DownloaderGUI.GuiEnv)
    (events : list M3U8DownloaderGUI.gui_event) (g : M3U8DownloaderGUI.Gui)
    (t : M3U8DownloaderGUI.DownloadThread) (env : Env) (w0 : World)
    (sched : list event) (s' : System)
    (Hgui : M3U8DownloaderGUI.gui_run genv events M3U8DownloaderGUI.new_window
            = Some g)
    (Hthread : t ∈ M3U8DownloaderGUI.download_threads g)
    (Hrun : run env (M3U8DownloaderGUI.dt_workers t) sched
              (init_system (M3U8DownloaderGUI.dt_url t)
                 (M3U8DownloaderGUI.dt_path t) w0) = Some s') :
  1 <= M3U8DownloaderGUI.dt_workers t <= 50
  /\ active_count (futures s') <= 50
  /\ pc s' <> MDone (Raise no_worker_threads)
  /\ (stop_free sched = true -> forall e, pc s' <> MDone (Raise e)).
Proof.
  destruct (gui_inv_run genv events _ _ (gui_inv_new_window genv) Hgui)
    as [_ _ _ _ Hcur _ _ _ _ _].
  destruct (Hcur t Hthread) as (_ & Hrange & _).
  split; [done|]. split.
  { assert (active_count (futures s') <= M3U8DownloaderGUI.dt_workers t).
    { eapply pool_run; [|exact Hrun]. unfold active_count. simpl. lia. }
    lia. }
  assert (raise_inv (M3U8DownloaderGUI.dt_workers t) s') as Hinv.
  { eapply raise_run; [apply reach_init| |exact Hrun]. done. }
  unfold raise_inv in Hinv. split.
  - intros Hpc. rewrite Hpc in Hinv.
    destruct (Hinv _ eq_refl) as [(? & _)|(_ & ? & _)]; [lia|done].
  - intros Hfree e Hpc. rewrite Hpc in Hinv.
    destruct (Hinv _ eq_refl) as [(? & _)|(_ & _ & Hflag)]; [lia|].
    pose proof (nostop_run env _ _ sched _ _ Hfree
                  (nostop_init env _ _ _ w0) Hrun) as Hns.
    destruct Hns as [_ Hclear _ _ _ _ _]. congruence.
Qed.

(** X23. What the window shows when a download that was not cancelled has
    ended (at least one pool thread): the buttons for download, browse and
    merge are enabled and cancel is disabled; if the manifest could not be
    parsed the status reads that the download failed and the failure
    count is 0; otherwise the counter label shows N/N for the N segments
    of the manifest, and the status reads that all segments were
    downloaded when no segment failed all its attempts, and else that the
    download failed in part, with the number of such segments, which is
    also the failure count shown. *)
Theorem window_reports_outcome (env : Env)
    (genv : M3U8DownloaderGUI.GuiEnv) (max_workers : nat)
    (url path : string) (w0 : World) (sched : list event) (s' : System)
    (r : outcome bool) (g : M3U8DownloaderGUI.Gui)
    (Hworkers : max_workers <> 0)
    (Hfree : stop_free sched = true)
    (Hrun : run env max_workers sched (init_system url path w0) = Some s')
    (Hend : pc s' = MDone r) :
  let g' := M3U8DownloaderGUI.download_thread genv r (mgr s') g in
  M3U8DownloaderGUI.buttons g' = M3U8DownloaderGUI.buttons_after_download
  /\ match manifest_urls env url with
     | Raise _ =>
         M3U8DownloaderGUI.status_label (M3U8DownloaderGUI.labels g')
         = M3U8DownloaderGUI.TxtFailed
         /\ M3U8DownloaderGUI.failed_label (M3U8DownloaderGUI.labels g') = 0
     | Normal urls =>
         M3U8DownloaderGUI.completed_label (M3U8DownloaderGUI.labels g')
         = (length urls, length urls)
         /\ match expected_failures env urls with
            | [] =>
                M3U8DownloaderGUI.status_label (M3U8DownloaderGUI.labels g')
                = M3U8DownloaderGUI.TxtAllDone
            | l =>
                M3U8DownloaderGUI.status_label (M3U8DownloaderGUI.labels g')
                = M3U8DownloaderGUI.TxtPartFailed (length l)
                /\ M3U8DownloaderGUI.failed_label
                     (M3U8DownloaderGUI.labels g') = length l
            end
     end.
Proof.
  pose proof (nostop_run env max_workers url sched _ _ Hfree
                (nostop_init env max_workers url path w0) Hrun) as Hinv.
  assert (finished s' = true) as Hfin by (unfold finished; by rewrite Hend).
  destruct (manifest_urls env url) as [urls|e0] eqn:Hman.
  - destruct (nostop_finished env max_workers url s' urls Hinv Hfin Hman
                Hworkers)
      as (_ & Htot & Hcompl & Hpc & _ & Hperm & _).
    destruct Hinv as [_ Hflag _ _ _ _ _].
    rewrite Hend in Hpc. injection Hpc as ->.
    pose proof (Permutation_length Hperm) as Hlen.
    unfold M3U8DownloaderGUI.download_thread.
    case_bool_decide as Hnil.
    + rewrite Hnil in Hperm. apply Permutation_nil in Hperm. rewrite Hperm.
      unfold M3U8DownloaderGUI.download_success,
        M3U8DownloaderGUI.counters_of. simpl. by rewrite Hcompl, Htot.
    + unfold M3U8DownloaderGUI.download_failed,
        M3U8DownloaderGUI.counters_of. rewrite Hflag.
      destruct (failed_segments (mgr s')) as [|f fs] eqn:Hf; [done|].
      destruct (expected_failures env urls) as [|x l] eqn:Hexp;
        [by apply Permutation_nil_r in Hperm|].
      simpl. rewrite Hcompl, Htot. simpl in Hlen. by rewrite Hlen.
  - destruct Hinv as [_ Hflag _ _ _ Hfailed Hpc].
    rewrite Hend in Hpc. simpl in Hpc.
    destruct Hpc as [(e & _ & -> & Hfut & _)|[(? & _)|(Hman' & _)]];
      [|done|congruence].
    rewrite Hfut, failures_of_nil in Hfailed.
    unfold M3U8DownloaderGUI.download_thread,
      M3U8DownloaderGUI.download_failed. rewrite Hflag, Hfailed. done.
Qed.

(** X24. When [stop_download] was called while segments were outstanding,
    then however [start_download] ends (returning [False] or raising), the
    callbacks of the download thread leave the status label and the status
    bar at the cancellation text, log it as a warning, and set the buttons
    as after any download: merge enabled, cancel disabled. *)
Theorem window_reports_cancellation (env : Env)
    (genv : M3U8DownloaderGUI.GuiEnv) (max_workers : nat)
    (url path : string) (w0 : World) (pre post : list event)
    (s s' : System) (r : outcome bool) (g : M3U8DownloaderGUI.Gui)
    (Hpre : run env max_workers pre (init_system url path w0) = Some s)
    (Houtstanding : completed (mgr s) < total (mgr s))
    (Hpost : run env max_workers post (stop_download s) = Some s')
    (Hend : pc s' = MDone r) :
  let g' := M3U8DownloaderGUI.download_thread genv r (mgr s') g in
  M3U8DownloaderGUI.status_label (M3U8DownloaderGUI.labels g')
  = M3U8DownloaderGUI.TxtCancelled
  /\ M3U8DownloaderGUI.status_bar (M3U8DownloaderGUI.labels g')
     = M3U8DownloaderGUI.TxtCancelled
  /\ head (M3U8DownloaderGUI.log_text g')
     = Some (M3U8DownloaderGUI.LogWarning, M3U8DownloaderGUI.TxtCancelled)
  /\ M3U8DownloaderGUI.buttons g' = M3U8DownloaderGUI.buttons_after_download.
Proof.
  pose proof (reach_run env max_workers pre _ _
                (reach_init max_workers url path w0) Hpre) as Hreach.
  pose proof (cancelled_start max_workers s Hreach Houtstanding) as Hstart.
  assert (reach_inv max_workers (stop_download s)) as Hreach'.
  { by apply (reach_step env max_workers EvStop s). }
  destruct (cancelled_run env max_workers post _ _ Hreach' Hstart Hpost)
    as [[Hflag Hcase] _].
  rewrite Hend in Hcase. destruct Hcase as [Hr _].
  unfold M3U8DownloaderGUI.download_thread.
  destruct r as [[]|e]; [done| |];
    unfold M3U8DownloaderGUI.download_failed; rewrite Hflag; done.
Qed.

Section WindowThreads.
Import M3U8DownloaderGUI.

(** X25. The window does not keep merges and downloads apart. In every
    state of the window in which the download and the merge button are
    both enabled (as after a download), a click on merge leaves the
    download button enabled: with a URL and an existing directory
    entered, a second download is started while the merge thread runs,
    and its new manager replaces [self.download_manager]. However that
    download ends, the merge button is enabled again while the first
    merge still runs, and a second merge thread is started beside it,
    the download button being enabled once more. *)
Theorem window_allows_merge_during_download (env : GuiEnv)
    (events : list gui_event) (g : Gui) (url path threads : string)
    (Hgui : gui_run env events new_window = Some g)
    (Hdownload : download_btn (buttons g) = true)
    (Hmerge : merge_btn (buttons g) = true)
    (Hurl : nonempty (strip url) = true)
    (Hpath : nonempty (strip path) = true)
    (Hdir : isdir env (strip path) = true)
    (Hinit : init_raises env (strip url) (strip path) = false) :
  exists g1,
    gui_run env [ClickMerge; Edit url path threads; ClickDownload] g = Some g1
    /\ merge_threads g1 = S (merge_threads g)
    /\ (exists t, download_threads g1 = [t]
                  /\ dt_manager t = managers_created g)
    /\ download_manager g1 = Some (managers_created g)
    /\ download_manager g1 <> download_manager g
    /\ forall r m, exists g2,
         gui_run env [DownloadThreadEnds r m; ClickMerge] g1 = Some g2
         /\ merge_threads g2 = S (S (merge_threads g))
         /\ download_btn (buttons g2) = true.
Proof.
  destruct (gui_inv_run env events _ _ (gui_inv_new_window env) Hgui)
    as [_ Hdl _ _ _ Hm _ _ Hcr _].
  apply Hdl in Hdownload as Hnone. specialize (Hm Hmerge).
  destruct (download_manager g) as [id|] eqn:Hman; [|done].
  specialize (Hcr id eq_refl).
  destruct g as [ue pe tv [db bb cb mb] lbl lg dm mc dts mts st].
  cbn in Hdownload, Hmerge, Hnone, Hman, Hcr. subst.
  exists (start_download env
            {| url_entry := url; path_entry := path; thread_var := threads;
               buttons := {| download_btn := true; browse_btn := bb;
                             cancel_btn := cb; merge_btn := false |};
               labels := {| progress_value := progress_value lbl;
                            completed_label := completed_label lbl;
                            failed_label := failed_label lbl;
                            status_label := TxtMerging;
                            status_bar := TxtLog TxtLogMergeStart |};
               log_text := (LogInfo, TxtLogMergeStart) :: lg;
               download_manager := Some id; managers_created := mc;
               download_threads := []; merge_threads := S mts;
               stopped := st |}).
  split; [reflexivity|].
  unfold start_download. cbn -[strip]. rewrite Hurl, Hpath, Hdir, Hinit.
  cbn -[strip]. split; [done|]. split; [eauto|]. split; [done|].
  split; [intros [= ->]; lia|].
  intros r m.
  destruct r as [[]|e]; (eexists; split; [cbn -[strip]; reflexivity|]);
    unfold download_failed;
    destruct (stop_requested m), (failed_segments m); cbn -[strip]; done.
Qed.

End WindowThreads.

(** X26. The value of the progress bar never exceeds 100, whatever counts the
    progress callback is called with and whatever the floating-point
    expression of line 536 evaluates to. *)
Theorem window_progress_bar_in_range (env : M3U8DownloaderGUI.GuiEnv)
    (events : list M3U8DownloaderGUI.gui_event) (g : M3U8DownloaderGUI.Gui)
    (Hgui : M3U8DownloaderGUI.gui_run env events M3U8DownloaderGUI.new_window
            = Some g) :
  M3U8DownloaderGUI.progress_value (M3U8DownloaderGUI.labels g) <= 100.
Proof.
  by destruct (gui_inv_run env events _ _ (gui_inv_new_window env) Hgui).
Qed.

(** A download was started and runs. *)
Lemma window_single_download_witness :
  exists g,
    M3U8DownloaderGUI.gui_run window_env (events_start "10")
      M3U8DownloaderGUI.new_window = Some g
    /\ M3U8DownloaderGUI.cancel_btn (M3U8DownloaderGUI.buttons g) = true
    /\ length (M3U8DownloaderGUI.download_threads g) <= 1
    /\ (M3U8DownloaderGUI.download_btn (M3U8DownloaderGUI.buttons g) = true
        <-> M3U8DownloaderGUI.download_threads g = [])
    /\ M3U8DownloaderGUI.browse_btn (M3U8DownloaderGUI.buttons g)
       = M3U8DownloaderGUI.download_btn (M3U8DownloaderGUI.buttons g)
    /\ (M3U8DownloaderGUI.cancel_btn (M3U8DownloaderGUI.buttons g) = true ->
        exists t,
          M3U8DownloaderGUI.download_threads g = [t]
          /\ M3U8DownloaderGUI.download_manager g
             = Some (M3U8DownloaderGUI.dt_manager t))
    /\ forall t, t ∈ M3U8DownloaderGUI.download_threads g ->
         nonempty (M3U8DownloaderGUI.dt_url t) = true
         /\ nonempty (M3U8DownloaderGUI.dt_path t) = true
         /\ M3U8DownloaderGUI.isdir window_env (M3U8DownloaderGUI.dt_path t)
            = true.
Proof.
  eexists. split; [vm_compute; reflexivity|]. split; [reflexivity|].
  apply (window_single_download window_env (events_start "10")).
  vm_compute. reflexivity.
Defined.

(** A download has ended: the merge button is enabled. *)
Lemma window_merge_has_manager_witness :
  exists g,
    M3U8DownloaderGUI.gui_run window_env
      (events_start "10"
       ++ [M3U8DownloaderGUI.DownloadThreadEnds (Normal true)
             (new_manager scenario_url "/downloads")])
      M3U8DownloaderGUI.new_window = Some g
    /\ M3U8DownloaderGUI.merge_btn (M3U8DownloaderGUI.buttons g) = true
    /\ (M3U8DownloaderGUI.merge_btn (M3U8DownloaderGUI.buttons g) = true ->
        M3U8DownloaderGUI.download_manager g <> None)
    /\ (M3U8DownloaderGUI.merge_threads g <> 0 ->
        M3U8DownloaderGUI.download_manager g <> None)
    /\ M3U8DownloaderGUI.never_no_task g
    /\ forall g',
         M3U8DownloaderGUI.gui_step window_env M3U8DownloaderGUI.ClickMerge g
         = Some g' ->
         M3U8DownloaderGUI.merge_threads g'
         = S (M3U8DownloaderGUI.merge_threads g)
         /\ M3U8DownloaderGUI.merge_btn (M3U8DownloaderGUI.buttons g') = false.
Proof.
  eexists. split; [vm_compute; reflexivity|]. split; [reflexivity|].
  apply (window_merge_has_manager window_env
           (events_start "10"
            ++ [M3U8DownloaderGUI.DownloadThreadEnds (Normal true)
                  (new_manager scenario_url "/downloads")])).
  vm_compute. reflexivity.
Defined.

(** The spin box reads 400: the download runs with 50 threads. *)
Lemma window_download_has_workers_witness :
  exists g s',
    M3U8DownloaderGUI.gui_run window_env (events_start "400")
      M3U8DownloaderGUI.new_window = Some g
    /\ M3U8DownloaderGUI.download_threads g = [scenario_thread]
    /\ run env_all_succeed 50 (sequential_schedule [3; 5; 3; 3; 3])
         (init_system scenario_url "/downloads" empty_world) = Some s'
    /\ 1 <= 50 <= 50
    /\ active_count (futures s') <= 50
    /\ pc s' <> MDone (Raise no_worker_threads)
    /\ (stop_free (sequential_schedule [3; 5; 3; 3; 3]) = true ->
        forall e, pc s' <> MDone (Raise e)).
Proof.
  eexists _, _. split; [vm_compute; reflexivity|].
  split; [vm_compute; reflexivity|].
  split; [vm_compute; reflexivity|].
  eapply (window_download_has_workers window_env (events_start "400") _
            scenario_thread env_all_succeed empty_world
            (sequential_schedule [3; 5; 3; 3; 3])).
  - vm_compute. reflexivity.
  - vm_compute. left.
  - vm_compute. reflexivity.
Defined.

(** Scenario B: the window shows the partial failure of one segment. *)
Lemma window_reports_outcome_witness :
  exists s',
    run env_segment_2_fails 2 (sequential_schedule [3; 3; 7; 3; 3])
      (init_system scenario_url "/downloads" empty_world) = Some s'
    /\ pc s' = MDone (Normal false)
    /\ M3U8DownloaderGUI.status_label
         (M3U8DownloaderGUI.labels
            (M3U8DownloaderGUI.download_thread window_env (Normal false)
               (mgr s') M3U8DownloaderGUI.new_window))
       = M3U8DownloaderGUI.TxtPartFailed 1
    /\ M3U8DownloaderGUI.completed_label
         (M3U8DownloaderGUI.labels
            (M3U8DownloaderGUI.download_thread window_env (Normal false)
               (mgr s') M3U8DownloaderGUI.new_window))
       = (5, 5).
Proof.
  eexists. split; [vm_compute; reflexivity|]. split; [vm_compute; reflexivity|].
  pose proof (window_reports_outcome env_segment_2_fails window_env 2
                scenario_url "/downloads" empty_world
                (sequential_schedule [3; 3; 7; 3; 3]) _ (Normal false)
                M3U8DownloaderGUI.new_window
                ltac:(discriminate) eq_refl
                ltac:(vm_compute; reflexivity) eq_refl) as H.
  vm_compute in H. vm_compute.
  destruct H as (_ & H1 & H2 & _). split; [exact H2|exact H1].
Defined.

(** Scenario C: the window shows the cancellation. *)
Lemma window_reports_cancellation_witness :
  exists s s',
    run env_all_succeed 2 schedule_before_stop
      (init_system scenario_url "/downloads" empty_world) = Some s
    /\ run env_all_succeed 2 schedule_after_stop (stop_download s) = Some s'
    /\ pc s' = MDone (Normal false)
    /\ M3U8DownloaderGUI.status_label
         (M3U8DownloaderGUI.labels
            (M3U8DownloaderGUI.download_thread window_env (Normal false)
               (mgr s') M3U8DownloaderGUI.new_window))
       = M3U8DownloaderGUI.TxtCancelled.
Proof.
  eexists _, _. split; [vm_compute; reflexivity|].
  split; [vm_compute; reflexivity|]. split; [vm_compute; reflexivity|].
  refine (proj1 (window_reports_cancellation env_all_succeed window_env 2
                   scenario_url "/downloads" empty_world
                   schedule_before_stop schedule_after_stop _ _
                   (Normal false) M3U8DownloaderGUI.new_window _ _ _ _)).
  - vm_compute. reflexivity.
  - apply Nat.ltb_lt. vm_compute. reflexivity.
  - vm_compute. reflexivity.
  - vm_compute. reflexivity.
Defined.

(** A callback that reports 7 of 5: the bar stays at 100. *)
Lemma window_progress_bar_in_range_witness :
  exists g,
    M3U8DownloaderGUI.gui_run window_env
      (events_start "10"
       ++ [M3U8DownloaderGUI.Progress 7 5 None None None])
      M3U8DownloaderGUI.new_window = Some g
    /\ M3U8DownloaderGUI.progress_value (M3U8DownloaderGUI.labels g) = 100
    /\ M3U8DownloaderGUI.progress_value (M3U8DownloaderGUI.labels g) <= 100.
Proof.
  eexists. split; [vm_compute; reflexivity|]. split; [vm_compute; reflexivity|].
  apply (window_progress_bar_in_range window_env
           (events_start "10"
            ++ [M3U8DownloaderGUI.Progress 7 5 None None None])).
  vm_compute. reflexivity.
Defined.

(** A second download beside the merge of the first. *)
Lemma window_allows_merge_during_download_witness :
  exists g g1,
    M3U8DownloaderGUI.gui_run window_env events_download_ended
      M3U8DownloaderGUI.new_window = Some g
    /\ M3U8DownloaderGUI.gui_run window_env
         [M3U8DownloaderGUI.ClickMerge;
          M3U8DownloaderGUI.Edit "http://host/other/index.m3u8"
            "/downloads" "10";
          M3U8DownloaderGUI.ClickDownload] g = Some g1
    /\ M3U8DownloaderGUI.merge_threads g1 = 1
    /\ (exists t, M3U8DownloaderGUI.download_threads g1 = [t]
                  /\ M3U8DownloaderGUI.dt_manager t = 1)
    /\ M3U8DownloaderGUI.download_manager g1 = Some 1
    /\ M3U8DownloaderGUI.download_manager g1
       <> M3U8DownloaderGUI.download_manager g
    /\ forall r m, exists g2,
         M3U8DownloaderGUI.gui_run window_env
           [M3U8DownloaderGUI.DownloadThreadEnds r m;
            M3U8DownloaderGUI.ClickMerge] g1 = Some g2
         /\ M3U8DownloaderGUI.merge_threads g2 = 2
         /\ M3U8DownloaderGUI.download_btn (M3U8DownloaderGUI.buttons g2)
            = true.
Proof.
  eexists.
  match goal with
  | |- exists g1, ?run = Some ?g /\ _ =>
      assert (run = Some g) as Hg by (vm_compute; reflexivity)
  end.
  destruct (window_allows_merge_during_download window_env
              events_download_ended _
              "http://host/other/index.m3u8" "/downloads" "10" Hg)
    as (g1 & Hrun & Hrest); try (vm_compute; reflexivity).
  exists g1. split; [exact Hg|]. split; [exact Hrun|]. exact Hrest.
Defined.

(** ** [start_download]: how often a segment is requested *)

Section Requests.
Context (env : Env) (max_workers : nat) (url : string) (w0 : World).

Lemma attempts_of_cons_segment idx i u r log :
  attempts_of idx (ReqSegment i u r :: log)
  = attempts_of idx log ++ (if i =? idx then [r] else []).
Proof.
  unfold attempts_of. cbn [rev]. rewrite omap_app. f_equal.
  csimpl. by destruct (i =? idx).
Qed.

Lemma worker_next_requests stop i u ws w ws' w' k segs rest :
  worker_next env default_max_retries stop i u ws w = Some (ws', w') ->
  http_log w = segs ++ rest ->
  attempts_of i segs = seq 0 k ->
  attempts_begun (Some ws) k ->
  exists segs' k',
    http_log w' = segs' ++ rest
    /\ attempts_of i segs' = seq 0 k'
    /\ attempts_begun (Some ws') k'
    /\ (forall j, j <> i -> attempts_of j segs' = attempts_of j segs)
    /\ (forall urls, urls !! i = Some u ->
          Forall (request_of_segment urls) segs ->
          Forall (request_of_segment urls) segs').
Proof.
  intros Hnext Hlog Hatt Hbegun.
  destruct ws as [|r|r|res]; cbn [worker_next] in Hnext; [| | |done].
  - simpl in Hbegun. subst k.
    destruct stop; injection Hnext as <- <-; exists segs, 0; simpl;
      repeat split; try done; unfold default_max_retries; lia.
  - simpl in Hbegun. destruct Hbegun as [-> Hr].
    destruct (Nat.ltb_spec r default_max_retries) as [Hlt|Hge];
      [destruct stop|]; injection Hnext as <- <-; exists segs, r; simpl;
      repeat split; try done.
  - simpl in Hbegun. destruct Hbegun as [-> Hr].
    pose proof (fetch_attempt_log env i u r w) as Hlog'.
    destruct (fetch_attempt env i u r w) as [[[]|e] w1]; simpl in Hlog'.
    + injection Hnext as <- <-.
      exists (ReqSegment i u r :: segs), (S r). rewrite Hlog', Hlog.
      split; [done|]. rewrite attempts_of_cons_segment, Hatt, Nat.eqb_refl.
      split; [by rewrite seq_S|]. split; [simpl; lia|]. split.
      * intros j Hj. rewrite attempts_of_cons_segment.
        destruct (Nat.eqb_spec i j); [congruence|]. by rewrite app_nil_r.
      * intros urls Hu Hall. by constructor.
    + assert (exists ws1, (ws1 = WLoop (S r) /\ S r <= default_max_retries
                           \/ exists res, ws1 = WDone res)
                          /\ ws' = ws1 /\ w' = w1) as (ws1 & Hws1 & -> & ->).
      { unfold on_exception in Hnext.
        destruct (Nat.ltb_spec r (default_max_retries - 1));
          injection Hnext as <- <-; eexists; (split; [|done]);
          [left; split; [done|lia]|right; eauto]. }
      exists (ReqSegment i u r :: segs), (S r). rewrite Hlog', Hlog.
      split; [done|]. rewrite attempts_of_cons_segment, Hatt, Nat.eqb_refl.
      split; [by rewrite seq_S|]. split.
      { destruct Hws1 as [[-> ?]|[res ->]]; simpl; [done|lia]. }
      split.
      * intros j Hj. rewrite attempts_of_cons_segment.
        destruct (Nat.eqb_spec i j); [congruence|]. by rewrite app_nil_r.
      * intros urls Hu Hall. by constructor.
Qed.


Lemma attempts_begun_app_l (fs extra : list wstate) i k :
  attempts_begun (fs !! i) k ->
  Forall (fun ws => ws = WPending) extra ->
  attempts_begun ((fs ++ extra) !! i) k.
Proof.
  intros Hk Hextra.
  destruct (decide (i < length fs)) as [Hlt|Hge].
  - by rewrite lookup_app_l.
  - rewrite (lookup_ge_None_2 fs i) in Hk by lia. simpl in Hk. subst k.
    destruct ((fs ++ extra) !! i) as [ws|] eqn:Hws; [|done].
    rewrite lookup_app_r in Hws by lia.
    apply list_elem_of_lookup_2 in Hws.
    rewrite Forall_forall in Hextra. by rewrite (Hextra ws Hws).
Qed.

Lemma request_init path : request_inv url w0 (init_system url path w0).
Proof. done. Qed.

Lemma request_step e s s' :
  reach_inv max_workers s ->
  request_inv url w0 s ->
  step env max_workers e s = Some s' ->
  request_inv url w0 s'.
Proof.
  intros [_ _ Hpc] [Hurl Hinv] Hstep. unfold request_inv.
  destruct e as [|i|i|]; simpl in Hstep.
  - unfold main_step in Hstep.
    destruct (pc s) as [| |k| |r|r] eqn:Hpcs; simpl in Hpc.
    + injection Hstep as <-. done.
    + destruct Hpc as (Hfut & _).
      destruct (parse_m3u8_effects env (mgr s) (world s))
        as (ok & m' & w' & Heq & Hlog & _ & _ & Hu & _).
      rewrite Heq in Hstep. rewrite Hurl, Hinv in Hlog.
      assert (exists segs,
                http_log w' = segs ++ ReqManifest url :: http_log w0
                /\ (forall i, exists k,
                      attempts_of i segs = seq 0 k
                      /\ attempts_begun (futures s !! i) k)
                /\ Forall (request_of_segment (ts_urls m')) segs) as Hnew.
      { exists []. split; [done|]. split; [|constructor].
        intros i. exists 0. by rewrite Hfut. }
      destruct ok; [destruct (max_workers =? 0)|]; injection Hstep as <-;
        simpl; split; congruence || done.
    + destruct Hinv as (segs & Hlog & Hatt & Hall).
      destruct (ts_urls (mgr s) !! k);
        [destruct (executor (mgr s)) as [[]|]|]; injection Hstep as <-;
        simpl; (split; [done|]); exists segs; repeat split; try done.
      intros i. destruct (Hatt i) as (n & Hn & Hb). exists n. split; [done|].
      apply attempts_begun_app_l; [done|]. by repeat constructor.
    + destruct (length (yielded s) =? length (futures s)); [|done].
      injection Hstep as <-. unfold final_check.
      destruct (failed_segments (mgr s)); simpl; done.
    + destruct (forallb is_done (futures s)); [|done].
      injection Hstep as <-. done.
    + done.
  - unfold yield_step in Hstep.
    destruct (pc s); try done.
    destruct (futures s !! i) as [[| | |[[idx error] success]]|]; try done.
    case_bool_decide; [done|].
    cbn [stop_requested set_completed] in Hstep.
    destruct (stop_requested (mgr s)); [|destruct success];
      injection Hstep as <-; done.
  - unfold worker_step in Hstep.
    destruct (futures s !! i) as [ws|] eqn:Hi; [|done].
    destruct (ts_urls (mgr s) !! i) as [u|] eqn:Hu; [|done].
    destruct (is_pending ws && negb (can_start max_workers i (futures s)));
      [done|].
    destruct (worker_next env default_max_retries (stop_requested (mgr s))
                i u ws (world s)) as [[ws' w']|] eqn:Hnext; [|done].
    injection Hstep as <-. simpl. split; [done|].
    assert (exists segs,
              http_log (world s) = segs ++ ReqManifest url :: http_log w0
              /\ (forall i, exists k,
                    attempts_of i segs = seq 0 k
                    /\ attempts_begun (futures s !! i) k)
              /\ Forall (request_of_segment (ts_urls (mgr s))) segs)
      as (segs & Hlog & Hatt & Hall).
    { destruct (pc s); simpl in Hpc, Hinv; try exact Hinv;
        destruct Hpc as [Hnil _]; by rewrite Hnil in Hi. }
    destruct (Hatt i) as (k & Hk & Hb). rewrite Hi in Hb.
    destruct (worker_next_requests _ i u ws (world s) ws' w' k segs _
                Hnext Hlog Hk Hb)
      as (segs' & k' & Hlog' & Hk' & Hb' & Hother & Hall').
    assert (exists segs,
              http_log w' = segs ++ ReqManifest url :: http_log w0
              /\ (forall j, exists k,
                    attempts_of j segs = seq 0 k
                    /\ attempts_begun (<[i := ws']> (futures s) !! j) k)
              /\ Forall (request_of_segment (ts_urls (mgr s))) segs) as Hnew.
    { exists segs'. split; [done|]. split; [|by apply Hall'].
      intros j. destruct (decide (j = i)) as [->|Hj].
      - exists k'. split; [done|].
        rewrite list_lookup_insert_eq; [done|]. by eapply lookup_lt_Some.
      - destruct (Hatt j) as (n & Hn & Hbj). exists n.
        rewrite Hother by done. split; [done|].
        by rewrite list_lookup_insert_ne. }
    destruct (pc s); simpl in Hpc; try exact Hnew;
      destruct Hpc as [Hnil _]; by rewrite Hnil in Hi.
  - injection Hstep as <-. simpl. split; [done|]. by destruct (pc s).
Qed.

Lemma request_run sched s s' :
  reach_inv max_workers s ->
  request_inv url w0 s ->
  run env max_workers sched s = Some s' ->
  request_inv url w0 s'.
Proof.
  revert s. induction sched as [|e sched IH]; intros s Hreach Hinv; simpl.
  - by intros [= <-].
  - destruct (step env max_workers e s) as [s1|] eqn:Hstep; [|done].
    apply IH; [by eapply reach_step|by eapply request_step].
Qed.

End Requests.

Lemma sum_list_with_add {A} (f g : A -> nat) (l : list A) :
  sum_list_with (fun x => f x + g x) l
  = sum_list_with f l + sum_list_with g l.
Proof. induction l as [|x l IH]; simpl; lia. Qed.

Lemma sum_list_with_ext_eq {A} (f g : A -> nat) (l : list A) :
  (forall x, f x = g x) -> sum_list_with f l = sum_list_with g l.
Proof. intros H. induction l as [|x l IH]; simpl; [done|]. by rewrite H, IH. Qed.

Lemma sum_list_with_le {A} (f : A -> nat) (l : list A) (b : nat) :
  (forall x, f x <= b) -> sum_list_with f l <= b * length l.
Proof.
  intros Hb. induction l as [|x l IH]; simpl; [lia|].
  specialize (Hb x). lia.
Qed.

Lemma sum_indicator j a n :
  sum_list_with (fun i => if j =? i then 1 else 0) (seq a n)
  = if (a <=? j) && (j <? a + n) then 1 else 0.
Proof.
  revert a. induction n as [|n IH]; intros a; simpl.
  - destruct (Nat.leb_spec a j), (Nat.ltb_spec j (a + 0)); simpl; lia.
  - rewrite IH.
    destruct (Nat.eqb_spec j a), (Nat.leb_spec a j), (Nat.leb_spec (S a) j),
      (Nat.ltb_spec j (S a + n)), (Nat.ltb_spec j (a + S n)); simpl; lia.
Qed.

(** Every request of a segment counts for exactly one segment. *)
Lemma requests_by_segment (urls : list string) (segs : list request) :
  Forall (request_of_segment urls) segs ->
  length segs
  = sum_list_with (fun i => length (attempts_of i segs)) (seq 0 (length urls)).
Proof.
  induction 1 as [|req segs Hreq _ IH]; simpl.
  - induction (seq 0 (length urls)) as [|i l IHl]; simpl; [done|].
    by rewrite <- IHl.
  - destruct req as [u|j u r]; [done|]. simpl in Hreq.
    apply lookup_lt_Some in Hreq.
    rewrite (sum_list_with_ext_eq _ (fun i =>
               length (attempts_of i segs) + (if j =? i then 1 else 0))).
    2:{ intros i. rewrite attempts_of_cons_segment, length_app.
        by destruct (j =? i). }
    rewrite sum_list_with_add, <- IH, sum_indicator.
    destruct (Nat.leb_spec 0 j), (Nat.ltb_spec j (0 + length urls));
      simpl; lia.
Qed.

(** X27. In every state of every interleaving of [start_download], calls
    of [stop_download] included, either nothing was requested yet or the
    requests made are the one for the manifest followed by requests for
    segments; each segment was requested at most three times, with the
    retry numbers [0, 1, 2] in this order, and always at the URL
    [ts_urls] has for it; so at most [3 * N] segment requests are made for
    [N] segments. *)
Theorem segment_requests_capped (env : Env) (max_workers : nat)
    (url path : string) (w0 : World) (sched : list event) (s' : System)
    (Hrun : run env max_workers sched (init_system url path w0) = Some s') :
  http_log (world s') = http_log w0
  \/ exists segs,
       http_log (world s') = segs ++ ReqManifest url :: http_log w0
       /\ (forall i, exists k, k <= 3 /\ attempts_of i segs = seq 0 k)
       /\ Forall (request_of_segment (ts_urls (mgr s'))) segs
       /\ length segs <= 3 * length (ts_urls (mgr s')).
Proof.
  destruct (request_run env max_workers url w0 sched _ _
              (reach_init max_workers url path w0)
              (request_init url w0 path) Hrun) as [_ Hinv].
  assert (forall ws k, attempts_begun ws k -> k <= 3) as Hcap.
  { intros [[|r|r|res]|] k; unfold attempts_begun, default_max_retries;
      lia. }
  assert (http_log (world s') = http_log w0
          \/ exists segs,
               http_log (world s') = segs ++ ReqManifest url :: http_log w0
               /\ (forall i, exists k,
                     attempts_of i segs = seq 0 k
                     /\ attempts_begun (futures s' !! i) k)
               /\ Forall (request_of_segment (ts_urls (mgr s'))) segs)
    as [Hnone|(segs & Hlog & Hatt & Hall)].
  { destruct (pc s'); eauto. }
  { by left. }
  right. exists segs. split; [done|]. split; [|split; [done|]].
  - intros i. destruct (Hatt i) as (k & Hk & Hb). exists k.
    split; [by eapply Hcap|done].
  - rewrite (requests_by_segment _ _ Hall).
    etrans; [apply (sum_list_with_le _ _ 3)|by rewrite length_seq].
    intros i. destruct (Hatt i) as (k & -> & Hb). rewrite length_seq.
    by eapply Hcap.
Qed.

Lemma segment_requests_capped_witness :
  exists s',
    run env_segment_2_fails 2 (sequential_schedule [3; 3; 7; 3; 3])
      (init_system scenario_url "/downloads" empty_world) = Some s'
    /\ length (http_log (world s')) = 8
    /\ (http_log (world s') = http_log empty_world
        \/ exists segs,
             http_log (world s')
             = segs ++ ReqManifest scenario_url :: http_log empty_world
             /\ (forall i, exists k,
                   k <= 3 /\ attempts_of i segs = seq 0 k)
             /\ Forall (request_of_segment (ts_urls (mgr s'))) segs
             /\ length segs <= 3 * length (ts_urls (mgr s'))).
Proof.
  eexists. split; [vm_compute; reflexivity|]. split; [vm_compute; reflexivity|].
  apply (segment_requests_capped env_segment_2_fails 2 scenario_url
           "/downloads" empty_world (sequential_schedule [3; 3; 7; 3; 3])).
  vm_compute. reflexivity.
Defined.

(** ** [parse_m3u8]: the base of the references *)

Section BaseUrl.

Lemma avoids_cons c d s :
  avoids c (String d s) = negb (Ascii.eqb d c) && avoids c s.
Proof. done. Qed.

Lemma head_without_slash name :
  avoids slash name = true -> head_upto_last_slash name = EmptyString.
Proof.
  induction name as [|c name IH]; [done|].
  rewrite avoids_cons. intros [Hc Hname]%andb_prop.
  cbn [head_upto_last_slash]. rewrite IH by done.
  apply negb_true_iff in Hc. by rewrite Hc.
Qed.

(** The head is the text through its last slash. *)
Lemma head_through_last_slash a name :
  avoids slash name = true ->
  head_upto_last_slash (a +:+ String slash name) = a +:+ String slash "".
Proof.
  intros Hname. induction a as [|c a IH].
  - rewrite !string_app_nil. cbn [head_upto_last_slash].
    rewrite head_without_slash by done. by rewrite Ascii.eqb_refl.
  - rewrite !string_app_cons. cbn [head_upto_last_slash]. rewrite IH.
    destruct a; by rewrite ?string_app_nil, ?string_app_cons.
Qed.

Lemma all_slashes_other a c t :
  c <> slash -> all_slashes (a +:+ String c t) = false.
Proof.
  intros Hc. induction a as [|d a IH].
  - rewrite string_app_nil. cbn [all_slashes].
    by destruct (Ascii.eqb_spec c slash).
  - rewrite string_app_cons. cbn [all_slashes]. rewrite IH.
    apply andb_false_r.
Qed.

Lemma rstrip_slash_last a c :
  c <> slash ->
  rstrip_slash (a +:+ String c (String slash "")) = a +:+ String c "".
Proof.
  intros Hc. induction a as [|d a IH].
  - rewrite !string_app_nil. cbn [rstrip_slash].
    rewrite Ascii.eqb_refl. by destruct (Ascii.eqb_spec c slash).
  - rewrite !string_app_cons. cbn [rstrip_slash]. rewrite IH.
    destruct a; by rewrite ?string_app_nil, ?string_app_cons.
Qed.

(** X28. The base against which the references of a playlist are resolved
    is the URL through its last slash, wherever this slash is (in the
    path or in a query string), when the character before this slash is
    not a slash itself; for a URL without any slash it is ["/"]. *)
Theorem base_url_through_last_slash (d name : string) (c : ascii)
    (Hc : c <> slash) (Hname : avoids slash name = true) :
  base_url (d +:+ String c (String slash name)) = d +:+ String c (String slash "")
  /\ base_url name = String slash "".
Proof.
  unfold base_url, dirname. split.
  - replace (d +:+ String c (String slash name))
      with ((d +:+ String c "") +:+ String slash name)
      by (by rewrite string_app_assoc, string_app_cons, string_app_nil).
    rewrite head_through_last_slash by done.
    rewrite string_app_assoc, string_app_cons, string_app_nil.
    rewrite all_slashes_other, rstrip_slash_last by done.
    by rewrite string_app_assoc, string_app_cons, string_app_nil.
  - by rewrite head_without_slash.
Qed.

End BaseUrl.

Lemma base_url_through_last_slash_witness :
  base_url "http://host/a/index.m3u8?next=/b/c" = "http://host/a/index.m3u8?next=/b/"
  /\ base_url "c" = "/".
Proof.
  apply (base_url_through_last_slash "http://host/a/index.m3u8?next=/" "c"
           "b"%char); [|done].
  intros H. discriminate H.
Defined.

(** ** [parse_m3u8]: byte-range directives without a line feed *)

Section OtherLineEnds.
Context (env : Env) (sep : ascii).
Hypothesis Hsep : is_linebreak sep = true.
Hypothesis Hlf : sep <> LF.

Lemma lines_ended_by_cons l ls :
  lines_ended_by sep (l :: ls) = l +:+ String sep (lines_ended_by sep ls).
Proof. done. Qed.

(** Inside a match, text without a line feed is dropped to its end. *)
Lemma re_sub_skip_all s :
  avoids LF s = true -> re_sub_byterange true s = EmptyString.
Proof.
  induction s as [|d s IH]; [done|].
  rewrite avoids_cons. intros [Hd Hs]%andb_prop.
  cbn [re_sub_byterange]. apply negb_true_iff in Hd. rewrite Hd.
  by apply IH.
Qed.

Lemma avoids_lines_ended_by ls :
  Forall (fun l => avoids LF l = true) ls ->
  avoids LF (lines_ended_by sep ls) = true.
Proof.
  induction 1 as [|l ls Hl _ IH]; [done|].
  rewrite lines_ended_by_cons, avoids_app, avoids_cons, Hl, IH.
  by destruct (Ascii.eqb_spec sep LF).
Qed.

Lemma prefix_marker_sep t :
  String.prefix byterange_marker (String sep t) = false.
Proof.
  unfold byterange_marker. cbn [String.prefix].
  destruct (ascii_dec "#"%char sep) as [<-|]; [|done].
  vm_compute in Hsep. discriminate Hsep.
Qed.

(** From the first directive on, the text has no line feed that would end
    the match: the directive and all that follows are deleted. *)
Lemma re_sub_lines_ended_by before tag after :
  Forall (fun l => has_linebreak l = false
                   /\ occurs_in byterange_marker l = false) before ->
  String.prefix byterange_marker tag = true ->
  Forall (fun l => avoids LF l = true) (tag :: after) ->
  re_sub_byterange false (lines_ended_by sep (before ++ tag :: after))
  = lines_ended_by sep before.
Proof.
  intros Hbefore Htag Hrest.
  induction Hbefore as [|l before [Hlb Hocc] _ IH].
  - cbn [app]. pose proof (avoids_lines_ended_by _ Hrest) as Hav.
    rewrite lines_ended_by_cons in Hav |- *.
    pose proof (prefix_app_l _ _
                  (String sep (lines_ended_by sep after)) Htag) as Hp.
    destruct tag as [|c tag]; [done|].
    rewrite string_app_cons in Hav, Hp |- *.
    cbn [re_sub_byterange]. rewrite Hp.
    rewrite avoids_cons in Hav. apply andb_prop in Hav as [_ Hav].
    by rewrite re_sub_skip_all.
  - rewrite <- app_comm_cons, !lines_ended_by_cons.
    rewrite re_sub_copy; [|by apply has_linebreak_avoids|done].
    f_equal. cbn [re_sub_byterange]. rewrite prefix_marker_sep.
    by rewrite IH.
Qed.

Lemma splitlines_aux_ended_by cur after_cr l rest :
  has_linebreak l = false ->
  splitlines_aux cur after_cr (l +:+ String sep rest)
  = String.rev_app cur l
    :: splitlines_aux EmptyString (Ascii.eqb sep CR) rest.
Proof.
  revert cur after_cr. induction l as [|c l IH]; intros cur after_cr Hl.
  - rewrite string_app_nil. cbn [splitlines_aux].
    destruct (Ascii.eqb_spec sep LF); [done|].
    by rewrite andb_false_r, Hsep.
  - unfold has_linebreak in Hl. cbn [list_ascii_of_string existsb] in Hl.
    apply orb_false_elim in Hl as [Hc Hl].
    rewrite string_app_cons. cbn [splitlines_aux].
    destruct (Ascii.eqb_spec c LF) as [->|]; [done|].
    rewrite andb_false_r, Hc. by rewrite IH.
Qed.

Lemma splitlines_lines_ended_by after_cr ls :
  Forall (fun l => has_linebreak l = false) ls ->
  splitlines_aux EmptyString after_cr (lines_ended_by sep ls) = ls.
Proof.
  intros Hls. revert after_cr.
  induction Hls as [|l ls Hl _ IH]; intros after_cr; [done|].
  rewrite lines_ended_by_cons, splitlines_aux_ended_by by done.
  by rewrite IH.
Qed.

Lemma references_of_stripped ls :
  List.filter (fun line => negb (starts_with "#" line))
    (flat_map (fun line => if nonempty (strip line) then [strip line] else [])
       ls)
  = references_of_lines ls.
Proof.
  unfold references_of_lines. induction ls as [|l ls IH]; [done|].
  cbn [flat_map map List.filter]. rewrite List.filter_app, IH.
  destruct (nonempty (strip l)); [|done].
  cbn [List.filter]. by destruct (starts_with "#" (strip l)).
Qed.

Lemma manifest_refs_ended_by before tag after :
  Forall (fun l => has_linebreak l = false
                   /\ occurs_in byterange_marker l = false) before ->
  String.prefix byterange_marker tag = true ->
  Forall (fun l => avoids LF l = true) (tag :: after) ->
  manifest_refs (lines_ended_by sep (before ++ tag :: after))
  = references_of_lines before.
Proof.
  intros Hbefore Htag Hrest. unfold manifest_refs, stripped_lines.
  rewrite re_sub_lines_ended_by by done. unfold splitlines.
  rewrite splitlines_lines_ended_by; [apply references_of_stripped|].
  eapply Forall_impl; [exact Hbefore|]. by intros l [? _].
Qed.

(** X29. Of a playlist whose lines end in a line boundary other than a
    line feed (a lone carriage return, say), [parse_m3u8] keeps the
    references before the first byte-range directive only: the directive
    and everything after it are deleted, so the segments listed there
    are lost, and the call fails with ["No TS files found in M3U8"] when
    no reference precedes the directive. *)
Theorem parse_m3u8_byterange_without_line_feed
    (m : DownloadManager) (w : World)
    (before after : list string) (tag : string) (resolve : string -> string)
    (Hfetch : http_manifest env (m3u8_url m)
              = Normal (lines_ended_by sep (before ++ tag :: after)))
    (Hbefore : Forall (fun l => has_linebreak l = false
                                /\ occurs_in byterange_marker l = false)
                 before)
    (Htag : String.prefix byterange_marker tag = true)
    (Hrest : Forall (fun l => avoids LF l = true) (tag :: after))
    (Hresolve : forall ref,
        ref ∈ references_of_lines before ->
        urljoin env (base_url (m3u8_url m)) ref = Normal (resolve ref)) :
  exists m' w',
    parse_m3u8 env m w
    = (match references_of_lines before with [] => false | _ => true end,
       m', w')
    /\ ts_urls m' = map resolve (references_of_lines before)
    /\ match references_of_lines before with
       | [] =>
           progress_log w'
           = {| p_current := 0; p_total := 0; p_message := None;
                p_error := Some (ErrParse "No TS files found in M3U8") |}
             :: progress_log w
       | _ => total m' = length (references_of_lines before)
              /\ progress_log w' = progress_log w
       end.
Proof.
  unfold parse_m3u8, parse_m3u8_try. rewrite Hfetch.
  assert (nonempty (lines_ended_by sep (before ++ tag :: after)) = true)
    as ->.
  { destruct before as [|l before]; cbn [app];
      rewrite lines_ended_by_cons; [by destruct tag|by destruct l]. }
  rewrite manifest_refs_ended_by by done.
  rewrite (map_outcome_normal _ resolve _ Hresolve).
  destruct (references_of_lines before) as [|ref refs]; cbn [map].
  - by eexists _, _.
  - eexists _, _. split; [reflexivity|]. simpl. by rewrite length_map.
Qed.

End OtherLineEnds.

Lemma parse_m3u8_byterange_without_line_feed_witness :
  exists m' w',
    parse_m3u8 env_carriage_returns (new_manager scenario_url "/downloads")
      empty_world = (true, m', w')
    /\ ts_urls m' = ["http://host/path/seg0.ts"]
    /\ total m' = 1.
Proof.
  destruct (parse_m3u8_byterange_without_line_feed env_carriage_returns CR
              eq_refl ltac:(discriminate)
              (new_manager scenario_url "/downloads") empty_world
              ["#EXTM3U"; "seg0.ts"] ["seg1.ts"; "#EXT-X-BYTERANGE:1000@1000"; "seg2.ts"]
              "#EXT-X-BYTERANGE:1000@0"
              (fun ref => "http://host/path/" +:+ ref)
              eq_refl
              ltac:(repeat constructor)
              eq_refl
              ltac:(repeat constructor)
              (fun ref _ => eq_refl))
    as (m' & w' & Hparse & Hurls & Htotal).
  exists m', w'. split; [exact Hparse|]. split.
  - rewrite Hurls. vm_compute. reflexivity.
  - vm_compute in Htotal. exact (proj1 Htotal).
Defined.

(** ** [parse_m3u8]: the references of a manifest, line by line *)

Section SpecLines.
Context (env : Env).







End SpecLines.



(** ** [start_download]: [stop_download] during the submissions *)

(** C4 (the code at the failing input). [stop_download] is called while
    line 103 is still submitting: two of five calls are submitted, none
    is completed. The next [submit] raises, and [start_download] ends
    with that [RuntimeError]: it has not returned [False], the progress
    callback was never called, so no cancellation is reported. The flag
    is set and the one segment request made was already under way when
    [stop_download] was called. *)
Theorem stop_during_submit_raises :
  exists s s',
    run env_all_succeed 2 schedule_two_submitted
      (init_system scenario_url "/downloads" empty_world) = Some s
    /\ pc s = MSubmit 2
    /\ futures s = [WFetch 0; WPending]
    /\ completed (mgr s) = 0 /\ total (mgr s) = 5
    /\ run env_all_succeed 2 schedule_after_stop_two_submitted
         (stop_download s) = Some s'
    /\ finished s' = true
    /\ pc s' = MDone (Raise submit_after_shutdown)
    /\ stop_requested (mgr s') = true
    /\ completed (mgr s') = 0
    /\ progress_log (world s') = []
    /\ ~ cancellation_reported s'
    /\ segment_requests (http_log (world s')) = [(0, 0)].
Proof.
  eexists _, _. split; [vm_compute; reflexivity|].
  do 4 (split; [reflexivity|]). split; [vm_compute; reflexivity|].
  do 5 (split; [reflexivity|]). split; [|vm_compute; reflexivity].
  intros (c & t & H). discriminate H.
Qed.
